(** * astro-notion-blog-multi-lang: the content-normalization core

    A shallow embedding of [src/lib/notion/client.ts] (block normalizer,
    tree assembler, per-language post cache and the accessors derived from
    it) and of the list-grouping pass of [src/components/NotionBlocks.astro],
    followed by the properties the specification states about them.

    Conventions.
    - A JavaScript computation that may throw is a value of [Res]: [Ok] for
      a returned value, [Throw] for an exception, [OutOfFuel] when the
      bounded unrolling of a loop or of a recursion was too short.
    - JavaScript integers are [Z]; strings are [string]; arrays are [list].
    - The type declarations of [./responses] and [../interfaces] are not
      part of the sources at hand; the records below are reconstructed from
      the fields the code reads and writes.
    - The packages [async-retry] and [async-lock] are not part of the
      sources at hand either; [retryFrom] and [acquire] follow what the
      packages do with the options the code passes.
    - Whether the lock lets a caller in depends on the other callers and on
      the clock: every call that goes through the lock takes what the lock
      does with it as a parameter, of type [LockOutcome]. *)

From Stdlib Require Import List String ZArith Bool Lia Arith.
From Stdlib Require Import Permutation Sorted OrderedTypeEx.
Import ListNotations.
Open Scope string_scope.
Open Scope list_scope.
Open Scope Z_scope.

Set Implicit Arguments.

(* ------------------------------------------------------------------ *)
(** ** Results of JavaScript computations *)

(** How [asyncLock.acquire] turns a caller away: the queue of the key is
    full, the caller waited too long in the queue, or too long went by
    between its call and the end of its function. *)
Inductive LockRejection : Type :=
| TooManyPending
| TimedOut
| OccupationExceeded.

(** The exceptions the code meets: the [TypeError] of a property read on
    [undefined], the [APIResponseError] of the client of the remote API,
    the [Error] with which the lock rejects, and any other [Error]. *)
Inductive JsError : Type :=
| TypeError
| APIResponseError (status : option Z) (message : string)
| LockError (key : string) (rejection : LockRejection)
| OtherError (msg : string).

Inductive Res (A : Type) : Type :=
| Ok (a : A)
| Throw (e : JsError)
| OutOfFuel.

Arguments Ok {A} a.
Arguments Throw {A} e.
Arguments OutOfFuel {A}.

Definition bind {A B : Type} (m : Res A) (k : A -> Res B) : Res B :=
  match m with
  | Ok a => k a
  | Throw e => Throw e
  | OutOfFuel => OutOfFuel
  end.

Notation "x <- m ;; k" := (bind m (fun x => k))
  (at level 61, m at next level, right associativity).

(** [xs.map(f)] for an [f] that may throw: the first exception wins. *)
Fixpoint mapM {A B : Type} (f : A -> Res B) (xs : list A) : Res (list B) :=
  match xs with
  | [] => Ok []
  | x :: xs' => y <- f x ;; ys <- mapM f xs' ;; Ok (y :: ys)
  end.

(** An [if] whose condition failed falls through to the [else]. *)
Definition orElse {A : Type} (branch : option A) (otherwise : A) : A :=
  match branch with
  | Some a => a
  | None => otherwise
  end.

(** Truthiness of a string: only the empty string is falsy. *)
Definition truthy_string (s : string) : bool := negb (s =? "")%string.

(** [s || ''] *)
Definition or_empty (s : string) : string := if truthy_string s then s else "".

(** [xs.join('')] *)
Definition join (xs : list string) : string := String.concat "" xs.

(* ------------------------------------------------------------------ *)
(** ** Raw records of the remote API ([./responses]) *)

(** Modelled from the spec: the declarations of [./responses] are missing;
    the records below hold the members the code reads, an [option] where
    the code tests for presence. *)
Module responses.

Record Annotations : Type := mkAnnotations {
  bold : bool; italic : bool; strikethrough : bool;
  underline : bool; code : bool; color : string }.

Record Link : Type := mkLink { url : string }.
Record Text : Type := mkText { content : string; link : option Link }.
Record Equation : Type := mkEquation { expression : string }.
Record Reference : Type := mkReference { ref_id : string }.
Record Mention : Type := mkMention {
  mention_type : string; page : option Reference }.

Record RichTextObject : Type := mkRichTextObject {
  rt_type : string;
  plain_text : string;
  href : option string;
  annotations : Annotations;
  text : option Text;
  equation : option Equation;
  mention : option Mention }.

(** An icon object: [type] plus the keys [emoji] / [external] when present. *)
Record Icon : Type := mkIcon {
  icon_type : string;
  emoji : option string;
  external : option string }.

Record FileRef : Type := mkFileRef { file_url : string; expiry_time : string }.

(** The type-specific member of a block object.  The API sends exactly the
    member named by [type]; the code reads no other member, so the object
    is modelled by the one member it carries (or none). *)
Inductive Member : Type :=
| m_paragraph (rich_text : list RichTextObject) (color : string)
| m_heading_1 (rich_text : list RichTextObject) (color : string)
            (is_toggleable : bool)
| m_heading_2 (rich_text : list RichTextObject) (color : string)
            (is_toggleable : bool)
| m_heading_3 (rich_text : list RichTextObject) (color : string)
            (is_toggleable : bool)
| m_bulleted_list_item (rich_text : list RichTextObject) (color : string)
| m_numbered_list_item (rich_text : list RichTextObject) (color : string)
| m_to_do (rich_text : list RichTextObject) (checked : bool) (color : string)
| m_video (caption : option (list RichTextObject)) (type : string)
        (external : option string)
| m_image (caption : option (list RichTextObject)) (type : string)
        (external : option string) (file : option FileRef)
| m_file (caption : option (list RichTextObject)) (type : string)
       (external : option string) (file : option FileRef)
| m_code (caption : option (list RichTextObject))
       (rich_text : list RichTextObject) (language : string)
| m_quote (rich_text : list RichTextObject) (color : string)
| m_equation (expression : string)
| m_callout (icon : option Icon) (rich_text : list RichTextObject)
            (color : string)
| m_synced_block (synced_from : option string)
| m_toggle (rich_text : list RichTextObject) (color : string)
| m_embed (url : string)
| m_bookmark (url : string)
| m_link_preview (url : string)
| m_table (table_width : Z) (has_column_header has_row_header : bool)
| m_column_list
| m_table_of_contents (color : string)
| m_link_to_page (type : string) (page_id : option string)
| m_table_row (cells : list (list RichTextObject)).

Record BlockObject : Type := mkBlockObject {
  id : string;
  type : string;
  has_children : bool;
  member : option Member }.

End responses.

(* ------------------------------------------------------------------ *)
(** ** Normalized content ([../interfaces]) *)

(** Modelled from the spec: the declarations of [../interfaces] are
    missing; the records below hold the members the code writes, after
    the data model of the specification (Block, RichText, Post). *)

Record Annotation : Type := mkAnnotation {
  Bold : bool; Italic : bool; Strikethrough : bool;
  Underline : bool; Code : bool; Color : string }.

Record Text : Type := mkText { Content : string; Link : option string }.
Record Equation : Type := mkEquation { Expression : string }.
Record Reference : Type := mkReference { RefId : string }.
Record Mention : Type := mkMention {
  MentionType : string; Page : option Reference }.

Record RichText : Type := mkRichText {
  RtAnnotation : Annotation;
  PlainText : string;
  Href : option string;
  RtText : option Text;
  RtEquation : option Equation;
  RtMention : option Mention }.

(** [FileOrExternalWithUrl | Emoji] *)
Inductive IconT : Type :=
| IconEmoji (Type_ : string) (Emoji : string)
| IconUrl (Type_ : string) (Url : string).

Record FileT : Type := mkFileT {
  FileType : string; FileUrl : string; ExpiryTime : string }.

Record TableCell : Type := mkTableCell { CellRichTexts : list RichText }.

Record TableRow : Type := mkTableRow {
  RowId : string; RowType : string; RowHasChildren : bool;
  Cells : list TableCell }.

Record Column (B : Type) : Type := mkColumn {
  ColId : string; ColType : string; ColHasChildren : bool;
  ColChildren : list B }.

(** The type-specific member of a normalized block.  A member that is an
    optional slot in the interface ([Children?]) is an [option]. *)
Inductive Payload (B : Type) : Type :=
| PParagraph (RichTexts : list RichText) (Color : string)
             (Children : option (list B))
| PHeading1 (RichTexts : list RichText) (Color : string)
            (IsToggleable : bool) (Children : option (list B))
| PHeading2 (RichTexts : list RichText) (Color : string)
            (IsToggleable : bool) (Children : option (list B))
| PHeading3 (RichTexts : list RichText) (Color : string)
            (IsToggleable : bool) (Children : option (list B))
| PBulletedListItem (RichTexts : list RichText) (Color : string)
                    (Children : option (list B))
| PNumberedListItem (RichTexts : list RichText) (Color : string)
                    (Children : option (list B))
| PToDo (RichTexts : list RichText) (Checked : bool) (Color : string)
        (Children : option (list B))
| PVideo (Caption : list RichText) (Type_ : string) (External : option string)
| PImage (Caption : list RichText) (Type_ : string) (External : option string)
         (File : option FileT)
| PFile (Caption : list RichText) (Type_ : string) (External : option string)
        (File : option FileT)
| PCode (Caption : list RichText) (RichTexts : list RichText)
        (Language : string)
| PQuote (RichTexts : list RichText) (Color : string)
         (Children : option (list B))
| PEquation (Expression : string)
| PCallout (RichTexts : list RichText) (Icon : option IconT) (Color : string)
           (Children : option (list B))
| PSyncedBlock (SyncedFrom : option string) (Children : option (list B))
| PToggle (RichTexts : list RichText) (Color : string) (Children : list B)
| PEmbed (Url : string)
| PBookmark (Url : string)
| PLinkPreview (Url : string)
| PTable (TableWidth : Z) (HasColumnHeader HasRowHeader : bool)
         (Rows : list TableRow)
| PColumnList (Columns : list (Column B))
| PTableOfContents (Color : string)
| PLinkToPage (Type_ : string) (PageId : string)
| PNone.

Arguments PNone {B}.
Arguments PVideo {B}.
Arguments PImage {B}.
Arguments PFile {B}.
Arguments PCode {B}.
Arguments PEquation {B}.
Arguments PEmbed {B}.
Arguments PBookmark {B}.
Arguments PLinkPreview {B}.
Arguments PTable {B}.
Arguments PTableOfContents {B}.
Arguments PLinkToPage {B}.

(** A block: the envelope ([Id], [HasChildren], [Type]) and its member. *)
#[warnings="-register-all"]
Inductive Block : Type :=
| mkBlock (Id : string) (HasChildren : bool) (Type_ : string)
          (payload : Payload Block).

Definition Id (b : Block) : string := let (i, _, _, _) := b in i.
Definition HasChildren (b : Block) : bool := let (_, h, _, _) := b in h.
Definition BlockType (b : Block) : string := let (_, _, t, _) := b in t.
Definition payload (b : Block) : Payload Block := let (_, _, _, p) := b in p.

(* ------------------------------------------------------------------ *)
(** ** Block normalizer *)

(** [_buildRichText] *)
Definition _buildRichText (richTextObject : responses.RichTextObject)
  : RichText :=
  let a := responses.annotations richTextObject in
  let annotation :=
    {| Bold := responses.bold a;
       Italic := responses.italic a;
       Strikethrough := responses.strikethrough a;
       Underline := responses.underline a;
       Code := responses.code a;
       Color := responses.color a |} in
  let richText (t : option Text) (e : option Equation) (m : option Mention) :=
    {| RtAnnotation := annotation;
       PlainText := responses.plain_text richTextObject;
       Href := responses.href richTextObject;
       RtText := t; RtEquation := e; RtMention := m |} in
  let ty := responses.rt_type richTextObject in
  match (ty =? "text")%string, responses.text richTextObject with
  | true, Some t =>
      richText
        (Some {| Content := responses.content t;
                 Link := option_map responses.url (responses.link t) |})
        None None
  | _, _ =>
    match (ty =? "equation")%string, responses.equation richTextObject with
    | true, Some e =>
        richText None (Some {| Expression := responses.expression e |}) None
    | _, _ =>
      match (ty =? "mention")%string, responses.mention richTextObject with
      | true, Some m =>
          let pg :=
            match (responses.mention_type m =? "page")%string,
                  responses.page m with
            | true, Some r => Some {| RefId := responses.ref_id r |}
            | _, _ => None
            end in
          richText None None
            (Some {| MentionType := responses.mention_type m; Page := pg |})
      | _, _ => richText None None None
      end
    end
  end.

(** [caption?.map(_buildRichText) || []] *)
Definition build_caption (caption : option (list responses.RichTextObject))
  : list RichText :=
  match caption with
  | Some c => map _buildRichText c
  | None => []
  end.

(** The [file] branch of the media members. *)
Definition build_file (ty : string) (f : responses.FileRef) : FileT :=
  {| FileType := ty;
     FileUrl := responses.file_url f;
     ExpiryTime := responses.expiry_time f |}.

(** The icon of a callout: emoji or external, anything else is [null]. *)
Definition build_callout_icon (icon : option responses.Icon) : option IconT :=
  match icon with
  | None => None
  | Some i =>
    let ty := responses.icon_type i in
    match (ty =? "emoji")%string, responses.emoji i with
    | true, Some e => Some (IconEmoji ty e)
    | _, _ =>
      match (ty =? "external")%string, responses.external i with
      | true, Some u => Some (IconUrl ty (or_empty u))
      | _, _ => None
      end
    end
  end.

(** The case labels of the [switch] in [_buildBlock]. *)
Definition handled_kinds : list string :=
  [ "paragraph"; "heading_1"; "heading_2"; "heading_3";
    "bulleted_list_item"; "numbered_list_item"; "to_do"; "video"; "image";
    "file"; "code"; "quote"; "equation"; "callout"; "synced_block";
    "toggle"; "embed"; "bookmark"; "link_preview"; "table"; "column_list";
    "table_of_contents"; "link_to_page" ]%string.

(** [_buildBlock].  Reading a property of a member the object does not
    carry ([blockObject.paragraph.rich_text] with [paragraph] undefined)
    throws a [TypeError]. *)
Definition _buildBlock (blockObject : responses.BlockObject) : Res Block :=
  let block := mkBlock (responses.id blockObject)
                       (responses.has_children blockObject) in
  let ty := responses.type blockObject in
  let m := responses.member blockObject in
  if (ty =? "paragraph")%string then
    match m with
    | Some (responses.m_paragraph rt c) =>
        Ok (block "paragraph" (PParagraph (map _buildRichText rt) c None))
    | _ => Throw TypeError
    end
  else if (ty =? "heading_1")%string then
    match m with
    | Some (responses.m_heading_1 rt c tg) =>
        Ok (block "heading_1" (PHeading1 (map _buildRichText rt) c tg None))
    | _ => Throw TypeError
    end
  else if (ty =? "heading_2")%string then
    match m with
    | Some (responses.m_heading_2 rt c tg) =>
        Ok (block "heading_2" (PHeading2 (map _buildRichText rt) c tg None))
    | _ => Throw TypeError
    end
  else if (ty =? "heading_3")%string then
    match m with
    | Some (responses.m_heading_3 rt c tg) =>
        Ok (block "heading_3" (PHeading3 (map _buildRichText rt) c tg None))
    | _ => Throw TypeError
    end
  else if (ty =? "bulleted_list_item")%string then
    match m with
    | Some (responses.m_bulleted_list_item rt c) =>
        Ok (block "bulleted_list_item"
                  (PBulletedListItem (map _buildRichText rt) c None))
    | _ => Throw TypeError
    end
  else if (ty =? "numbered_list_item")%string then
    match m with
    | Some (responses.m_numbered_list_item rt c) =>
        Ok (block "numbered_list_item"
                  (PNumberedListItem (map _buildRichText rt) c None))
    | _ => Throw TypeError
    end
  else if (ty =? "to_do")%string then
    match m with
    | Some (responses.m_to_do rt ck c) =>
        Ok (block "to_do" (PToDo (map _buildRichText rt) ck c None))
    | _ => Throw TypeError
    end
  else if (ty =? "video")%string then
    match m with
    | Some (responses.m_video cap vty ext) =>
        let External :=
          match (vty =? "external")%string, ext with
          | true, Some u => Some u
          | _, _ => None
          end in
        Ok (block "video" (PVideo (build_caption cap) vty External))
    | _ => Throw TypeError
    end
  else if (ty =? "image")%string then
    match m with
    | Some (responses.m_image cap ity ext fl) =>
        match (ity =? "external")%string, ext with
        | true, Some u =>
            Ok (block "image" (PImage (build_caption cap) ity (Some u) None))
        | _, _ =>
          match (ity =? "file")%string, fl with
          | true, Some f =>
              Ok (block "image"
                        (PImage (build_caption cap) ity None
                                (Some (build_file ity f))))
          | _, _ =>
              Ok (block "image" (PImage (build_caption cap) ity None None))
          end
        end
    | _ => Throw TypeError
    end
  else if (ty =? "file")%string then
    match m with
    | Some (responses.m_file cap fty ext fl) =>
        match (fty =? "external")%string, ext with
        | true, Some u =>
            Ok (block "file" (PFile (build_caption cap) fty (Some u) None))
        | _, _ =>
          match (fty =? "file")%string, fl with
          | true, Some f =>
              Ok (block "file"
                        (PFile (build_caption cap) fty None
                               (Some (build_file fty f))))
          | _, _ =>
              Ok (block "file" (PFile (build_caption cap) fty None None))
          end
        end
    | _ => Throw TypeError
    end
  else if (ty =? "code")%string then
    match m with
    | Some (responses.m_code cap rt lang) =>
        Ok (block "code"
                  (PCode (build_caption cap) (map _buildRichText rt) lang))
    | _ => Throw TypeError
    end
  else if (ty =? "quote")%string then
    match m with
    | Some (responses.m_quote rt c) =>
        Ok (block "quote" (PQuote (map _buildRichText rt) c None))
    | _ => Throw TypeError
    end
  else if (ty =? "equation")%string then
    match m with
    | Some (responses.m_equation e) => Ok (block "equation" (PEquation e))
    | _ => Throw TypeError
    end
  else if (ty =? "callout")%string then
    match m with
    | Some (responses.m_callout icon rt c) =>
        Ok (block "callout"
                  (PCallout (map _buildRichText rt)
                            (build_callout_icon icon) c None))
    | _ => Throw TypeError
    end
  else if (ty =? "synced_block")%string then
    match m with
    | Some (responses.m_synced_block sf) =>
        let syncedFrom :=
          match sf with
          | Some block_id =>
              if truthy_string block_id then Some block_id else None
          | None => None
          end in
        Ok (block "synced_block" (PSyncedBlock syncedFrom None))
    | _ => Throw TypeError
    end
  else if (ty =? "toggle")%string then
    match m with
    | Some (responses.m_toggle rt c) =>
        Ok (block "toggle" (PToggle (map _buildRichText rt) c []))
    | _ => Throw TypeError
    end
  else if (ty =? "embed")%string then
    match m with
    | Some (responses.m_embed u) => Ok (block "embed" (PEmbed u))
    | _ => Throw TypeError
    end
  else if (ty =? "bookmark")%string then
    match m with
    | Some (responses.m_bookmark u) => Ok (block "bookmark" (PBookmark u))
    | _ => Throw TypeError
    end
  else if (ty =? "link_preview")%string then
    match m with
    | Some (responses.m_link_preview u) =>
        Ok (block "link_preview" (PLinkPreview u))
    | _ => Throw TypeError
    end
  else if (ty =? "table")%string then
    match m with
    | Some (responses.m_table w ch rh) =>
        Ok (block "table" (PTable w ch rh []))
    | _ => Throw TypeError
    end
  else if (ty =? "column_list")%string then
    Ok (block "column_list" (PColumnList []))
  else if (ty =? "table_of_contents")%string then
    match m with
    | Some (responses.m_table_of_contents c) =>
        Ok (block "table_of_contents" (PTableOfContents c))
    | _ => Throw TypeError
    end
  else if (ty =? "link_to_page")%string then
    match m with
    | Some (responses.m_link_to_page lty pid) =>
        match pid with
        | Some page_id =>
            if truthy_string page_id
            then Ok (block "link_to_page" (PLinkToPage lty page_id))
            else Ok (block "unsupported" PNone)
        | None => Ok (block "unsupported" PNone)
        end
    | _ => Throw TypeError
    end
  else Ok (block ty PNone).

(* ------------------------------------------------------------------ *)
(** ** Retry-wrapped transport *)

Definition numberOfRetry : nat := 2.

(** The guard in front of [bail(error)]:
    [error instanceof APIResponseError && error.status &&
     error.status >= 400 && error.status < 500]. *)
Definition bails (error : JsError) : bool :=
  match error with
  | APIResponseError (Some status) _ =>
      negb (status =? 0) && (400 <=? status) && (status <? 500)
  | _ => false
  end.

(** The text with which the lock rejects, in front of the key. *)
Definition lockMessage (rejection : LockRejection) : string :=
  match rejection with
  | TooManyPending => "Too many pending tasks in queue "
  | TimedOut => "async-lock timed out in queue "
  | OccupationExceeded => "Maximum occupation time is exceeded in queue "
  end.

(** [error.message].  The model keeps one [TypeError] and no text for
    it. *)
Definition message (error : JsError) : string :=
  match error with
  | TypeError => "TypeError"
  | APIResponseError _ m => m
  | LockError key rejection => lockMessage rejection ++ key
  | OtherError m => m
  end.

(** [op.mainError()] of the retry operation: the recorded errors are
    counted by message, in the order they were recorded, and an error
    whose count reaches the highest count so far takes the place of the
    main error.  [counts] holds the messages counted so far. *)
Fixpoint mainErrorFrom (errors : list JsError) (counts : list string)
         (mainError : option JsError) (mainErrorCount : nat)
  : option JsError :=
  match errors with
  | [] => mainError
  | error :: rest =>
      let count := S (count_occ string_dec counts (message error)) in
      if (mainErrorCount <=? count)%nat
      then mainErrorFrom rest (message error :: counts) (Some error) count
      else mainErrorFrom rest (message error :: counts)
                         mainError mainErrorCount
  end.

Definition mainError (errors : list JsError) : option JsError :=
  mainErrorFrom errors [] None 0.

(** [retry(fn, { retries })] of async-retry, around a callback that
    calls [bail(error)] for the errors of [bails] and throws the error
    all the same.  [bail] rejects the promise at once and that rejection
    stands; the error thrown after it is handled like any other: it is
    recorded and, while retries remain, the callback runs again.  An
    answer resolves the promise unless it was rejected before.  When no
    retry remains the promise is rejected with [op.mainError()].

    [errors] are the errors recorded so far, [rejected] the error of the
    first [bail].  The state returned is the one after the last attempt:
    the attempts that follow a [bail] are made while the caller already
    holds the rejection. *)
Fixpoint retryFrom {St A : Type} (retries : nat)
         (fn : St -> (JsError + A) * St)
         (errors : list JsError) (rejected : option JsError) (s : St)
  : Res A * St :=
  match fn s with
  | (inr a, s') =>
      (match rejected with
       | Some bailed => Throw bailed
       | None => Ok a
       end, s')
  | (inl error, s') =>
      let rejected' :=
        match rejected with
        | Some bailed => Some bailed
        | None => if bails error then Some error else None
        end in
      let errors' := errors ++ [error] in
      match retries with
      | O =>
          (match rejected', mainError errors' with
           | Some bailed, _ => Throw bailed
           | None, Some main => Throw main
           | None, None => Throw error
           end, s')
      | S r => retryFrom r fn errors' rejected' s'
      end
  end.

(** [retry] over an endpoint with a state of its own: every attempt is a
    new call. *)
Definition retryS {St A : Type} (retries : nat)
           (fn : St -> (JsError + A) * St) (s : St) : Res A * St :=
  retryFrom retries fn [] None s.

(** [retry] over an endpoint that answers the same every time. *)
Definition retry {A : Type} (retries : nat) (fn : unit -> JsError + A)
  : Res A :=
  fst (retryS retries (fun s : unit => (fn tt, s)) tt).

(* ------------------------------------------------------------------ *)
(** ** The lock *)

(** What the lock does with a caller of [asyncLock.acquire(key, fn)]. *)
Inductive LockOutcome : Type :=
| Granted
| Rejected (rejection : LockRejection).

(** The lock is made with [maxPending: 100] and with [timeout] and
    [maxOccupationTime] of 60 s.  A caller that is let in runs [fn] after
    the callers before it.  A caller that finds the queue full, or that
    waits in the queue for 60 s, is rejected and its [fn] never runs.  A
    caller whose [fn] has started but has not ended 60 s after the call is
    rejected as well, while [fn] runs to its end: the state is the one
    [fn] leaves.  Which of these happens depends on the other callers
    and on the clock, and is given by [lock]. *)
Definition acquire {St A : Type} (key : string) (lock : LockOutcome)
           (fn : St -> Res A * St) (s : St) : Res A * St :=
  match lock with
  | Granted => fn s
  | Rejected TooManyPending => (Throw (LockError key TooManyPending), s)
  | Rejected TimedOut => (Throw (LockError key TimedOut), s)
  | Rejected OccupationExceeded =>
      (Throw (LockError key OccupationExceeded), snd (fn s))
  end.

(** The lock letting in every one of a family of callers. *)
Definition allGranted {A : Type} (caller : A) : LockOutcome := Granted.

Definition ASYNC_LOCK_POSTS : string := "posts".
Definition ASYNC_LOCK_DB : string := "database".

(** [maxPending] of the lock, and what the lock does with the callers
    that [Promise.all] starts in one go on a key that is free: the first
    runs, the next [maxPending] wait in the queue, and the others find
    the queue full.  [index] counts the callers from 0, and [lock] is
    what becomes of a caller that is not turned away at the door. *)
Definition maxPending : nat := 100.

Definition queued (index : nat) (lock : LockOutcome) : LockOutcome :=
  if (maxPending <? index)%nat then Rejected TooManyPending else lock.

(** The rejection [Promise.all] passes on is the first in time.  The
    calls of its array are made in order and the lock serves them in
    order, so that is the first in the array, unless a later call found
    the queue full: that one is rejected at the moment of the call. *)
Definition rejectedAtOnce (error : JsError) : bool :=
  match error with
  | LockError _ TooManyPending => true
  | _ => false
  end.

Definition earlier (first second : JsError) : JsError :=
  if rejectedAtOnce second && negb (rejectedAtOnce first)
  then second else first.

(* ------------------------------------------------------------------ *)
(** ** The content source *)

(** One page of a block-children listing. *)
Record RetrieveBlockChildrenResponse : Type := mkChildrenResponse {
  results : list responses.BlockObject;
  has_more : bool;
  next_cursor : option string }.

(** The content source as seen during one build: the snapshot directory
    [tmp/<id>.json] ([None] when the file does not exist) and the two
    block endpoints of the remote API.  The document is taken not to
    change while it is read, so the endpoints are functions of their
    parameters. *)
Record ContentSource : Type := mkContentSource {
  snapshot : string -> option (list responses.BlockObject);
  blocks_children_list :
    string -> option string -> JsError + RetrieveBlockChildrenResponse;
  blocks_retrieve : string -> JsError + responses.BlockObject }.

Section Assembler.

Variable src : ContentSource.

(** The [while (true)] loop that accumulates the pages of a listing;
    [fuel] bounds the number of pages read. *)
Fixpoint listPages (fuel : nat) (block_id : string)
         (start_cursor : option string)
         (acc : list responses.BlockObject)
  : Res (list responses.BlockObject) :=
  match fuel with
  | O => OutOfFuel
  | S f =>
      res <- retry numberOfRetry
               (fun _ => blocks_children_list src block_id start_cursor) ;;
      let acc' := acc ++ results res in
      if negb (has_more res) then Ok acc'
      else listPages f block_id (next_cursor res) acc'
  end.

(** The prologue shared by [getAllBlocksByBlockId], [_getTableRows] and
    [_getColumns]: the snapshot when there is one, the paginated listing
    otherwise. *)
Definition listChildren (fuel : nat) (blockId : string)
  : Res (list responses.BlockObject) :=
  match snapshot src blockId with
  | Some parsed => Ok parsed
  | None => listPages fuel blockId None []
  end.

(** [getBlock] *)
Definition getBlock (blockId : string) : Res Block :=
  res <- retry numberOfRetry (fun _ => blocks_retrieve src blockId) ;;
  _buildBlock res.

(** The row built from one listed object in [_getTableRows]. *)
Definition buildTableRow (blockObject : responses.BlockObject) : TableRow :=
  let cells :=
    match (responses.type blockObject =? "table_row")%string,
          responses.member blockObject with
    | true, Some (responses.m_table_row cells) =>
        map (fun cell => {| CellRichTexts := map _buildRichText cell |}) cells
    | _, _ => []
    end in
  {| RowId := responses.id blockObject;
     RowType := responses.type blockObject;
     RowHasChildren := responses.has_children blockObject;
     Cells := cells |}.

(** [_getTableRows] *)
Definition _getTableRows (fuel : nat) (blockId : string)
  : Res (list TableRow) :=
  rs <- listChildren fuel blockId ;;
  Ok (map buildTableRow rs).

(** The bodies below take the recursive call [getAllBlocksByBlockId] as
    the parameter [self]. *)
Section Bodies.

Variable self : string -> Res (list Block).

(** [_getColumns].  [Promise.all] over the mapped columns: every column
    must resolve.  With several failures [Promise.all] passes on the
    first in time, which the network decides; the model reports the first
    in list order, so that only the fact of a failure is meant here, not
    which one. *)
Definition _getColumns_body (fuel : nat) (blockId : string)
  : Res (list (Column Block)) :=
  rs <- listChildren fuel blockId ;;
  mapM (fun blockObject =>
          children <- self (responses.id blockObject) ;;
          Ok {| ColId := responses.id blockObject;
                ColType := responses.type blockObject;
                ColHasChildren := responses.has_children blockObject;
                ColChildren := children |})
       rs.

(** [_getSyncedBlockChildren]: the [try] covers [getBlock] only. *)
Definition _getSyncedBlockChildren_body (block : Block) : Res (list Block) :=
  match payload block with
  | PSyncedBlock (Some BlockId) _ =>
      if truthy_string BlockId then
        match getBlock BlockId with
        | Ok originalBlock => self (Id originalBlock)
        | Throw _ => Ok []
        | OutOfFuel => OutOfFuel
        end
      else self (Id block)
  | _ => self (Id block)
  end.

(** The body of the [for] loop of [getAllBlocksByBlockId]: the chain of
    [if ... else if ...] on one block.  Each branch is [Some] of what it
    does when its condition holds; the assignment to the child slot is
    written as a rebuilt block.  [orElse] moves on to the next branch. *)
Definition fillChildren (fuel : nat) (block : Block) : Res Block :=
  let '(mkBlock id hc ty p) := block in
  orElse
    match (ty =? "table")%string, p with
    | true, PTable w ch rh _ =>
        Some (rows <- _getTableRows fuel id ;;
              Ok (mkBlock id hc ty (PTable w ch rh rows)))
    | _, _ => None
    end (
  orElse
    match (ty =? "column_list")%string, p with
    | true, PColumnList _ =>
        Some (cols <- _getColumns_body fuel id ;;
              Ok (mkBlock id hc ty (PColumnList cols)))
    | _, _ => None
    end (
  orElse
    match (ty =? "bulleted_list_item")%string, p, hc with
    | true, PBulletedListItem rt c _, true =>
        Some (cs <- self id ;;
              Ok (mkBlock id hc ty (PBulletedListItem rt c (Some cs))))
    | _, _, _ => None
    end (
  orElse
    match (ty =? "numbered_list_item")%string, p, hc with
    | true, PNumberedListItem rt c _, true =>
        Some (cs <- self id ;;
              Ok (mkBlock id hc ty (PNumberedListItem rt c (Some cs))))
    | _, _, _ => None
    end (
  orElse
    match (ty =? "to_do")%string, p, hc with
    | true, PToDo rt ck c _, true =>
        Some (cs <- self id ;;
              Ok (mkBlock id hc ty (PToDo rt ck c (Some cs))))
    | _, _, _ => None
    end (
  orElse
    match (ty =? "synced_block")%string, p with
    | true, PSyncedBlock sf _ =>
        Some (cs <- _getSyncedBlockChildren_body block ;;
              Ok (mkBlock id hc ty (PSyncedBlock sf (Some cs))))
    | _, _ => None
    end (
  orElse
    match (ty =? "toggle")%string, p with
    | true, PToggle rt c _ =>
        Some (cs <- self id ;; Ok (mkBlock id hc ty (PToggle rt c cs)))
    | _, _ => None
    end (
  orElse
    match (ty =? "paragraph")%string, p, hc with
    | true, PParagraph rt c _, true =>
        Some (cs <- self id ;;
              Ok (mkBlock id hc ty (PParagraph rt c (Some cs))))
    | _, _, _ => None
    end (
  orElse
    match (ty =? "heading_1")%string, p, hc with
    | true, PHeading1 rt c tg _, true =>
        Some (cs <- self id ;;
              Ok (mkBlock id hc ty (PHeading1 rt c tg (Some cs))))
    | _, _, _ => None
    end (
  orElse
    match (ty =? "heading_2")%string, p, hc with
    | true, PHeading2 rt c tg _, true =>
        Some (cs <- self id ;;
              Ok (mkBlock id hc ty (PHeading2 rt c tg (Some cs))))
    | _, _, _ => None
    end (
  orElse
    match (ty =? "heading_3")%string, p, hc with
    | true, PHeading3 rt c tg _, true =>
        Some (cs <- self id ;;
              Ok (mkBlock id hc ty (PHeading3 rt c tg (Some cs))))
    | _, _, _ => None
    end (
  orElse
    match (ty =? "quote")%string, p, hc with
    | true, PQuote rt c _, true =>
        Some (cs <- self id ;;
              Ok (mkBlock id hc ty (PQuote rt c (Some cs))))
    | _, _, _ => None
    end (
  orElse
    match (ty =? "callout")%string, p, hc with
    | true, PCallout rt ic c _, true =>
        Some (cs <- self id ;;
              Ok (mkBlock id hc ty (PCallout rt ic c (Some cs))))
    | _, _, _ => None
    end
    (Ok block))))))))))))).

End Bodies.

(** [getAllBlocksByBlockId]; [fuel] bounds the nesting depth followed
    (and the pages read per listing). *)
Fixpoint getAllBlocksByBlockId (fuel : nat) (blockId : string)
  : Res (list Block) :=
  match fuel with
  | O => OutOfFuel
  | S f =>
      rs <- listChildren f blockId ;;
      allBlocks <- mapM _buildBlock rs ;;
      mapM (fillChildren (getAllBlocksByBlockId f) f) allBlocks
  end.

Definition _getColumns (fuel : nat) : string -> Res (list (Column Block)) :=
  _getColumns_body (getAllBlocksByBlockId fuel) fuel.

Definition _getSyncedBlockChildren (fuel : nat) : Block -> Res (list Block) :=
  _getSyncedBlockChildren_body (getAllBlocksByBlockId fuel).

End Assembler.

(* ------------------------------------------------------------------ *)
(** ** Arrays and numbers of JavaScript *)

(** [xs.slice(start, end)] for integer arguments: a negative index
    counts from the end, and both are clamped to the array. *)
Definition js_slice {A : Type} (start end_ : Z) (xs : list A) : list A :=
  let len := Z.of_nat (List.length xs) in
  let clamp i := if i <? 0 then Z.max (len + i) 0 else Z.min i len in
  let k := clamp start in
  let final := clamp end_ in
  firstn (Z.to_nat (final - k)) (skipn (Z.to_nat k) xs).

(** [xs.sort(compareFn)].  The language requires the sort to be stable;
    for a consistent comparator the stable sort is unique, and it is
    written here as an insertion sort: an element goes in front of the
    first element it does not compare greater than. *)
Section Sort.

Variables (A : Type) (compareFn : A -> A -> Z).

Fixpoint sort_insert (x : A) (sorted : list A) : list A :=
  match sorted with
  | [] => [x]
  | y :: rest =>
      if compareFn x y <=? 0 then x :: y :: rest
      else y :: sort_insert x rest
  end.

Fixpoint js_sort (xs : list A) : list A :=
  match xs with
  | [] => []
  | x :: rest => sort_insert x (js_sort rest)
  end.

End Sort.

(** The numbers [getNumberOfPages] can produce: a division by zero gives
    [Infinity] or [NaN] rather than an integer. *)
Inductive JsNumber : Type :=
| Finite (z : Z)
| Infinity
| NaN.

(** [Math.floor(len / n)] for an array length [len]. *)
Definition floor_div (len : nat) (n : Z) : JsNumber :=
  if n =? 0 then (if Nat.eqb len 0 then NaN else Infinity)
  else Finite (Z.of_nat len / n).

(** [len % n > 0 ? 1 : 0]; the remainder takes the sign of [len], and
    [len % 0] is [NaN], which is not greater than [0]. *)
Definition remainder_positive (len : nat) (n : Z) : Z :=
  if n =? 0 then 0
  else if Z.rem (Z.of_nat len) n >? 0 then 1 else 0.

Definition js_add (a : JsNumber) (b : Z) : JsNumber :=
  match a with
  | Finite z => Finite (z + b)
  | Infinity => Infinity
  | NaN => NaN
  end.

(* ------------------------------------------------------------------ *)
(** ** Pages and posts *)

Inductive LanguageKey : Type := ja | en.

Definition LANGUAGE_KEYS : list LanguageKey := [ja; en].

Definition LanguageKey_eqb (a b : LanguageKey) : bool :=
  match a, b with
  | ja, ja | en, en => true
  | _, _ => false
  end.

Record SelectProperty : Type := mkSelectProperty {
  sel_id : string; name : string; sel_color : string }.

(** Modelled from the spec: the page objects of [./responses], missing
    like the block objects above. *)
Module pages.

Record DateProperty : Type := mkDateProperty { start : string }.

Record FileObject : Type := mkFileObject {
  fo_type : string;
  fo_external : option string;
  fo_file : option responses.FileRef }.

(** A page property: which members are present depends on the kind of
    the property. *)
Record PageProperty : Type := mkPageProperty {
  title : option (list responses.RichTextObject);
  rich_text : option (list responses.RichTextObject);
  number : option Z;
  multi_select : option (list SelectProperty);
  date : option DateProperty;
  checkbox : option bool;
  files : option (list FileObject) }.

(** The properties [_validPageObject] and [_buildPost] read. *)
Record Properties : Type := mkProperties {
  Page : PageProperty;
  Slug : PageProperty;
  Date : PageProperty;
  Tags : PageProperty;
  Excerpt : PageProperty;
  FeaturedImage : PageProperty;
  Rank : PageProperty;
  Meta : PageProperty }.

Record Cover : Type := mkCover {
  cover_type : string;
  cover_external : option string }.

Record PageObject : Type := mkPageObject {
  id : string;
  icon : option responses.Icon;
  cover : option Cover;
  properties : Properties }.

End pages.

Record FeaturedImageT : Type := mkFeaturedImage {
  FiType : string; FiUrl : string; FiExpiryTime : option string }.

Record Post : Type := mkPost {
  PageId : string;
  Title : string;
  PostIcon : option IconT;
  PostCover : option (string * string);
  Slug : string;
  Date : string;
  Tags : list SelectProperty;
  Excerpt : string;
  FeaturedImage : option FeaturedImageT;
  Rank : Z;
  Meta : bool }.

(** [!!xs && xs.length > 0] *)
Definition present_nonempty {A : Type} (xs : option (list A)) : bool :=
  match xs with
  | Some (_ :: _) => true
  | _ => false
  end.

(** [!!x] for a member that is an object when present. *)
Definition present {A : Type} (x : option A) : bool :=
  match x with
  | Some _ => true
  | None => false
  end.

(** [!!prop.Meta]: the property object itself, which is truthy whatever
    its checkbox says. *)
Definition truthy_property (_ : pages.PageProperty) : bool := true.

(** [_validPageObject] *)
Definition _validPageObject (pageObject : pages.PageObject) : bool :=
  let prop := pages.properties pageObject in
  present_nonempty (pages.title (pages.Page prop)) &&
  present_nonempty (pages.rich_text (pages.Slug prop)) &&
  (present (pages.date (pages.Date prop)) || truthy_property (pages.Meta prop)).

(** [richTexts.map((richText) => richText.plain_text).join('')] *)
Definition plain (richTexts : list responses.RichTextObject) : string :=
  join (map responses.plain_text richTexts).

(** [_buildPost] *)
Definition _buildPost (pageObject : pages.PageObject) : Res Post :=
  let prop := pages.properties pageObject in
  let icon :=
    match pages.icon pageObject with
    | None => None
    | Some i =>
      let ty := responses.icon_type i in
      match (ty =? "emoji")%string, responses.emoji i with
      | true, Some e => Some (IconEmoji ty e)
      | _, _ =>
        match (ty =? "external")%string, responses.external i with
        | true, Some u => Some (IconUrl ty (or_empty u))
        | _, _ => None
        end
      end
    end in
  cover <-
    match pages.cover pageObject with
    | None => Ok None
    | Some c =>
        if (pages.cover_type c =? "external")%string then
          match pages.cover_external c with
          | Some u => Ok (Some (pages.cover_type c, or_empty u))
          | None => Throw TypeError
          end
        else Ok (Some (pages.cover_type c, ""))
    end ;;
  featuredImage <-
    match pages.files (pages.FeaturedImage prop) with
    | Some (f0 :: _) =>
        if (pages.fo_type f0 =? "external")%string then
          match pages.fo_external f0 with
          | Some u =>
              Ok (Some {| FiType := "external"; FiUrl := u;
                          FiExpiryTime := None |})
          | None => Throw TypeError
          end
        else
          match pages.fo_file f0 with
          | Some f =>
              Ok (Some {| FiType := "file";
                          FiUrl := responses.file_url f;
                          FiExpiryTime := Some (responses.expiry_time f) |})
          | None => Ok None
          end
    | _ => Ok None
    end ;;
  Ok {| PageId := pages.id pageObject;
        Title := match pages.title (pages.Page prop) with
                 | Some t => plain t
                 | None => ""
                 end;
        PostIcon := icon;
        PostCover := cover;
        Slug := match pages.rich_text (pages.Slug prop) with
                | Some t => plain t
                | None => ""
                end;
        Date := match pages.date (pages.Date prop) with
                | Some d => pages.start d
                | None => ""
                end;
        Tags := match pages.multi_select (pages.Tags prop) with
                | Some ts => ts
                | None => []
                end;
        Excerpt := match pages.rich_text (pages.Excerpt prop) with
                   | Some (r :: rs) => plain (r :: rs)
                   | _ => ""
                   end;
        FeaturedImage := featuredImage;
        Rank := match pages.number (pages.Rank prop) with
                | Some n => if n =? 0 then 0 else n
                | None => 0
                end;
        Meta := match pages.checkbox (pages.Meta prop) with
                | Some true => true
                | _ => false
                end |}.

(* ------------------------------------------------------------------ *)
(** ** The post cache and the accessors derived from it *)

(** The part of the query parameters that varies: the language of the
    filter and the cursor.  (The database id, the sort and the page size
    are constants; the timestamp of the date filter belongs to the state
    of the remote side.) *)
Record QueryDatabase : Type := mkQueryDatabase {
  q_lang : LanguageKey;
  q_start_cursor : option string }.

Record QueryDatabaseResponse : Type := mkQueryResponse {
  q_results : list pages.PageObject;
  q_has_more : bool;
  q_next_cursor : option string }.

Record PostsAndMeta : Type := mkPostsAndMeta {
  posts : list Post;
  titleMeta : option Post }.

(** The tail of [fetchPostsAndMeta]: from the accumulated page objects to
    the posts and the title record. *)
Definition selectPosts (SLUG_META_TITLE : string)
           (results : list pages.PageObject) : Res PostsAndMeta :=
  allPosts <- mapM _buildPost (filter _validPageObject results) ;;
  Ok {| posts := filter (fun p => negb (Meta p)) allPosts;
        titleMeta :=
          find (fun p => Meta p && (Slug p =? SLUG_META_TITLE)%string)
               allPosts |}.

Section PostCache.

(** The remote database: an unknown state and the query endpoint, whose
    answer may change from one call to the next. *)
Variable Remote : Type.
Variable databases_query :
  Remote -> QueryDatabase -> (JsError + QueryDatabaseResponse) * Remote.

(** Constants of [content-constants] and [server-constants] that are not
    part of the sources at hand. *)
Variable SLUG_META_TITLE : string.
Variable NUMBER_OF_POSTS_PER_PAGE : Z.

(** [String.prototype.localeCompare], a collation fixed by the host. *)
Variable localeCompare : string -> string -> Z.

(** The module state: [postsCacheByLang], the remote side, and a trace of
    the invocations of [fetchPostsAndMeta] (a ghost field: nothing reads
    it). *)
Record World : Type := mkWorld {
  postsCacheByLang : LanguageKey -> option PostsAndMeta;
  remote : Remote;
  fetched : list LanguageKey }.

Definition M (A : Type) : Type := World -> Res A * World.

Definition ret {A : Type} (a : A) : M A := fun w => (Ok a, w).

Definition bindM {A B : Type} (m : M A) (k : A -> M B) : M B :=
  fun w =>
    match m w with
    | (Ok a, w') => k a w'
    | (Throw e, w') => (Throw e, w')
    | (OutOfFuel, w') => (OutOfFuel, w')
    end.

Notation "x <~ m ;; k" := (bindM m (fun x => k))
  (at level 61, m at next level, right associativity).

Definition lift {A : Type} (r : Res A) : M A := fun w => (r, w).

(** [postsCacheByLang.set(lang, entry)] *)
Definition cache_set (lang : LanguageKey) (entry : PostsAndMeta) : M unit :=
  fun w =>
    (Ok tt,
     {| postsCacheByLang :=
          fun l => if LanguageKey_eqb l lang then Some entry
                   else postsCacheByLang w l;
        remote := remote w;
        fetched := fetched w |}).

(** One call of [client.databases.query(params)]. *)
Definition query_once (params : QueryDatabase)
  : World -> (JsError + QueryDatabaseResponse) * World :=
  fun w =>
    let (answer, r') := databases_query (remote w) params in
    (answer,
     {| postsCacheByLang := postsCacheByLang w;
        remote := r';
        fetched := fetched w |}).

(** [retry] over the stateful endpoint: every attempt is a new call. *)
Definition retryM (retries : nat) (params : QueryDatabase)
  : M QueryDatabaseResponse :=
  retryS retries (query_once params).

(** The [while (true)] loop of [fetchPostsAndMeta]. *)
Fixpoint queryPages (fuel : nat) (params : QueryDatabase)
         (acc : list pages.PageObject) : M (list pages.PageObject) :=
  match fuel with
  | O => lift OutOfFuel
  | S f =>
      res <~ retryM numberOfRetry params ;;
      let acc' := acc ++ q_results res in
      if negb (q_has_more res) then ret acc'
      else queryPages f
             {| q_lang := q_lang params;
                q_start_cursor := q_next_cursor res |} acc'
  end.

(** The ghost step that records an invocation of [fetchPostsAndMeta]. *)
Definition record_fetch (lang : LanguageKey) : M unit :=
  fun w =>
    (Ok tt,
     {| postsCacheByLang := postsCacheByLang w;
        remote := remote w;
        fetched := fetched w ++ [lang] |}).

(** [fetchPostsAndMeta] *)
Definition fetchPostsAndMeta (fuel : nat) (lang : LanguageKey)
  : M PostsAndMeta :=
  _ <~ record_fetch lang ;;
  rs <~ queryPages fuel {| q_lang := lang; q_start_cursor := None |} [] ;;
  lift (selectPosts SLUG_META_TITLE rs).

(** [getAllPostsCore] *)
Definition getAllPostsCore (fuel : nat) (lang : LanguageKey) : M (list Post) :=
  fun w =>
    match postsCacheByLang w lang with
    | Some cache => ret (posts cache) w
    | None =>
        (postsAndMeta <~ fetchPostsAndMeta fuel lang ;;
         _ <~ cache_set lang postsAndMeta ;;
         ret (posts postsAndMeta)) w
    end.

(** [getTitleMetaCore] *)
Definition getTitleMetaCore (fuel : nat) (lang : LanguageKey)
  : M (option Post) :=
  fun w =>
    match postsCacheByLang w lang with
    | Some cache => ret (titleMeta cache) w
    | None =>
        (postsAndMeta <~ fetchPostsAndMeta fuel lang ;;
         _ <~ cache_set lang postsAndMeta ;;
         ret (titleMeta postsAndMeta)) w
    end.

(** [getAllPosts]; [lock] is what the lock does with this call. *)
Definition getAllPosts (lock : LockOutcome) (fuel : nat) (lang : LanguageKey)
  : M (list Post) :=
  acquire ASYNC_LOCK_POSTS lock (getAllPostsCore fuel lang).

(** [getTitleMeta] *)
Definition getTitleMeta (lock : LockOutcome) (fuel : nat) (lang : LanguageKey)
  : M (option Post) :=
  acquire ASYNC_LOCK_POSTS lock (getTitleMetaCore fuel lang).

(** [getAllPostsOfAllLanguagesCore]: the [for] loop over the languages. *)
Fixpoint allLanguagesLoop (fuel : nat) (langs : list LanguageKey)
         (acc : list Post) : M (list Post) :=
  match langs with
  | [] => ret acc
  | lang :: rest =>
      ps <~ getAllPostsCore fuel lang ;;
      allLanguagesLoop fuel rest (acc ++ ps)
  end.

(** [getAllPostsOfAllLanguages] *)
Definition getAllPostsOfAllLanguages (lock : LockOutcome) (fuel : nat)
  : M (list Post) :=
  acquire ASYNC_LOCK_POSTS lock (allLanguagesLoop fuel LANGUAGE_KEYS []).

(** The comparator of [getRankedPosts]. *)
Definition compareRank (a b : Post) : Z :=
  if Rank a >? Rank b then -1
  else if Rank a =? Rank b then 0
  else 1.

(** [!!post.Rank] *)
Definition truthy_number (n : Z) : bool := negb (n =? 0).

(** What [getRankedPosts] makes of the cached list. *)
Definition rankedOf (allPosts : list Post) (pageSize : Z) : list Post :=
  js_slice 0 pageSize
    (js_sort compareRank
       (filter (fun post => truthy_number (Rank post)) allPosts)).

(** [getRankedPosts] *)
Definition getRankedPosts (lock : LockOutcome) (fuel : nat)
           (lang : LanguageKey) (pageSize : Z)
  : M (list Post) :=
  allPosts <~ getAllPosts lock fuel lang ;;
  ret (rankedOf allPosts pageSize).

(** What [getNumberOfPages] makes of the cached list. *)
Definition numberOfPagesOf (allPosts : list Post) : JsNumber :=
  js_add (floor_div (List.length allPosts) NUMBER_OF_POSTS_PER_PAGE)
         (remainder_positive (List.length allPosts) NUMBER_OF_POSTS_PER_PAGE).

(** [getNumberOfPages] *)
Definition getNumberOfPages (lock : LockOutcome) (fuel : nat)
           (lang : LanguageKey) : M JsNumber :=
  allPosts <~ getAllPosts lock fuel lang ;;
  ret (numberOfPagesOf allPosts).

(** The callback of the [reduce] in [getAllTags]; the accumulator is
    paired with the closed-over [tagNames]. *)
Definition collectTag (state : list SelectProperty * list string)
           (tag : SelectProperty) : list SelectProperty * list string :=
  let (acc, tagNames) := state in
  if negb (existsb (String.eqb (name tag)) tagNames)
  then (acc ++ [tag], tagNames ++ [name tag])
  else (acc, tagNames).

(** What [getAllTags] makes of the cached list. *)
Definition tagsOf (allPosts : list Post) : list SelectProperty :=
  js_sort (fun a b => localeCompare (name a) (name b))
    (fst (fold_left collectTag (flat_map Tags allPosts) ([], []))).

(** [getAllTags] *)
Definition getAllTags (lock : LockOutcome) (fuel : nat)
           (lang : LanguageKey)
  : M (list SelectProperty) :=
  allPosts <~ getAllPosts lock fuel lang ;;
  ret (tagsOf allPosts).

(** [getPosts] *)
Definition getPosts (lock : LockOutcome) (fuel : nat)
           (lang : LanguageKey) (pageSize : Z)
  : M (list Post) :=
  allPosts <~ getAllPosts lock fuel lang ;;
  ret (js_slice 0 pageSize allPosts).

(** [getPostBySlug]; [None] is [null]. *)
Definition getPostBySlug (lock : LockOutcome) (fuel : nat)
           (lang : LanguageKey) (slug : string)
  : M (option Post) :=
  allPosts <~ getAllPosts lock fuel lang ;;
  ret (find (fun post => (Slug post =? slug)%string) allPosts).

(** [getPostByPageId] *)
Definition getPostByPageId (lock : LockOutcome) (fuel : nat)
           (lang : LanguageKey) (pageId : string)
  : M (option Post) :=
  allPosts <~ getAllPosts lock fuel lang ;;
  ret (find (fun post => (PageId post =? pageId)%string) allPosts).

(** [post.Tags.find((tag) => tag.name === tagName)] as a condition. *)
Definition hasTag (tagName : string) (post : Post) : bool :=
  existsb (fun tag => (name tag =? tagName)%string) (Tags post).

(** [getPostsByTag] *)
Definition getPostsByTag (lock : LockOutcome) (fuel : nat)
           (lang : LanguageKey) (tagName : string)
           (pageSize : Z) : M (list Post) :=
  if negb (truthy_string tagName) then ret []
  else
    allPosts <~ getAllPosts lock fuel lang ;;
    ret (js_slice 0 pageSize (filter (hasTag tagName) allPosts)).

(** The page [page] of a list, pages counted from 1. *)
Definition pageOf (page : Z) (ps : list Post) : list Post :=
  let startIndex := (page - 1) * NUMBER_OF_POSTS_PER_PAGE in
  let endIndex := startIndex + NUMBER_OF_POSTS_PER_PAGE in
  js_slice startIndex endIndex ps.

(** [getPostsByPage] *)
Definition getPostsByPage (lock : LockOutcome) (fuel : nat)
           (lang : LanguageKey) (page : Z)
  : M (list Post) :=
  if page <? 1 then ret []
  else
    allPosts <~ getAllPosts lock fuel lang ;;
    ret (pageOf page allPosts).

(** [getPostsByTagAndPage] *)
Definition getPostsByTagAndPage (lock : LockOutcome) (fuel : nat)
           (lang : LanguageKey)
           (tagName : string) (page : Z) : M (list Post) :=
  if page <? 1 then ret []
  else
    allPosts <~ getAllPosts lock fuel lang ;;
    ret (pageOf page (filter (hasTag tagName) allPosts)).

(** [getNumberOfPagesByTag] *)
Definition getNumberOfPagesByTag (lock : LockOutcome) (fuel : nat)
           (lang : LanguageKey)
           (tagName : string) : M JsNumber :=
  allPosts <~ getAllPosts lock fuel lang ;;
  ret (numberOfPagesOf (filter (hasTag tagName) allPosts)).

(** The calls through which the rest of the site reaches the post cache:
    the exported accessors, and [getTitleMeta], through which
    [getSiteMeta] reaches it. *)
Inductive Call : Type :=
| CallGetAllPostsOfAllLanguages
| CallGetAllPosts (lang : LanguageKey)
| CallGetTitleMeta (lang : LanguageKey)
| CallGetPosts (lang : LanguageKey) (pageSize : Z)
| CallGetRankedPosts (lang : LanguageKey) (pageSize : Z)
| CallGetPostBySlug (lang : LanguageKey) (slug : string)
| CallGetPostByPageId (lang : LanguageKey) (pageId : string)
| CallGetPostsByTag (lang : LanguageKey) (tagName : string) (pageSize : Z)
| CallGetPostsByPage (lang : LanguageKey) (page : Z)
| CallGetPostsByTagAndPage (lang : LanguageKey) (tagName : string) (page : Z)
| CallGetNumberOfPages (lang : LanguageKey)
| CallGetNumberOfPagesByTag (lang : LanguageKey) (tagName : string)
| CallGetAllTags (lang : LanguageKey).

(** The world after one call, whatever it returned or threw; [lock] is
    what the lock does with the call. *)
Definition after (lock : LockOutcome) (fuel : nat) (c : Call) (w : World)
  : World :=
  match c with
  | CallGetAllPostsOfAllLanguages =>
      snd (getAllPostsOfAllLanguages lock fuel w)
  | CallGetAllPosts lang => snd (getAllPosts lock fuel lang w)
  | CallGetTitleMeta lang => snd (getTitleMeta lock fuel lang w)
  | CallGetPosts lang pageSize => snd (getPosts lock fuel lang pageSize w)
  | CallGetRankedPosts lang pageSize =>
      snd (getRankedPosts lock fuel lang pageSize w)
  | CallGetPostBySlug lang slug => snd (getPostBySlug lock fuel lang slug w)
  | CallGetPostByPageId lang pageId =>
      snd (getPostByPageId lock fuel lang pageId w)
  | CallGetPostsByTag lang tagName pageSize =>
      snd (getPostsByTag lock fuel lang tagName pageSize w)
  | CallGetPostsByPage lang page => snd (getPostsByPage lock fuel lang page w)
  | CallGetPostsByTagAndPage lang tagName page =>
      snd (getPostsByTagAndPage lock fuel lang tagName page w)
  | CallGetNumberOfPages lang => snd (getNumberOfPages lock fuel lang w)
  | CallGetNumberOfPagesByTag lang tagName =>
      snd (getNumberOfPagesByTag lock fuel lang tagName w)
  | CallGetAllTags lang => snd (getAllTags lock fuel lang w)
  end.

(** The world after a sequence of calls, each with the way the lock
    deals with it and with its own fuel. *)
Definition afterAll (calls : list (LockOutcome * nat * Call)) (w : World)
  : World :=
  fold_left (fun w' c => after (fst (fst c)) (snd (fst c)) (snd c) w')
            calls w.

End PostCache.

(* ------------------------------------------------------------------ *)
(** ** The list-grouping pass of [NotionBlocks.astro] *)

Module NotionBlocks.

(** The three synthetic list kinds. *)
Inductive ListKind : Type := bulleted_list | numbered_list | to_do_list.

Definition ListKind_tag (k : ListKind) : string :=
  match k with
  | bulleted_list => "bulleted_list"
  | numbered_list => "numbered_list"
  | to_do_list => "to_do_list"
  end.

Record List : Type := mkList {
  ListType : ListKind;
  ListItems : list Block }.

(** An element of [Array<Block | List>]. *)
Inductive Node : Type :=
| NBlock (b : Block)
| NList (l : List).

(** [node.Type] *)
Definition nodeType (n : Node) : string :=
  match n with
  | NBlock b => BlockType b
  | NList l => ListKind_tag (ListType l)
  end.

(** [arr[arr.length - 1]], [undefined] on the empty array. *)
Definition lastOf (arr : list Node) : option Node :=
  nth_error arr (List.length arr - 1)%nat.

(** The effect on [arr] of [prevList.ListItems.push(block)], [prevList]
    being the last element of [arr]. *)
Definition pushInto (arr : list Node) (prevList : List) (block : Block)
  : list Node :=
  firstn (List.length arr - 1)%nat arr ++
  [NList {| ListType := ListType prevList;
            ListItems := ListItems prevList ++ [block] |}].

(** One of the three [if (block.Type === '<item>')] bodies.  When the
    previous element carries the list tag but is not a List object,
    [prevList.ListItems] is undefined and [push] throws. *)
Definition groupItem (kind : ListKind) (arr : list Node)
           (prevList : option Node) (block : Block) : Res (list Node) :=
  match prevList with
  | Some prev =>
      if (nodeType prev =? ListKind_tag kind)%string then
        match prev with
        | NList l => Ok (pushInto arr l block)
        | NBlock _ => Throw TypeError
        end
      else Ok (arr ++ [NList {| ListType := kind; ListItems := [block] |}])
  | None => Ok (arr ++ [NList {| ListType := kind; ListItems := [block] |}])
  end.

(** The callback of the [reduce].  A List object met as an input element
    carries none of the three item tags, so it takes the last [return]. *)
Definition step (arr : list Node) (block : Node) (i : nat) : Res (list Node) :=
  let prevList := if Nat.eqb i 0 then None else lastOf arr in
  match block with
  | NBlock b =>
      if (BlockType b =? "bulleted_list_item")%string then
        groupItem bulleted_list arr prevList b
      else if (BlockType b =? "numbered_list_item")%string then
        groupItem numbered_list arr prevList b
      else if (BlockType b =? "to_do")%string then
        groupItem to_do_list arr prevList b
      else Ok (arr ++ [block])
  | NList _ => Ok (arr ++ [block])
  end.

(** [rawBlocks.reduce(callback, [])], from index [i] on. *)
Fixpoint reduceFrom (i : nat) (arr : list Node) (rawBlocks : list Node)
  : Res (list Node) :=
  match rawBlocks with
  | [] => Ok arr
  | block :: rest => arr' <- step arr block i ;; reduceFrom (S i) arr' rest
  end.

(** The constant [blocks] of the component. *)
Definition blocks (rawBlocks : list Node) : Res (list Node) :=
  reduceFrom 0 [] rawBlocks.

(** The list kind a block is grouped under, if any. *)
Definition itemKind (b : Block) : option ListKind :=
  if (BlockType b =? "bulleted_list_item")%string then Some bulleted_list
  else if (BlockType b =? "numbered_list_item")%string then Some numbered_list
  else if (BlockType b =? "to_do")%string then Some to_do_list
  else None.

(** The blocks a node stands for, in order. *)
Definition blocksOf (n : Node) : list Block :=
  match n with
  | NBlock b => [b]
  | NList l => ListItems l
  end.

End NotionBlocks.

(* ------------------------------------------------------------------ *)
(** ** Vocabulary of the properties *)

(** A computation that settled: it returned or threw within its fuel. *)
Definition settled {A : Type} (r : Res A) : Prop := r <> OutOfFuel.

(** The kinds whose branch in [getAllBlocksByBlockId] tests [HasChildren]. *)
Definition flag_gated_kinds : list string :=
  [ "paragraph"; "heading_1"; "heading_2"; "heading_3";
    "bulleted_list_item"; "numbered_list_item"; "to_do"; "quote";
    "callout" ]%string.

(** The kinds whose branch does not. *)
Definition always_expanded_kinds : list string :=
  [ "table"; "column_list"; "synced_block"; "toggle" ]%string.

(** The [Children] member of a block, when its kind has one and it is set. *)
Definition childSlot (b : Block) : option (list Block) :=
  match payload b with
  | PParagraph _ _ c | PHeading1 _ _ _ c | PHeading2 _ _ _ c
  | PHeading3 _ _ _ c | PBulletedListItem _ _ c | PNumberedListItem _ _ c
  | PToDo _ _ _ c | PQuote _ _ c | PCallout _ _ _ c | PSyncedBlock _ c => c
  | PToggle _ _ c => Some c
  | _ => None
  end.

(** The [Rows] member of a table block. *)
Definition rowsSlot (b : Block) : option (list TableRow) :=
  match payload b with
  | PTable _ _ _ rows => Some rows
  | _ => None
  end.

(** The [Columns] member of a column-list block. *)
Definition columnsSlot (b : Block) : option (list (Column Block)) :=
  match payload b with
  | PColumnList cols => Some cols
  | _ => None
  end.

(** A block with its [Children] member replaced, everything else kept. *)
Definition withChildren (b : Block) (cs : list Block) : Block :=
  let '(mkBlock id hc ty p) := b in
  mkBlock id hc ty
    match p with
    | PParagraph rt c _ => PParagraph rt c (Some cs)
    | PHeading1 rt c tg _ => PHeading1 rt c tg (Some cs)
    | PHeading2 rt c tg _ => PHeading2 rt c tg (Some cs)
    | PHeading3 rt c tg _ => PHeading3 rt c tg (Some cs)
    | PBulletedListItem rt c _ => PBulletedListItem rt c (Some cs)
    | PNumberedListItem rt c _ => PNumberedListItem rt c (Some cs)
    | PToDo rt ck c _ => PToDo rt ck c (Some cs)
    | PQuote rt c _ => PQuote rt c (Some cs)
    | PCallout rt ic c _ => PCallout rt ic c (Some cs)
    | PSyncedBlock sf _ => PSyncedBlock sf (Some cs)
    | PToggle rt c _ => PToggle rt c cs
    | other => other
    end.

(** A block with its [Rows] member replaced. *)
Definition withRows (b : Block) (rows : list TableRow) : Block :=
  let '(mkBlock id hc ty p) := b in
  mkBlock id hc ty
    match p with
    | PTable w ch rh _ => PTable w ch rh rows
    | other => other
    end.

(** A block with its [Columns] member replaced. *)
Definition withColumns (b : Block) (cols : list (Column Block)) : Block :=
  let '(mkBlock id hc ty p) := b in
  mkBlock id hc ty
    match p with
    | PColumnList _ => PColumnList cols
    | other => other
    end.

(** The member name a payload is stored under. *)
Definition payloadTag (p : Payload Block) : option string :=
  match p with
  | PParagraph _ _ _ => Some "paragraph"
  | PHeading1 _ _ _ _ => Some "heading_1"
  | PHeading2 _ _ _ _ => Some "heading_2"
  | PHeading3 _ _ _ _ => Some "heading_3"
  | PBulletedListItem _ _ _ => Some "bulleted_list_item"
  | PNumberedListItem _ _ _ => Some "numbered_list_item"
  | PToDo _ _ _ _ => Some "to_do"
  | PVideo _ _ _ => Some "video"
  | PImage _ _ _ _ => Some "image"
  | PFile _ _ _ _ => Some "file"
  | PCode _ _ _ => Some "code"
  | PQuote _ _ _ => Some "quote"
  | PEquation _ => Some "equation"
  | PCallout _ _ _ _ => Some "callout"
  | PSyncedBlock _ _ => Some "synced_block"
  | PToggle _ _ _ => Some "toggle"
  | PEmbed _ => Some "embed"
  | PBookmark _ => Some "bookmark"
  | PLinkPreview _ => Some "link_preview"
  | PTable _ _ _ _ => Some "table"
  | PColumnList _ => Some "column_list"
  | PTableOfContents _ => Some "table_of_contents"
  | PLinkToPage _ _ => Some "link_to_page"
  | PNone => None
  end%string.

(** The member of a block agrees with its type tag, and its child slots
    are as the normalizer leaves them: absent, or empty where the
    interface requires the member. *)
Definition freshlyBuilt (b : Block) : Prop :=
  match payloadTag (payload b) with
  | Some t => BlockType b = t
  | None => ~ In (BlockType b) handled_kinds
  end /\
  match payload b with
  | PToggle _ _ c => c = []
  | PTable _ _ _ rows => rows = []
  | PColumnList cols => cols = []
  | _ => childSlot b = None
  end.

(** How an assembled block [b] relates to the block [b0] the normalizer
    built, when children are assembled with [fuel] levels left. *)
Definition assembledFrom (src : ContentSource) (fuel : nat) (b0 b : Block)
  : Prop :=
  Id b = Id b0 /\ HasChildren b = HasChildren b0 /\
  BlockType b = BlockType b0 /\
  (In (BlockType b0) flag_gated_kinds -> HasChildren b0 = false ->
     b = b0 /\ childSlot b = None) /\
  (In (BlockType b0) flag_gated_kinds -> HasChildren b0 = true ->
     exists cs, getAllBlocksByBlockId src fuel (Id b0) = Ok cs /\
                b = withChildren b0 cs /\ childSlot b = Some cs) /\
  (BlockType b0 = "toggle"%string ->
     exists cs, getAllBlocksByBlockId src fuel (Id b0) = Ok cs /\
                b = withChildren b0 cs /\ childSlot b = Some cs) /\
  (BlockType b0 = "synced_block"%string ->
     exists cs, _getSyncedBlockChildren src fuel b0 = Ok cs /\
                b = withChildren b0 cs /\ childSlot b = Some cs) /\
  (BlockType b0 = "table"%string ->
     exists rows, _getTableRows src fuel (Id b0) = Ok rows /\
                  b = withRows b0 rows /\ rowsSlot b = Some rows) /\
  (BlockType b0 = "column_list"%string ->
     exists cols, _getColumns src fuel (Id b0) = Ok cols /\
                  b = withColumns b0 cols /\ columnsSlot b = Some cols) /\
  (~ In (BlockType b0) (flag_gated_kinds ++ always_expanded_kinds) ->
     b = b0 /\ childSlot b = None /\ rowsSlot b = None /\
     columnsSlot b = None).

(** Vocabulary of the grouping properties. *)
Module GroupingSpec.
Import NotionBlocks.

(** The tags of the three synthetic list kinds. *)
Definition list_tags : list string :=
  [ "bulleted_list"; "numbered_list"; "to_do_list" ]%string.

(** A block that is a list item of some kind. *)
Definition itemNode (n : Node) : bool :=
  match n with
  | NBlock b => match itemKind b with Some _ => true | None => false end
  | NList _ => false
  end.

(** An element of the output is either a block that is not a list item,
    or a List that is not empty and holds items of its own kind only. *)
Definition wellGrouped (n : Node) : Prop :=
  match n with
  | NBlock b => itemKind b = None
  | NList l =>
      ListItems l <> [] /\
      Forall (fun b => itemKind b = Some (ListType l)) (ListItems l)
  end.

(** Two Lists of the same kind. *)
Definition sameList (n1 n2 : Node) : Prop :=
  match n1, n2 with
  | NList l1, NList l2 => ListType l1 = ListType l2
  | _, _ => False
  end.

(** No two neighbours are Lists of the same kind: every List holds a
    whole run. *)
Fixpoint runsMaximal (out : list Node) : Prop :=
  match out with
  | n1 :: rest =>
      match rest with
      | n2 :: _ => ~ sameList n1 n2
      | [] => True
      end /\ runsMaximal rest
  | [] => True
  end.

(** A block met as a previous element does not pose as a List. *)
Definition plainNode (n : Node) : Prop :=
  match n with
  | NBlock b => ~ In (BlockType b) list_tags
  | NList _ => True
  end.

(** The invariant of the accumulator of the pass. *)
Definition grouped (arr : list Node) : Prop :=
  Forall wellGrouped arr /\ runsMaximal arr /\ Forall plainNode arr.

End GroupingSpec.

(* ------------------------------------------------------------------ *)
(** ** Sample content *)

Definition rawBlock (id type : string) (has_children : bool)
           (member : option responses.Member) : responses.BlockObject :=
  {| responses.id := id; responses.type := type;
     responses.has_children := has_children; responses.member := member |}.

(** A divider, as the API sends it. *)
Definition sampleDivider : responses.BlockObject :=
  rawBlock "d1" "divider" false None.

(** A toggle that reports no children, and the paragraph the listing of
    its id nevertheless returns. *)
Definition sampleToggle : responses.BlockObject :=
  rawBlock "t1" "toggle" false (Some (responses.m_toggle [] "default")).

Definition sampleParagraph (id : string) : responses.BlockObject :=
  rawBlock id "paragraph" false (Some (responses.m_paragraph [] "default")).

Definition onePage (rs : list responses.BlockObject)
  : JsError + RetrieveBlockChildrenResponse :=
  inr {| results := rs; has_more := false; next_cursor := None |}.

(** A page [root] holding a toggle, two synced blocks (one whose source
    resolves, one whose source is gone), a paragraph and a divider. *)
Definition sampleSource : ContentSource :=
  {| snapshot := fun _ => None;
     blocks_children_list := fun block_id _ =>
       if (block_id =? "root")%string then
         onePage [ sampleToggle;
                   rawBlock "s1" "synced_block" false
                            (Some (responses.m_synced_block (Some "orig")));
                   rawBlock "s2" "synced_block" false
                            (Some (responses.m_synced_block (Some "gone")));
                   sampleParagraph "p1";
                   sampleDivider ]
       else if (block_id =? "t1")%string then onePage [sampleParagraph "c1"]
       else if (block_id =? "orig")%string then onePage [sampleParagraph "o1"]
       else onePage [];
     blocks_retrieve := fun block_id =>
       if (block_id =? "orig")%string then
         inr (rawBlock "orig" "synced_block" true
                       (Some (responses.m_synced_block None)))
       else inl (APIResponseError (Some 404) "Not found") |}.

(** A source whose only page holds the toggle alone. *)
Definition toggleSource : ContentSource :=
  {| snapshot := fun _ => None;
     blocks_children_list := fun block_id _ =>
       if (block_id =? "root")%string then onePage [sampleToggle]
       else if (block_id =? "t1")%string then onePage [sampleParagraph "c1"]
       else onePage [];
     blocks_retrieve :=
       fun _ => inl (APIResponseError (Some 404) "Not found") |}.

(** The same page, with the listing under the toggle's id refused. *)
Definition rateLimitedSource : ContentSource :=
  {| snapshot := fun _ => None;
     blocks_children_list := fun block_id _ =>
       if (block_id =? "root")%string then onePage [sampleToggle]
       else inl (APIResponseError (Some 429) "Rate limited");
     blocks_retrieve :=
       fun _ => inl (APIResponseError (Some 404) "Not found") |}.

Definition builtParagraph (id : string) : Block :=
  mkBlock id false "paragraph" (PParagraph [] "default" None).

Definition syncedTo (id source : string) : Block :=
  mkBlock id false "synced_block" (PSyncedBlock (Some source) None).

(** Sample pages. *)
Definition plainSpan (s : string) : responses.RichTextObject :=
  {| responses.rt_type := "text"; responses.plain_text := s;
     responses.href := None;
     responses.annotations :=
       {| responses.bold := false; responses.italic := false;
          responses.strikethrough := false; responses.underline := false;
          responses.code := false; responses.color := "default" |};
     responses.text :=
       Some {| responses.content := s; responses.link := None |};
     responses.equation := None; responses.mention := None |}.

Definition noProperty : pages.PageProperty :=
  {| pages.title := None; pages.rich_text := None; pages.number := None;
     pages.multi_select := None; pages.date := None; pages.checkbox := None;
     pages.files := None |}.

Definition samplePage (id title slug : string) (date : option string)
           (rank : option Z) (meta : bool) (tags : list SelectProperty)
  : pages.PageObject :=
  {| pages.id := id; pages.icon := None; pages.cover := None;
     pages.properties :=
       {| pages.Page :=
            {| pages.title := Some (if (title =? "")%string then []
                                    else [plainSpan title]);
               pages.rich_text := None; pages.number := None;
               pages.multi_select := None; pages.date := None;
               pages.checkbox := None; pages.files := None |};
          pages.Slug :=
            {| pages.title := None;
               pages.rich_text := Some [plainSpan slug];
               pages.number := None; pages.multi_select := None;
               pages.date := None; pages.checkbox := None;
               pages.files := None |};
          pages.Date :=
            {| pages.title := None; pages.rich_text := None;
               pages.number := None; pages.multi_select := None;
               pages.date := option_map pages.mkDateProperty date;
               pages.checkbox := None; pages.files := None |};
          pages.Tags :=
            {| pages.title := None; pages.rich_text := None;
               pages.number := None; pages.multi_select := Some tags;
               pages.date := None; pages.checkbox := None;
               pages.files := None |};
          pages.Excerpt := noProperty;
          pages.FeaturedImage := noProperty;
          pages.Rank :=
            {| pages.title := None; pages.rich_text := None;
               pages.number := rank; pages.multi_select := None;
               pages.date := None; pages.checkbox := None;
               pages.files := None |};
          pages.Meta :=
            {| pages.title := None; pages.rich_text := None;
               pages.number := None; pages.multi_select := None;
               pages.date := None; pages.checkbox := Some meta;
               pages.files := None |} |} |}.

Definition tag (n : string) : SelectProperty :=
  {| sel_id := n; name := n; sel_color := "default" |}.

(** A settings record: title, slug and the meta flag, no date. *)
Definition metaPage : pages.PageObject :=
  samplePage "m" "Site" "site-title" None None true [].

(** A record without a title. *)
Definition untitledPage : pages.PageObject :=
  samplePage "u" "" "untitled" (Some "2024-01-05") None false [].

Definition pageA : pages.PageObject :=
  samplePage "a" "A" "a" (Some "2024-01-04") (Some 3) false
             [tag "rocq"; tag "astro"].
Definition pageB : pages.PageObject :=
  samplePage "b" "B" "b" (Some "2024-01-03") (Some 5) false [tag "astro"].
Definition pageC : pages.PageObject :=
  samplePage "c" "C" "c" (Some "2024-01-02") (Some 5) false
             [tag "notion"; tag "rocq"].
Definition pageD : pages.PageObject :=
  samplePage "d" "D" "d" (Some "2024-01-01") (Some 0) false [].
(** A record with a negative rank. *)
Definition pageE : pages.PageObject :=
  samplePage "e" "E" "e" (Some "2023-12-31") (Some (-1)) false [].

Definition samplePost (id title : string) (date : string) (rank : Z)
           (tags : list SelectProperty) : Post :=
  {| PageId := id; Title := title; PostIcon := None;
     PostCover := None; Slug := id; Date := date; Tags := tags;
     Excerpt := ""; FeaturedImage := None; Rank := rank; Meta := false |}.

Definition postA : Post :=
  samplePost "a" "A" "2024-01-04" 3 [tag "rocq"; tag "astro"].
Definition postB : Post := samplePost "b" "B" "2024-01-03" 5 [tag "astro"].
Definition postC : Post :=
  samplePost "c" "C" "2024-01-02" 5 [tag "notion"; tag "rocq"].
Definition postD : Post := samplePost "d" "D" "2024-01-01" 0 [].
Definition postE : Post := samplePost "e" "E" "2023-12-31" (-1) [].

(** A remote database that answers every query for [ja] with the same
    single page of records, and every query for [en] with none. *)
Definition sampleDatabase (r : unit) (params : QueryDatabase)
  : (JsError + QueryDatabaseResponse) * unit :=
  (inr {| q_results :=
            match q_lang params with
            | ja => [metaPage; untitledPage; pageA; pageB; pageC; pageD; pageE]
            | en => []
            end;
          q_has_more := false; q_next_cursor := None |}, r).

(** The module state when the process starts. *)
Definition initialWorld (Remote : Type) (r : Remote) : World Remote :=
  {| postsCacheByLang := fun _ => None; remote := r; fetched := [] |}.

(** Comparison of strings by code unit, a stand-in for a collation. *)
Definition codeUnitCompare (a b : string) : Z :=
  match String.compare a b with
  | Lt => -1
  | Eq => 0
  | Gt => 1
  end.

(** The number of invocations of [fetchPostsAndMeta] for a language. *)
Definition fetchCount (Remote : Type) (lang : LanguageKey) (w : World Remote)
  : nat :=
  List.length (filter (LanguageKey_eqb lang) (fetched w)).

(** The records [selectPosts] builds posts from: valid, and not flagged
    as meta. *)
Definition metaFlag (pageObject : pages.PageObject) : bool :=
  match pages.checkbox (pages.Meta (pages.properties pageObject)) with
  | Some true => true
  | _ => false
  end.

(** The posts component of [selectPosts]. *)
Definition postsOf (SLUG_META_TITLE : string) (rs : list pages.PageObject)
  : Res (list Post) :=
  pm <- selectPosts SLUG_META_TITLE rs ;; Ok (posts pm).

(** A comparator is consistent when "not greater" is total and
    transitive. *)
Definition consistent (A : Type) (compareFn : A -> A -> Z) : Prop :=
  (forall a b, compareFn a b <= 0 \/ compareFn b a <= 0) /\
  (forall a b c, compareFn a b <= 0 -> compareFn b c <= 0 ->
                 compareFn a c <= 0).

(** The state after a first call of [getAllPosts] for [ja]. *)
Definition sampleWorld : World unit :=
  snd (getAllPosts sampleDatabase "site-title" Granted 1 ja (initialWorld tt)).

(** [w'] keeps what the cache holds for [lang] in [w], and has fetched
    for [lang] no more often. *)
Definition keeps (Remote : Type) (lang : LanguageKey) (w w' : World Remote)
  : Prop :=
  forall e, postsCacheByLang w lang = Some e ->
            postsCacheByLang w' lang = Some e /\
            fetchCount lang w' = fetchCount lang w.

(** Two bulleted items, a paragraph, a numbered item; and what the
    grouping pass makes of them. *)
Definition bulletedItem (id : string) : Block :=
  mkBlock id false "bulleted_list_item" (PBulletedListItem [] "default" None).

Definition numberedItem (id : string) : Block :=
  mkBlock id false "numbered_list_item" (PNumberedListItem [] "default" None).

Definition sampleSequence : list Block :=
  [ bulletedItem "b1"; bulletedItem "b2"; builtParagraph "p1";
    numberedItem "n1" ].

Definition sampleGrouped : list NotionBlocks.Node :=
  [ NotionBlocks.NList
      {| NotionBlocks.ListType := NotionBlocks.bulleted_list;
         NotionBlocks.ListItems := [bulletedItem "b1"; bulletedItem "b2"] |};
    NotionBlocks.NBlock (builtParagraph "p1");
    NotionBlocks.NList
      {| NotionBlocks.ListType := NotionBlocks.numbered_list;
         NotionBlocks.ListItems := [numberedItem "n1"] |} ].

(** [k] is the ceiling of [count / size]: the least integer whose
    multiple of [size] reaches [count]. *)
Definition is_ceiling (k count size : Z) : Prop :=
  count <= k * size /\ forall j, count <= j * size -> k <= j.

(* ------------------------------------------------------------------ *)
(** ** Further vocabulary: normalizer and transport *)

(** The name of the member a block object carries. *)
Definition memberTag (m : responses.Member) : string :=
  match m with
  | responses.m_paragraph _ _ => "paragraph"
  | responses.m_heading_1 _ _ _ => "heading_1"
  | responses.m_heading_2 _ _ _ => "heading_2"
  | responses.m_heading_3 _ _ _ => "heading_3"
  | responses.m_bulleted_list_item _ _ => "bulleted_list_item"
  | responses.m_numbered_list_item _ _ => "numbered_list_item"
  | responses.m_to_do _ _ _ => "to_do"
  | responses.m_video _ _ _ => "video"
  | responses.m_image _ _ _ _ => "image"
  | responses.m_file _ _ _ _ => "file"
  | responses.m_code _ _ _ => "code"
  | responses.m_quote _ _ => "quote"
  | responses.m_equation _ => "equation"
  | responses.m_callout _ _ _ => "callout"
  | responses.m_synced_block _ => "synced_block"
  | responses.m_toggle _ _ => "toggle"
  | responses.m_embed _ => "embed"
  | responses.m_bookmark _ => "bookmark"
  | responses.m_link_preview _ => "link_preview"
  | responses.m_table _ _ _ => "table"
  | responses.m_column_list => "column_list"
  | responses.m_table_of_contents _ => "table_of_contents"
  | responses.m_link_to_page _ _ => "link_to_page"
  | responses.m_table_row _ => "table_row"
  end%string.

(** The object carries the member its [type] names. *)
Definition carriesMember (blockObject : responses.BlockObject) : bool :=
  match responses.member blockObject with
  | Some m => (memberTag m =? responses.type blockObject)%string
  | None => false
  end.

(** The pages a listing goes through from a cursor on: every page but
    the last says [has_more], and each is asked for with the cursor the
    one before it gave. *)
Inductive visits (src : ContentSource) (block_id : string)
  : option string -> list RetrieveBlockChildrenResponse -> Prop :=
| visits_last (cursor : option string) (res : RetrieveBlockChildrenResponse) :
    blocks_children_list src block_id cursor = inr res ->
    has_more res = false ->
    visits src block_id cursor [res]
| visits_more (cursor : option string) (res : RetrieveBlockChildrenResponse)
              (rest : list RetrieveBlockChildrenResponse) :
    blocks_children_list src block_id cursor = inr res ->
    has_more res = true ->
    visits src block_id (next_cursor res) rest ->
    visits src block_id cursor (res :: rest).

(** A remote database that counts the queries it answers. *)
Definition counting (Remote : Type)
           (databases_query :
              Remote -> QueryDatabase ->
              (JsError + QueryDatabaseResponse) * Remote)
  : Remote * nat -> QueryDatabase ->
    (JsError + QueryDatabaseResponse) * (Remote * nat) :=
  fun state params =>
    let (answer, r') := databases_query (fst state) params in
    (answer, (r', S (snd state))).

(** The number of queries a counting remote has answered. *)
Definition queries (Remote : Type) (w : World (Remote * nat)) : nat :=
  snd (remote w).

(** What the endpoint gives to successive calls with [params] from the
    state [r]: the errors up to the first answer, and that answer, [k]
    calls at most. *)
Fixpoint attempts (Remote : Type)
         (databases_query :
            Remote -> QueryDatabase ->
            (JsError + QueryDatabaseResponse) * Remote)
         (params : QueryDatabase) (k : nat) (r : Remote)
  : list (JsError + QueryDatabaseResponse) :=
  match k with
  | O => []
  | S k' =>
      match databases_query r params with
      | (inr a, _) => [inr a]
      | (inl error, r') =>
          inl error :: attempts databases_query params k' r'
      end
  end.

(** The errors among the outcomes of some calls, and the first answer. *)
Fixpoint errorsOf {A : Type} (outcomes : list (JsError + A))
  : list JsError :=
  match outcomes with
  | [] => []
  | inl error :: rest => error :: errorsOf rest
  | inr _ :: rest => errorsOf rest
  end.

Fixpoint answerOf {A : Type} (outcomes : list (JsError + A)) : option A :=
  match outcomes with
  | [] => None
  | inl _ :: rest => answerOf rest
  | inr a :: _ => Some a
  end.

(** A page one of whose listed objects lacks the member its type names. *)
Definition malformedSource : ContentSource :=
  {| snapshot := fun _ => None;
     blocks_children_list := fun block_id _ =>
       if (block_id =? "root")%string then
         onePage [sampleParagraph "p1"; rawBlock "bad" "paragraph" false None;
                  sampleDivider]
       else onePage [];
     blocks_retrieve :=
       fun _ => inl (APIResponseError (Some 404) "Not found") |}.

(* ------------------------------------------------------------------ *)
(** ** The pages that call the accessors *)

(** [xs[i]] for an integer [i]: [undefined] outside the array. *)
Definition js_index {A : Type} (xs : list A) (i : Z) : option A :=
  if i <? 0 then None else nth_error xs (Z.to_nat i).

(** [xs.findIndex(p)]: [-1] when nothing is found. *)
Fixpoint findIndex {A : Type} (p : A -> bool) (xs : list A) : Z :=
  match xs with
  | [] => -1
  | x :: rest =>
      if p x then 0
      else let i := findIndex p rest in
           if i <? 0 then -1 else i + 1
  end.

(** [page <= numberOfPages], the test of the loop over page numbers. *)
Definition js_le (page : Z) (numberOfPages : JsNumber) : bool :=
  match numberOfPages with
  | Finite k => page <=? k
  | Infinity => true
  | NaN => false
  end.

Section Pages.

Variable Remote : Type.
Variable databases_query :
  Remote -> QueryDatabase -> (JsError + QueryDatabaseResponse) * Remote.
Variable SLUG_META_TITLE : string.
Variable NUMBER_OF_POSTS_PER_PAGE : Z.
Variable localeCompare : string -> string -> Z.

Notation "x <~ m ;; k" := (bindM m (fun x => k))
  (at level 61, m at next level, right associativity).

(** [getStaticPaths] of [pages/[lang]/posts/[slug].astro]: the loop over
    the languages.  [locks] is what the lock does with the call made for
    each language. *)
Fixpoint slugPathsLoop (locks : LanguageKey -> LockOutcome) (fuel : nat)
         (langs : list LanguageKey) (paths : list (string * LanguageKey))
  : M Remote (list (string * LanguageKey)) :=
  match langs with
  | [] => ret paths
  | lang :: rest =>
      posts <~ getAllPosts databases_query SLUG_META_TITLE
                           (locks lang) fuel lang ;;
      slugPathsLoop locks fuel rest
        (paths ++ map (fun post => (Slug post, lang)) posts)
  end.

Definition slugPaths (locks : LanguageKey -> LockOutcome) (fuel : nat)
  : M Remote (list (string * LanguageKey)) :=
  slugPathsLoop locks fuel LANGUAGE_KEYS [].

(** The start of the frontmatter of that page: the post of the slug, or
    the error the page throws. *)
Definition slugPagePost (lock : LockOutcome) (fuel : nat)
           (lang : LanguageKey) (slug : string) : M Remote Post :=
  post <~ getPostBySlug databases_query SLUG_META_TITLE
                        lock fuel lang slug ;;
  match post with
  | Some p => ret p
  | None => lift (Throw (OtherError "Post not found. slug: ${slug}"))
  end.

(** [prevPost] and [nextPost] of that page. *)
Definition currentPostIndex (allPosts : list Post) (slug : string) : Z :=
  findIndex (fun post => (Slug post =? slug)%string) allPosts.

Definition prevPost (allPosts : list Post) (slug : string) : option Post :=
  js_index allPosts (currentPostIndex allPosts slug + 1).

Definition nextPost (allPosts : list Post) (slug : string) : option Post :=
  js_index allPosts (currentPostIndex allPosts slug - 1).

(** [getStaticPaths] of [pages/[lang]/posts/tag/[tag].astro]. *)
Fixpoint tagPathsLoop (locks : LanguageKey -> LockOutcome) (fuel : nat)
         (langs : list LanguageKey) (paths : list (string * LanguageKey))
  : M Remote (list (string * LanguageKey)) :=
  match langs with
  | [] => ret paths
  | lang :: rest =>
      allTags <~ getAllTags databases_query SLUG_META_TITLE localeCompare
                            (locks lang) fuel lang ;;
      tagPathsLoop locks fuel rest
        (paths ++ map (fun tag => (name tag, lang)) allTags)
  end.

Definition tagPaths (locks : LanguageKey -> LockOutcome) (fuel : nat)
  : M Remote (list (string * LanguageKey)) :=
  tagPathsLoop locks fuel LANGUAGE_KEYS [].

(** [Promise.all] of two calls that queue on the lock of the posts:
    both run, in the order of the array, also when the first one throws,
    and the error of the whole is the one thrown first in time. *)
Definition promiseAll2 {A B : Type} (first : M Remote A) (second : M Remote B)
  : M Remote (A * B) :=
  fun w =>
    match first w with
    | (Ok a, w1) =>
        match second w1 with
        | (Ok b, w2) => (Ok (a, b), w2)
        | (Throw e, w2) => (Throw e, w2)
        | (OutOfFuel, w2) => (OutOfFuel, w2)
        end
    | (Throw e, w1) =>
        match second w1 with
        | (Throw e', w2) => (Throw (earlier e e'), w2)
        | (_, w2) => (Throw e, w2)
        end
    | (OutOfFuel, w1) => (OutOfFuel, w1)
    end.

(** What the frontmatter of that page computes. *)
Record TagPageData : Type := mkTagPageData {
  tp_posts : list Post;
  tp_rankedPosts : list Post;
  tp_tags : list SelectProperty;
  tp_numberOfPages : JsNumber;
  tp_currentTag : option SelectProperty }.

(** The frontmatter of that page: [Promise.all] of the four accessors,
    then [posts[0].Tags.find(...)], which throws when there is no
    post.  [locks] is what the lock does with each of the four calls,
    counted from 0. *)
Definition tagPageData (locks : nat -> LockOutcome) (fuel : nat)
           (lang : LanguageKey) (tag : string) : M Remote TagPageData :=
  all <~ promiseAll2
           (getPostsByTag databases_query SLUG_META_TITLE
                          (locks 0%nat) fuel lang tag
                          NUMBER_OF_POSTS_PER_PAGE)
           (promiseAll2
              (getRankedPosts databases_query SLUG_META_TITLE
                              (locks 1%nat) fuel lang 10)
              (promiseAll2
                 (getAllTags databases_query SLUG_META_TITLE localeCompare
                             (locks 2%nat) fuel lang)
                 (getNumberOfPagesByTag databases_query SLUG_META_TITLE
                    NUMBER_OF_POSTS_PER_PAGE (locks 3%nat) fuel lang tag))) ;;
  let '(posts, (rankedPosts, (tags, numberOfPages))) := all in
  match posts with
  | [] => lift (Throw TypeError)
  | first :: _ =>
      ret {| tp_posts := posts;
             tp_rankedPosts := rankedPosts;
             tp_tags := tags;
             tp_numberOfPages := numberOfPages;
             tp_currentTag :=
               find (fun t => (name t =? tag)%string) (Tags first) |}
  end.

(** The loop [for (let page = 2; page <= numberOfPages; page++)] of
    [getStaticPaths] of [pages/[lang]/posts/page/[page].astro].  When
    [numberOfPages] is [Infinity] the loop of the source goes on until
    [paths] can grow no more; arrays have no such bound here, and the
    model says nothing about how that run ends. *)
Fixpoint pageNumbersLoop (fuel : nat) (page : Z) (numberOfPages : JsNumber)
         (lang : LanguageKey) (paths : list (Z * LanguageKey))
  : Res (list (Z * LanguageKey)) :=
  match fuel with
  | O => OutOfFuel
  | S f =>
      if js_le page numberOfPages
      then pageNumbersLoop f (page + 1) numberOfPages lang
                           (paths ++ [(page, lang)])
      else Ok paths
  end.

Fixpoint pagePathsLoop (locks : LanguageKey -> LockOutcome) (fuel : nat)
         (langs : list LanguageKey) (paths : list (Z * LanguageKey))
  : M Remote (list (Z * LanguageKey)) :=
  match langs with
  | [] => ret paths
  | lang :: rest =>
      numberOfPages <~ getNumberOfPages databases_query SLUG_META_TITLE
                         NUMBER_OF_POSTS_PER_PAGE (locks lang) fuel lang ;;
      paths' <~ lift (pageNumbersLoop fuel 2 numberOfPages lang paths) ;;
      pagePathsLoop locks fuel rest paths'
  end.

Definition pagePaths (locks : LanguageKey -> LockOutcome) (fuel : nat)
  : M Remote (list (Z * LanguageKey)) :=
  pagePathsLoop locks fuel LANGUAGE_KEYS [].

End Pages.

(** Every cache entry is what [selectPosts] made of some records. *)
Definition soundCache (Remote : Type) (SLUG_META_TITLE : string)
           (w : World Remote) : Prop :=
  forall lang e,
    postsCacheByLang w lang = Some e ->
    exists rs, selectPosts SLUG_META_TITLE rs = Ok e.

(** The records [selectPosts] turns into posts. *)
Definition keptAsPost (pageObject : pages.PageObject) : bool :=
  _validPageObject pageObject && negb (metaFlag pageObject).

(** The posts of the sample database for [ja], and the state after the
    posts of both languages were read. *)
Definition samplePosts : list Post := [postA; postB; postC; postD; postE].

Definition sampleWorldBoth : World unit :=
  snd (getAllPosts sampleDatabase "site-title" Granted 1 en sampleWorld).

(** A remote database that refuses every query. *)
Definition refusingDatabase (r : unit) (params : QueryDatabase)
  : (JsError + QueryDatabaseResponse) * unit :=
  (inl (APIResponseError (Some 401) "Unauthorized"), r).

(* ------------------------------------------------------------------ *)
(** ** Headings and numbered lists of the block components *)

(** [isHeading] of [NotionBlocks.astro] *)
Definition isHeading (block : NotionBlocks.Node) : bool :=
  (NotionBlocks.nodeType block =? "heading_1")%string
  || (NotionBlocks.nodeType block =? "heading_2")%string
  || (NotionBlocks.nodeType block =? "heading_3")%string.

(** [headings] of [NotionBlocks.astro]: the headings handed down, or, at
    the root, those among [blocks]. *)
Definition headings (isRoot : bool)
           (rawHeadings blocks : list NotionBlocks.Node)
  : list NotionBlocks.Node :=
  if isRoot then filter isHeading blocks else rawHeadings.

Module NumberedListItems.

Definition listTypes : list string := [ "i"; "1"; "a" ]%string.

(** [listTypes[level % 3]]; the remainder takes the sign of [level]. *)
Definition olType (level : Z) : option string :=
  js_index listTypes (Z.rem level 3).

(** The items the component renders. *)
Definition items (block : NotionBlocks.List) : list Block :=
  filter (fun b => (BlockType b =? "numbered_list_item")%string)
         (NotionBlocks.ListItems block).

End NumberedListItems.

(** The [switch] of the template of [NotionBlocks.astro]: the case
    labels with the component each one returns. *)
Definition component_cases : list (string * string) :=
  [ ("paragraph", "Paragraph"); ("heading_1", "Heading1");
    ("heading_2", "Heading2"); ("heading_3", "Heading3");
    ("table_of_contents", "TableOfContents"); ("image", "Image");
    ("video", "Video"); ("code", "Code"); ("quote", "Quote");
    ("equation", "Equation"); ("callout", "Callout"); ("embed", "Embed");
    ("bookmark", "Bookmark"); ("link_preview", "Bookmark");
    ("divider", "Divider"); ("table", "Table");
    ("column_list", "ColumnList");
    ("bulleted_list", "BulletedListItems");
    ("numbered_list", "NumberedListItems"); ("to_do_list", "ToDo");
    ("synced_block", "SyncedBlock"); ("toggle", "Toggle");
    ("file", "File"); ("link_to_page", "LinkToPage") ]%string.

(** What a node is rendered with; [None] is the [return null] behind the
    [switch]. *)
Definition component (block : NotionBlocks.Node) : option string :=
  option_map snd
    (find (fun c => (fst c =? NotionBlocks.nodeType block)%string)
          component_cases).

(* ------------------------------------------------------------------ *)
(** ** The database record and the site metadata *)

(** Modelled from the code: the members of the answer of
    [client.databases.retrieve] that [retrieveDatabaseCore] reads.  A key
    of the icon or of the cover that is present is given by its [url]. *)
Module database.

Record Icon : Type := mkIcon {
  icon_type : string;
  emoji : option string;
  external : option string;
  file : option string }.

Record Cover : Type := mkCover {
  cover_type : string;
  cover_external : option string;
  cover_file : option string }.

Record RetrieveDatabaseResponse : Type := mkRetrieveDatabaseResponse {
  title : list responses.RichTextObject;
  description : list responses.RichTextObject;
  icon : option Icon;
  cover : option Cover }.

End database.

(** [Database], and [SiteMeta], which has the same members. *)
Record Database : Type := mkDatabase {
  DbTitle : string;
  DbDescription : string;
  DbIcon : option IconT;
  DbCover : option (string * string) }.

Definition SiteMeta : Type := Database.

(** The icon [retrieveDatabaseCore] builds. *)
Definition build_database_icon (icon : option database.Icon)
  : option IconT :=
  match icon with
  | None => None
  | Some i =>
    let ty := database.icon_type i in
    match (ty =? "emoji")%string, database.emoji i with
    | true, Some e => Some (IconEmoji ty e)
    | _, _ =>
      match (ty =? "external")%string, database.external i with
      | true, Some u => Some (IconUrl ty (or_empty u))
      | _, _ =>
        match (ty =? "file")%string, database.file i with
        | true, Some u => Some (IconUrl ty (or_empty u))
        | _, _ => None
        end
      end
    end
  end.

(** The cover [retrieveDatabaseCore] builds: the member named by the
    type is read, and reading [url] of a missing one throws. *)
Definition build_database_cover (cover : option database.Cover)
  : Res (option (string * string)) :=
  match cover with
  | None => Ok None
  | Some c =>
      let ty := database.cover_type c in
      if (ty =? "external")%string then
        match database.cover_external c with
        | Some u => Ok (Some (ty, or_empty u))
        | None => Throw TypeError
        end
      else
        match database.cover_file c with
        | Some u => Ok (Some (ty, or_empty u))
        | None => Throw TypeError
        end
  end.

(** From the answer to the record, the second half of
    [retrieveDatabaseCore]. *)
Definition buildDatabase (res : database.RetrieveDatabaseResponse)
  : Res Database :=
  let icon := build_database_icon (database.icon res) in
  cover <- build_database_cover (database.cover res) ;;
  Ok {| DbTitle := plain (database.title res);
        DbDescription := plain (database.description res);
        DbIcon := icon;
        DbCover := cover |}.

Section SiteMetadata.

Variable DbRemote : Type.
Variable databases_retrieve :
  DbRemote -> (JsError + database.RetrieveDatabaseResponse) * DbRemote.

Variable Remote : Type.
Variable databases_query :
  Remote -> QueryDatabase -> (JsError + QueryDatabaseResponse) * Remote.
Variable SLUG_META_TITLE : string.

(** [dbCache] and the remote side of [client.databases.retrieve]. *)
Record DbWorld : Type := mkDbWorld {
  dbCache : option Database;
  dbRemote : DbRemote }.

(** [retrieveDatabaseCore] *)
Definition retrieveDatabaseCore (dw : DbWorld) : Res Database * DbWorld :=
  match dbCache dw with
  | Some cached => (Ok cached, dw)
  | None =>
      match retryS numberOfRetry databases_retrieve (dbRemote dw) with
      | (Ok res, r') =>
          match buildDatabase res with
          | Ok database =>
              (Ok database, {| dbCache := Some database; dbRemote := r' |})
          | Throw e => (Throw e, {| dbCache := None; dbRemote := r' |})
          | OutOfFuel => (OutOfFuel, {| dbCache := None; dbRemote := r' |})
          end
      | (Throw e, r') => (Throw e, {| dbCache := None; dbRemote := r' |})
      | (OutOfFuel, r') => (OutOfFuel, {| dbCache := None; dbRemote := r' |})
      end
  end.

(** [retrieveDatabase], under the lock of the database; [lock] is what
    the lock does with the call. *)
Definition retrieveDatabase (lock : LockOutcome) (dw : DbWorld)
  : Res Database * DbWorld :=
  acquire ASYNC_LOCK_DB lock retrieveDatabaseCore dw.

(** [getDatabase] *)
Definition getDatabase (lock : LockOutcome) (dw : DbWorld)
  : Res Database * DbWorld :=
  retrieveDatabase lock dw.

(** [getSiteMeta], on the two module states; [dbLock] and [postsLock]
    are what the lock does with its two calls. *)
Definition getSiteMeta (dbLock postsLock : LockOutcome) (fuel : nat)
           (lang : LanguageKey) (state : DbWorld * World Remote)
  : Res SiteMeta * (DbWorld * World Remote) :=
  let (dw, w) := state in
  match retrieveDatabase dbLock dw with
  | (Ok database, dw') =>
      match getTitleMeta databases_query SLUG_META_TITLE
                         postsLock fuel lang w with
      | (Ok titleMeta, w') =>
          (Ok {| DbTitle := match titleMeta with
                            | Some t => Title t
                            | None => DbTitle database
                            end;
                 DbDescription := match titleMeta with
                                  | Some t => Excerpt t
                                  | None => DbDescription database
                                  end;
                 DbIcon := DbIcon database;
                 DbCover := DbCover database |},
           (dw', w'))
      | (Throw e, w') => (Throw e, (dw', w'))
      | (OutOfFuel, w') => (OutOfFuel, (dw', w'))
      end
  | (Throw e, dw') => (Throw e, (dw', w))
  | (OutOfFuel, dw') => (OutOfFuel, (dw', w))
  end.

End SiteMetadata.

(** A database record with an external cover and a hosted icon, and an
    endpoint that answers with it; one that fails twice with a server
    error before it answers; one that refuses. *)
Definition sampleDatabaseRecord : database.RetrieveDatabaseResponse :=
  {| database.title := [plainSpan "Blog"];
     database.description := [plainSpan "About"; plainSpan " things"];
     database.icon :=
       Some {| database.icon_type := "file"; database.emoji := None;
               database.external := None;
               database.file := Some "https://host/icon.png" |};
     database.cover :=
       Some {| database.cover_type := "external";
               database.cover_external := Some "https://host/cover.png";
               database.cover_file := None |} |}.

Definition flakyRetrieve (n : nat)
  : (JsError + database.RetrieveDatabaseResponse) * nat :=
  match n with
  | O => (inr sampleDatabaseRecord, O)
  | S k => (inl (APIResponseError (Some 503) "Service unavailable"), k)
  end.

Definition refusingRetrieve (n : nat)
  : (JsError + database.RetrieveDatabaseResponse) * nat :=
  (inl (APIResponseError (Some 404) "Not found"), S n).

(** ** The paginated tag page *)

Section TagPages.

Variable Remote : Type.
Variable databases_query :
  Remote -> QueryDatabase -> (JsError + QueryDatabaseResponse) * Remote.
Variable SLUG_META_TITLE : string.
Variable NUMBER_OF_POSTS_PER_PAGE : Z.
Variable localeCompare : string -> string -> Z.

Notation "x <~ m ;; k" := (bindM m (fun x => k))
  (at level 61, m at next level, right associativity).

(** The loop [for (let page = 2; page <= numberOfPages; page++)] in the
    callback of [allTags.map], in [getStaticPaths] of
    [pages/[lang]/posts/tag/[tag]/page/[page].astro]; as for
    [pageNumbersLoop], nothing is said about the run with [Infinity]. *)
Fixpoint tagPageNumbersLoop (fuel : nat) (page : Z) (numberOfPages : JsNumber)
         (tagName : string) (lang : LanguageKey)
         (paths : list (string * Z * LanguageKey))
  : Res (list (string * Z * LanguageKey)) :=
  match fuel with
  | O => OutOfFuel
  | S f =>
      if js_le page numberOfPages
      then tagPageNumbersLoop f (page + 1) numberOfPages tagName lang
                              (paths ++ [(tagName, page, lang)])
      else Ok paths
  end.

(** That callback, for one tag: what it adds to [paths]. *)
Definition tagPagePathsOf (lock : LockOutcome) (fuel : nat)
           (lang : LanguageKey) (tag : SelectProperty)
           (paths : list (string * Z * LanguageKey))
  : M Remote (list (string * Z * LanguageKey)) :=
  numberOfPages <~ getNumberOfPagesByTag databases_query SLUG_META_TITLE
                     NUMBER_OF_POSTS_PER_PAGE lock fuel lang (name tag) ;;
  lift (tagPageNumbersLoop fuel 2 numberOfPages (name tag) lang paths).

(** [Promise.all(allTags.map(callback))]: every callback is started and
    calls the lock before the first of them goes on, so the callback at
    [index] meets the lock as [queued index] says.  The callbacks that
    are let in run in the order of the tags; the rejection of the whole
    is the first in time. *)
Fixpoint tagCallbacks (locks : nat -> LockOutcome) (fuel : nat)
         (lang : LanguageKey) (index : nat) (tags : list SelectProperty)
         (paths : list (string * Z * LanguageKey))
  : M Remote (list (string * Z * LanguageKey)) :=
  match tags with
  | [] => ret paths
  | tag :: rest =>
      fun w =>
        match tagPagePathsOf (queued index (locks index))
                             fuel lang tag paths w with
        | (Ok paths', w') =>
            tagCallbacks locks fuel lang (S index) rest paths' w'
        | (Throw e, w') =>
            match tagCallbacks locks fuel lang (S index) rest paths w' with
            | (Ok _, w'') => (Throw e, w'')
            | (Throw e', w'') => (Throw (earlier e e'), w'')
            | (OutOfFuel, w'') => (OutOfFuel, w'')
            end
        | (OutOfFuel, w') => (OutOfFuel, w')
        end
  end.

(** [getStaticPaths] of that page: for each language the tags are read
    and the callbacks run.  [tagsLocks] is what the lock does with the
    call of [getAllTags] for a language, [locks] what it does with the
    callbacks of that language. *)
Fixpoint tagPagePathsLoop (tagsLocks : LanguageKey -> LockOutcome)
         (locks : LanguageKey -> nat -> LockOutcome) (fuel : nat)
         (langs : list LanguageKey)
         (paths : list (string * Z * LanguageKey))
  : M Remote (list (string * Z * LanguageKey)) :=
  match langs with
  | [] => ret paths
  | lang :: rest =>
      allTags <~ getAllTags databases_query SLUG_META_TITLE localeCompare
                            (tagsLocks lang) fuel lang ;;
      paths' <~ tagCallbacks (locks lang) fuel lang 0 allTags paths ;;
      tagPagePathsLoop tagsLocks locks fuel rest paths'
  end.

Definition tagPagePaths (tagsLocks : LanguageKey -> LockOutcome)
           (locks : LanguageKey -> nat -> LockOutcome) (fuel : nat)
  : M Remote (list (string * Z * LanguageKey)) :=
  tagPagePathsLoop tagsLocks locks fuel LANGUAGE_KEYS [].

(** The frontmatter of that page: [Promise.all] of the four accessors,
    then [posts[0].Tags.find(...)].  [locks] is what the lock does with
    each of the four calls, counted from 0. *)
Definition tagPagedData (locks : nat -> LockOutcome) (fuel : nat)
           (lang : LanguageKey) (tag : string) (page : Z)
  : M Remote TagPageData :=
  all <~ promiseAll2
           (getPostsByTagAndPage databases_query SLUG_META_TITLE
              NUMBER_OF_POSTS_PER_PAGE (locks 0%nat) fuel lang tag page)
           (promiseAll2
              (getRankedPosts databases_query SLUG_META_TITLE
                              (locks 1%nat) fuel lang 10)
              (promiseAll2
                 (getAllTags databases_query SLUG_META_TITLE localeCompare
                             (locks 2%nat) fuel lang)
                 (getNumberOfPagesByTag databases_query SLUG_META_TITLE
                    NUMBER_OF_POSTS_PER_PAGE (locks 3%nat) fuel lang tag))) ;;
  let '(posts, (rankedPosts, (tags, numberOfPages))) := all in
  match posts with
  | [] => lift (Throw TypeError)
  | first :: _ =>
      ret {| tp_posts := posts;
             tp_rankedPosts := rankedPosts;
             tp_tags := tags;
             tp_numberOfPages := numberOfPages;
             tp_currentTag :=
               find (fun t => (name t =? tag)%string) (Tags first) |}
  end.

End TagPages.

(** The number of pages of a tag as a natural number, and the paths of
    the paginated tag page for a list of tags: for each tag in turn, the
    page numbers from 2 to the number of pages of the tag. *)
Definition pagesOfTag (NUMBER_OF_POSTS_PER_PAGE : Z) (ps : list Post)
           (tagName : string) : nat :=
  match numberOfPagesOf NUMBER_OF_POSTS_PER_PAGE
                        (filter (hasTag tagName) ps) with
  | Finite k => Z.to_nat k
  | _ => 0
  end.

Definition tagPagePathsFor (NUMBER_OF_POSTS_PER_PAGE : Z) (ps : list Post)
           (lang : LanguageKey) (tags : list SelectProperty)
  : list (string * Z * LanguageKey) :=
  flat_map
    (fun t =>
       map (fun i => (name t, Z.of_nat i, lang))
           (seq 2 (pagesOfTag NUMBER_OF_POSTS_PER_PAGE ps (name t) - 1)))
    tags.

(** A remote database whose two posts for [ja] both carry the same [k]
    tags, of names [t], [tt], [ttt] and so on. *)
Definition manyTags (k : nat) : list SelectProperty :=
  map (fun i => tag (String.concat "" (repeat "t" (S i)))) (seq 0 k).

Definition taggedDatabase (k : nat) (r : unit) (params : QueryDatabase)
  : (JsError + QueryDatabaseResponse) * unit :=
  (inr {| q_results :=
            match q_lang params with
            | ja => [samplePage "p" "P" "p" (Some "2024-01-02") None false
                                (manyTags k);
                     samplePage "q" "Q" "q" (Some "2024-01-01") None false
                                (manyTags k)]
            | en => []
            end;
          q_has_more := false; q_next_cursor := None |}, r).

(* ================================================================== *)
(** * Properties *)

(** ** Generic facts *)

Lemma bind_Ok_inv (A B : Type) (m : Res A) (k : A -> Res B) (b : B) :
  bind m k = Ok b -> exists a, m = Ok a /\ k a = Ok b.
Proof.
  destruct m as [a| |]; simpl; intros H; try discriminate.
  exists a; split; [reflexivity | exact H].
Qed.

Lemma mapM_Ok_Forall2 (A B : Type) (f : A -> Res B) (xs : list A) :
  forall ys, mapM f xs = Ok ys -> Forall2 (fun x y => f x = Ok y) xs ys.
Proof.
  induction xs as [|x xs IH]; simpl; intros ys H.
  - injection H as <-. constructor.
  - apply bind_Ok_inv in H as (y & Hy & H).
    apply bind_Ok_inv in H as (ys' & Hys & H).
    injection H as <-. constructor; auto.
Qed.

Lemma if_same (A : Type) (c : bool) (x : A) : (if c then x else x) = x.
Proof. destruct c; reflexivity. Qed.

(** A caller of the lock that got an answer was let in, and the answer
    is the one of its function. *)
Lemma acquire_Ok (St A : Type) (key : string) (lock : LockOutcome)
      (fn : St -> Res A * St) (s s' : St) (a : A) :
  acquire key lock fn s = (Ok a, s') -> fn s = (Ok a, s').
Proof. destruct lock as [|[]]; simpl; auto; discriminate. Qed.

(** What a caller that is turned away gets, and the state it leaves. *)
Lemma acquire_Rejected (St A : Type) (key : string)
      (rejection : LockRejection) (fn : St -> Res A * St) (s : St) :
  acquire key (Rejected rejection) fn s
  = (Throw (LockError key rejection),
     match rejection with
     | OccupationExceeded => snd (fn s)
     | _ => s
     end).
Proof. destruct rejection; reflexivity. Qed.

(** The main error of attempts that all failed alike. *)
Lemma mainErrorFrom_same (e : JsError) (errors : list JsError) :
  Forall (eq e) errors ->
  forall counts c, mainErrorFrom errors counts (Some e) c = Some e.
Proof.
  induction 1 as [|x l <- _ IH]; intros counts c; cbn [mainErrorFrom].
  - reflexivity.
  - destruct (_ <=? _)%nat; apply IH.
Qed.

Lemma mainError_same (e : JsError) (errors : list JsError) :
  errors <> [] -> Forall (eq e) errors -> mainError errors = Some e.
Proof.
  intros NE H. destruct H as [|x l <- H]; [contradiction|].
  unfold mainError. cbn [mainErrorFrom]. simpl.
  apply mainErrorFrom_same; exact H.
Qed.

(** Retrying an endpoint that fails alike every time. *)
Lemma retryFrom_same (St A : Type) (fn : St -> (JsError + A) * St)
      (e : JsError) :
  (forall s, fst (fn s) = inl e) ->
  forall retries errors rejected s,
    Forall (eq e) errors ->
    rejected = None \/ rejected = Some e ->
    fst (retryFrom retries fn errors rejected s) = Throw e.
Proof.
  intros Hfn. induction retries as [|n IH]; intros errors rejected s He Hr;
    cbn [retryFrom]; specialize (Hfn s); destruct (fn s) as [[e'|a] s'];
    simpl in Hfn; try discriminate Hfn; injection Hfn as ->.
  - rewrite (@mainError_same e (errors ++ [e])).
    + destruct Hr as [-> | ->]; [destruct (bails e)|]; reflexivity.
    + destruct errors; discriminate.
    + apply Forall_app; split; [exact He | constructor; auto].
  - apply IH.
    + apply Forall_app; split; [exact He | constructor; auto].
    + destruct Hr as [-> | ->]; [destruct (bails e)|]; auto.
Qed.

(** With a source that does not change, retrying returns what the first
    attempt returned. *)
Lemma retry_constant (A : Type) (fn : unit -> JsError + A) (n : nat) :
  retry n fn = match fn tt with inr a => Ok a | inl e => Throw e end.
Proof.
  unfold retry, retryS. destruct (fn tt) as [e|a] eqn:E.
  - apply retryFrom_same; auto.
  - destruct n; cbn [retryFrom fst]; reflexivity.
Qed.

(** ** Block normalizer *)

Ltac unhandled H :=
  match goal with
  | |- context [String.eqb ?t ?s] =>
      destruct (String.eqb_spec t s) as [E|_];
      [exfalso; apply H; rewrite E; simpl; tauto|]
  end.

(** Claim C1, as amended.  A raw block whose discriminant is none of the
    case labels is normalized without error to a block that carries the
    envelope only, and whose type tag is the discriminant itself. *)
Theorem buildBlock_unhandled (blockObject : responses.BlockObject) :
  ~ In (responses.type blockObject) handled_kinds ->
  _buildBlock blockObject =
    Ok (mkBlock (responses.id blockObject)
                (responses.has_children blockObject)
                (responses.type blockObject) PNone).
Proof.
  destruct blockObject as [id ty hc m]; simpl. intros H.
  unfold _buildBlock; simpl.
  repeat unhandled H. reflexivity.
Qed.

Lemma buildBlock_unhandled_witness :
  ~ In (responses.type sampleDivider) handled_kinds /\
  _buildBlock sampleDivider = Ok (mkBlock "d1" false "divider" PNone).
Proof.
  assert (H : ~ In (responses.type sampleDivider) handled_kinds).
  { simpl. intros H.
    repeat (destruct H as [H|H]; [discriminate H|]). exact H. }
  split; [exact H | exact (buildBlock_unhandled sampleDivider H)].
Defined.

(** Claim C1, as stated, fails on a divider: its discriminant is not
    handled, and the block built from it is tagged [divider]. *)
Lemma buildBlock_unhandled_not_unsupported :
  ~ In (responses.type sampleDivider) handled_kinds /\
  _buildBlock sampleDivider = Ok (mkBlock "d1" false "divider" PNone) /\
  BlockType (mkBlock "d1" false "divider" PNone) <> "unsupported"%string.
Proof.
  split; [|split].
  - simpl. intros H.
    repeat (destruct H as [H|H]; [discriminate H|]). exact H.
  - reflexivity.
  - simpl. discriminate.
Qed.

Ltac split_matches H :=
  repeat match type of H with
         | context [match ?x with _ => _ end] => destruct x; try discriminate H
         | context [if ?c then _ else _] => destruct c; try discriminate H
         end.

(** What the normalizer returns copies the envelope, stores the member
    under the name of its tag, and leaves the child slots unfilled. *)
Lemma buildBlock_freshlyBuilt (blockObject : responses.BlockObject)
      (b : Block) :
  _buildBlock blockObject = Ok b ->
  Id b = responses.id blockObject /\
  HasChildren b = responses.has_children blockObject /\
  freshlyBuilt b.
Proof.
  destruct blockObject as [id ty hc m]; unfold _buildBlock; simpl.
  repeat match goal with
  | |- context [String.eqb ty ?s] =>
      destruct (String.eqb_spec ty s) as [_|?NE];
      [ intros H; split_matches H; injection H as <-;
        unfold freshlyBuilt; simpl; repeat split; auto;
        intros K; repeat (destruct K as [K|K]; [discriminate K|]); exact K
      | ]
  end.
  intros H; injection H as <-.
  unfold freshlyBuilt; simpl; repeat split; auto.
  intros K.
  repeat (destruct K as [K|K]; [symmetry in K; contradiction|]).
  exact K.
Qed.

(** ** Tree assembler *)

Ltac in_cases K :=
  simpl in K; repeat (destruct K as [K|K]; [try discriminate K|]);
  try contradiction.

Ltac absurd_kind :=
  match goal with
  | K : true = false |- _ => discriminate K
  | K : false = true |- _ => discriminate K
  | K : @eq string (String _ _) (String _ _) |- _ => discriminate K
  | K : In (String _ _) _ |- _ => solve [in_cases K]
  | K : ~ In (String _ _) _ |- _ => exfalso; apply K; simpl; tauto
  end.

Ltac assembled_fields :=
  unfold assembledFrom;
  cbv [childSlot rowsSlot columnsSlot payload Id HasChildren BlockType
       withChildren withRows withColumns];
  repeat match goal with
         | |- _ /\ _ => split
         | |- _ -> _ => intro
         end;
  try absurd_kind; auto.

Section AssemblerFacts.

Variable src : ContentSource.

(** What one pass of the loop body does to a freshly built block. *)
Lemma fillChildren_assembled (fuel : nat) (b0 b : Block) :
  freshlyBuilt b0 ->
  fillChildren src (getAllBlocksByBlockId src fuel) fuel b0 = Ok b ->
  assembledFrom src fuel b0 b.
Proof.
  destruct b0 as [id hc ty p]. intros [Htag Hslot] H.
  destruct p; simpl in Htag, Hslot; try subst ty; cbn in H.
  all: try (destruct hc; cbn in H).
  all: try (injection H as <-; assembled_fields; fail).
  all: try (apply bind_Ok_inv in H as (cs & Hcs & H); injection H as <-;
            assembled_fields; try (exists cs; repeat split; auto; fail)).
  all: rewrite ?if_same in H; cbn in H; injection H as <-;
       assembled_fields;
       exfalso; apply Htag;
       repeat match goal with
              | K : ?t = _ |- _ => rewrite K; simpl; tauto
              | K : In ?t _ |- _ => in_cases K; subst t; simpl; tauto
              end.
Qed.

(** [getBlock] always settles: it needs no fuel. *)
Lemma getBlock_settles (blockId : string) :
  getBlock src blockId <> OutOfFuel.
Proof.
  unfold getBlock. rewrite retry_constant.
  destruct (blocks_retrieve src blockId) as [e|raw]; simpl; [discriminate|].
  destruct (_buildBlock raw) eqn:E; try discriminate.
  exfalso. revert E. destruct raw as [id ty hc m]; unfold _buildBlock; simpl.
  repeat match goal with
  | |- context [String.eqb ty ?s] =>
      destruct (String.eqb ty s);
      [ intros H; split_matches H; discriminate H | ]
  end.
  discriminate.
Qed.

(** A block that [getBlock] returns is the normalization of the object
    the remote side holds under that id. *)
Lemma getBlock_Ok (blockId : string) (b : Block) :
  getBlock src blockId = Ok b ->
  exists raw, blocks_retrieve src blockId = inr raw /\
              _buildBlock raw = Ok b /\ Id b = responses.id raw.
Proof.
  unfold getBlock. rewrite retry_constant.
  destruct (blocks_retrieve src blockId) as [e|raw]; simpl; [discriminate|].
  intros H. exists raw. repeat split; auto.
  apply buildBlock_freshlyBuilt in H. tauto.
Qed.

(** Claim C2, as amended.  When [getAllBlocksByBlockId] returns, its
    blocks are, one for one and in order, the normalized children of the
    listing, where: a paragraph, heading, bulleted or numbered list item,
    to-do, quote or callout has its child slot filled with the assembled
    children of its id when its has-children flag is set, and is left as
    built when it is not; a toggle, a table, a column list and a synced
    block are expanded whatever the flag says; a block of any other kind
    is left as built, without children. *)
Theorem getAllBlocksByBlockId_children (fuel : nat) (blockId : string)
        (bs : list Block) :
  getAllBlocksByBlockId src (S fuel) blockId = Ok bs ->
  exists rs built,
    listChildren src fuel blockId = Ok rs /\
    mapM _buildBlock rs = Ok built /\
    Forall2 (assembledFrom src fuel) built bs.
Proof.
  simpl. intros H.
  apply bind_Ok_inv in H as (rs & Hrs & H).
  apply bind_Ok_inv in H as (built & Hbuilt & H).
  exists rs, built. repeat split; auto.
  apply mapM_Ok_Forall2 in H.
  assert (Hfresh : Forall freshlyBuilt built).
  { apply mapM_Ok_Forall2 in Hbuilt. clear -Hbuilt.
    induction Hbuilt as [|raw b ? ? Hb]; constructor; auto.
    apply buildBlock_freshlyBuilt in Hb. tauto. }
  clear -H Hfresh.
  induction H as [|b0 b ? ? Hb]; constructor.
  - inversion Hfresh; subst. apply fillChildren_assembled; auto.
  - inversion Hfresh; subst. auto.
Qed.

(** Claim C6.  For a synced block: with a synced-from reference whose
    block is retrieved and normalized, the children are those assembled
    under the id of the retrieved block; with a reference whose
    retrieval or normalization throws, the result is the empty list and
    nothing is thrown; without a reference, the children are those
    assembled under the block's own id. *)
Theorem getSyncedBlockChildren_cases (fuel : nat) (id : string) (hc : bool)
        (ty : string) (sf : option string) (ch : option (list Block)) :
  (forall source, sf = Some source -> source <> ""%string ->
     (forall original, getBlock src source = Ok original ->
        exists raw, blocks_retrieve src source = inr raw /\
          Id original = responses.id raw /\
          _getSyncedBlockChildren src fuel
            (mkBlock id hc ty (PSyncedBlock sf ch))
          = getAllBlocksByBlockId src fuel (responses.id raw)) /\
     (forall e, getBlock src source = Throw e ->
        _getSyncedBlockChildren src fuel (mkBlock id hc ty (PSyncedBlock sf ch))
        = Ok []) /\
     getBlock src source <> OutOfFuel) /\
  (sf = None ->
     _getSyncedBlockChildren src fuel (mkBlock id hc ty (PSyncedBlock sf ch))
     = getAllBlocksByBlockId src fuel id).
Proof.
  unfold _getSyncedBlockChildren, _getSyncedBlockChildren_body; simpl.
  split.
  - intros source -> Hne.
    assert (Ht : truthy_string source = true).
    { unfold truthy_string.
      destruct (String.eqb_spec source ""); [contradiction | reflexivity]. }
    rewrite Ht. repeat split.
    + intros original Ho. destruct (getBlock_Ok _ Ho) as (raw & Hr & _ & Hid).
      exists raw. rewrite Ho, Hid. auto.
    + intros e He. rewrite He. reflexivity.
    + apply getBlock_settles.
  - intros ->. reflexivity.
Qed.

End AssemblerFacts.

(** ** Fuel *)

Lemma bind_settled (A B : Type) (m m' : Res A) (k k' : A -> Res B) :
  (settled m -> m' = m) ->
  (forall a, settled (k a) -> k' a = k a) ->
  settled (bind m k) -> bind m' k' = bind m k.
Proof.
  intros Hm Hk. destruct m as [a| |]; simpl; intros Hs.
  - rewrite Hm by discriminate. simpl. auto.
  - rewrite Hm by discriminate. reflexivity.
  - exfalso. apply Hs. reflexivity.
Qed.

Lemma mapM_settled (A B : Type) (f f' : A -> Res B) (xs : list A) :
  (forall x, settled (f x) -> f' x = f x) ->
  settled (mapM f xs) -> mapM f' xs = mapM f xs.
Proof.
  intros Hf. induction xs as [|x xs IH]; simpl; auto.
  apply bind_settled; auto.
  intros y Hy. apply bind_settled; auto.
Qed.

Section FuelFacts.

Variable src : ContentSource.

Lemma listPages_settled (fuel : nat) :
  forall fuel' block_id cursor acc,
    (fuel <= fuel')%nat ->
    settled (listPages src fuel block_id cursor acc) ->
    listPages src fuel' block_id cursor acc
    = listPages src fuel block_id cursor acc.
Proof.
  induction fuel as [|f IH]; intros fuel' block_id cursor acc Hle Hs.
  - exfalso. apply Hs. reflexivity.
  - destruct fuel' as [|f']; [lia|]. cbn [listPages] in *.
    apply bind_settled; auto.
    intros res Hres. destruct (negb (has_more res)); auto.
    apply IH; [lia | exact Hres].
Qed.

Lemma listChildren_settled (fuel fuel' : nat) (blockId : string) :
  (fuel <= fuel')%nat ->
  settled (listChildren src fuel blockId) ->
  listChildren src fuel' blockId = listChildren src fuel blockId.
Proof.
  unfold listChildren. destruct (snapshot src blockId); auto.
  apply listPages_settled.
Qed.

Section Step.

Variables (self self' : string -> Res (list Block)) (fuel fuel' : nat).
Hypothesis Hself : forall id, settled (self id) -> self' id = self id.
Hypothesis Hfuel : (fuel <= fuel')%nat.

Lemma getTableRows_settled (blockId : string) :
  settled (_getTableRows src fuel blockId) ->
  _getTableRows src fuel' blockId = _getTableRows src fuel blockId.
Proof.
  unfold _getTableRows. apply bind_settled; auto.
  apply listChildren_settled; auto.
Qed.

Lemma getColumns_body_settled (blockId : string) :
  settled (_getColumns_body src self fuel blockId) ->
  _getColumns_body src self' fuel' blockId
  = _getColumns_body src self fuel blockId.
Proof.
  unfold _getColumns_body. apply bind_settled.
  - apply listChildren_settled; auto.
  - intros rs. apply mapM_settled. intros blockObject.
    apply bind_settled; auto.
Qed.

Lemma getSyncedBlockChildren_body_settled (block : Block) :
  settled (_getSyncedBlockChildren_body src self block) ->
  _getSyncedBlockChildren_body src self' block
  = _getSyncedBlockChildren_body src self block.
Proof.
  unfold _getSyncedBlockChildren_body.
  destruct (payload block); auto.
  destruct SyncedFrom as [BlockId|]; auto.
  destruct (truthy_string BlockId); auto.
  destruct (getBlock src BlockId); auto.
Qed.

Lemma fillChildren_settled (block : Block) :
  settled (fillChildren src self fuel block) ->
  fillChildren src self' fuel' block = fillChildren src self fuel block.
Proof.
  destruct block as [id hc ty p]. unfold fillChildren.
  pose proof (getTableRows_settled id) as Hrows.
  pose proof (getColumns_body_settled id) as Hcols.
  pose proof (getSyncedBlockChildren_body_settled
                (mkBlock id hc ty p)) as Hsync.
  pose proof (@Hself id) as Hid.
  destruct p; cbn [orElse]; rewrite ?if_same; cbn [orElse];
    try reflexivity;
    match goal with
    | |- context [String.eqb ty ?s] => destruct (String.eqb ty s)
    end; cbn [orElse]; try reflexivity;
    try (destruct hc; cbn [orElse]; try reflexivity);
    apply bind_settled; auto.
Qed.

End Step.

(** More fuel does not change what a settled assembly returned or threw. *)
Lemma getAllBlocksByBlockId_settled (fuel : nat) :
  forall fuel' blockId,
    (fuel <= fuel')%nat ->
    settled (getAllBlocksByBlockId src fuel blockId) ->
    getAllBlocksByBlockId src fuel' blockId
    = getAllBlocksByBlockId src fuel blockId.
Proof.
  induction fuel as [|f IH]; intros fuel' blockId Hle Hs.
  - exfalso. apply Hs. reflexivity.
  - destruct fuel' as [|f']; [lia|]. cbn [getAllBlocksByBlockId] in *.
    apply bind_settled; auto.
    + apply listChildren_settled. lia.
    + intros rs Hrs. apply bind_settled; auto.
      intros built. apply mapM_settled. intros block.
      apply fillChildren_settled; [|lia].
      intros id. apply IH. lia.
Qed.

End FuelFacts.

Lemma getAllBlocksByBlockId_children_witness :
  exists rs built,
    listChildren sampleSource 2 "root" = Ok rs /\
    mapM _buildBlock rs = Ok built /\
    Forall2 (assembledFrom sampleSource 2) built
      [ mkBlock "t1" false "toggle"
                (PToggle [] "default" [builtParagraph "c1"]);
        mkBlock "s1" false "synced_block"
                (PSyncedBlock (Some "orig") (Some [builtParagraph "o1"]));
        mkBlock "s2" false "synced_block"
                (PSyncedBlock (Some "gone") (Some []));
        builtParagraph "p1";
        mkBlock "d1" false "divider" PNone ].
Proof.
  apply (getAllBlocksByBlockId_children sampleSource 2 "root").
  vm_compute. reflexivity.
Defined.

(** Claim C2, as stated, fails on a toggle: the normalizer builds it with
    the has-children flag unset, and the assembler nevertheless lists the
    children of its id and stores them in its child slot; when that
    listing is refused, the assembly of the page throws. *)
Lemma toggle_expanded_without_flag :
  _buildBlock sampleToggle
    = Ok (mkBlock "t1" false "toggle" (PToggle [] "default" [])) /\
  HasChildren (mkBlock "t1" false "toggle" (PToggle [] "default" [])) = false /\
  getAllBlocksByBlockId toggleSource 3 "root"
    = Ok [mkBlock "t1" false "toggle"
                  (PToggle [] "default" [builtParagraph "c1"])] /\
  mkBlock "t1" false "toggle" (PToggle [] "default" [builtParagraph "c1"])
    <> mkBlock "t1" false "toggle" (PToggle [] "default" []) /\
  getAllBlocksByBlockId rateLimitedSource 3 "root"
    = Throw (APIResponseError (Some 429) "Rate limited").
Proof.
  split; [reflexivity|].
  split; [reflexivity|].
  split; [reflexivity|].
  split; [discriminate | reflexivity].
Qed.

Lemma getSyncedBlockChildren_cases_witness :
  _getSyncedBlockChildren sampleSource 2 (syncedTo "s1" "orig")
    = Ok [builtParagraph "o1"] /\
  _getSyncedBlockChildren sampleSource 2 (syncedTo "s2" "gone") = Ok [] /\
  _getSyncedBlockChildren sampleSource 2
    (mkBlock "orig" true "synced_block" (PSyncedBlock None None))
    = Ok [builtParagraph "o1"].
Proof.
  split; [|split].
  - destruct (getSyncedBlockChildren_cases sampleSource 2 "s1" false
                "synced_block" (Some "orig") None) as [H _].
    destruct (H "orig" eq_refl) as [H1 _]; [discriminate|].
    destruct (H1 (mkBlock "orig" true "synced_block" (PSyncedBlock None None))
                 eq_refl) as (raw & Hraw & _ & Heq).
    injection Hraw as <-.
    etransitivity; [exact Heq | reflexivity].
  - destruct (getSyncedBlockChildren_cases sampleSource 2 "s2" false
                "synced_block" (Some "gone") None) as [H _].
    destruct (H "gone" eq_refl) as (_ & H2 & _); [discriminate|].
    exact (H2 (APIResponseError (Some 404) "Not found") eq_refl).
  - destruct (getSyncedBlockChildren_cases sampleSource 2 "orig" true
                "synced_block" None None) as [_ H].
    etransitivity; [exact (H eq_refl) | reflexivity].
Defined.

(** ** Arrays *)

Section SortFacts.

Variables (A : Type) (compareFn : A -> A -> Z).

Lemma sort_insert_perm (x : A) (l : list A) :
  Permutation (sort_insert compareFn x l) (x :: l).
Proof.
  induction l as [|y l IH]; simpl; auto.
  destruct (compareFn x y <=? 0); auto.
  rewrite IH. apply perm_swap.
Qed.

Lemma js_sort_perm (l : list A) : Permutation (js_sort compareFn l) l.
Proof.
  induction l as [|x l IH]; simpl; auto.
  rewrite sort_insert_perm. auto.
Qed.

Lemma sort_insert_sorted (x : A) (l : list A) :
  consistent compareFn ->
  StronglySorted (fun a b => compareFn a b <= 0) l ->
  StronglySorted (fun a b => compareFn a b <= 0) (sort_insert compareFn x l).
Proof.
  intros [Htot Htrans]. induction 1 as [|y l Hs IH Hy]; simpl.
  - repeat constructor.
  - destruct (Z.leb_spec (compareFn x y) 0) as [Hle|Hgt].
    + constructor; [constructor; auto|].
      constructor; auto.
      rewrite Forall_forall in *. intros z Hz. eauto.
    + constructor; auto.
      assert (Hyx : compareFn y x <= 0) by (destruct (Htot x y); [lia|auto]).
      rewrite Forall_forall in *. intros z Hz.
      apply (Permutation_in _ (sort_insert_perm x l)) in Hz.
      destruct Hz as [<-|Hz]; auto.
Qed.

Lemma js_sort_sorted (l : list A) :
  consistent compareFn ->
  StronglySorted (fun a b => compareFn a b <= 0) (js_sort compareFn l).
Proof.
  intros Hc. induction l as [|x l IH]; simpl.
  - constructor.
  - apply sort_insert_sorted; auto.
Qed.

(** Stability: the elements of a class whose members never compare
    greater than one another keep their order. *)
Lemma sort_insert_stable (P : A -> bool) (x : A) (l : list A) :
  (forall a b, P a = true -> P b = true -> compareFn a b <= 0) ->
  filter P (sort_insert compareFn x l) = filter P (x :: l).
Proof.
  intros HP. induction l as [|y l IH]; simpl; auto.
  destruct (Z.leb_spec (compareFn x y) 0) as [Hle|Hgt]; simpl; auto.
  simpl in IH. rewrite IH.
  destruct (P x) eqn:Hx, (P y) eqn:Hy; auto.
  specialize (HP x y Hx Hy). exfalso. lia.
Qed.

Lemma js_sort_stable (P : A -> bool) (l : list A) :
  (forall a b, P a = true -> P b = true -> compareFn a b <= 0) ->
  filter P (js_sort compareFn l) = filter P l.
Proof.
  intros HP. induction l as [|x l IH]; simpl; auto.
  rewrite sort_insert_stable by auto. simpl. rewrite IH. reflexivity.
Qed.

End SortFacts.

Lemma js_slice_prefix (A : Type) (n : Z) (l : list A) :
  0 <= n -> js_slice 0 n l = firstn (Z.to_nat n) l.
Proof.
  intros Hn. unfold js_slice. simpl.
  destruct (Z.ltb_spec n 0) as [|_]; [lia|].
  rewrite (Z.min_l 0) by lia. simpl.
  rewrite Z.sub_0_r.
  destruct (Z.min_spec n (Z.of_nat (List.length l))) as [[Hlt ->]|[Hge ->]].
  - reflexivity.
  - rewrite Nat2Z.id. rewrite firstn_all.
    symmetry. apply firstn_all2. lia.
Qed.

(** ** The rank comparator *)

Lemma compareRank_le (a b : Post) :
  compareRank a b <= 0 <-> Rank a >= Rank b.
Proof.
  unfold compareRank.
  destruct (Z.gtb_spec (Rank a) (Rank b)), (Z.eqb_spec (Rank a) (Rank b)); lia.
Qed.

Lemma compareRank_consistent : consistent compareRank.
Proof.
  split.
  - intros a b. rewrite !compareRank_le. lia.
  - intros a b c. rewrite !compareRank_le. lia.
Qed.

Lemma StronglySorted_weaken (A : Type) (R R' : A -> A -> Prop) (l : list A) :
  (forall a b, R a b -> R' a b) ->
  StronglySorted R l -> StronglySorted R' l.
Proof.
  intros HR. induction 1 as [|x l Hs IH Hx]; constructor; auto.
  eapply Forall_impl; [|exact Hx]. auto.
Qed.

(** ** Collecting tags *)

Lemma seen_iff (n : string) (names : list string) :
  existsb (String.eqb n) names = true <-> In n names.
Proof.
  rewrite existsb_exists. split.
  - intros (x & Hx & E). apply String.eqb_eq in E. subst. exact Hx.
  - intros H. exists n. split; [exact H | apply String.eqb_refl].
Qed.

(** What the [reduce] of [getAllTags] accumulates, started from tags
    [acc] of distinct names with [tagNames] their names. *)
Lemma collectTag_fold (l : list SelectProperty) :
  forall acc,
    NoDup (map name acc) ->
    let res := fst (fold_left collectTag l (acc, map name acc)) in
    NoDup (map name res) /\
    (forall t, In t acc -> In t res) /\
    (forall t, In t l -> In (name t) (map name res)) /\
    (forall t, In t res ->
       In t acc \/
       exists before after,
         l = before ++ t :: after /\
         ~ In (name t) (map name before) /\
         ~ In (name t) (map name acc)).
Proof.
  induction l as [|t l IH]; intros acc Hnd; simpl.
  - repeat split; auto. intros t [].
  - destruct (existsb (String.eqb (name t)) (map name acc)) eqn:Hseen; simpl.
    + apply seen_iff in Hseen.
      destruct (IH acc Hnd) as (H1 & H2 & H3 & H4).
      repeat split; auto.
      * intros t0 [<-|Ht0]; auto.
        apply in_map_iff in Hseen as (t' & E & Ht').
        rewrite <- E. apply in_map. auto.
      * intros t0 Ht0.
        destruct (H4 t0 Ht0) as [Ha|(b & a & -> & Hb & Ha)]; auto.
        right. exists (t :: b), a. repeat split; auto.
        simpl. intros [E|Hin]; auto. apply Ha. rewrite <- E. exact Hseen.
    + assert (Hnot : ~ In (name t) (map name acc)).
      { intros Hin. apply seen_iff in Hin. congruence. }
      assert (Hnd' : NoDup (map name (acc ++ [t]))).
      { rewrite map_app. simpl. apply NoDup_app; auto.
        - repeat constructor. intros [].
        - intros x Hx [<-|[]]. auto. }
      destruct (IH (acc ++ [t]) Hnd') as (H1 & H2 & H3 & H4).
      rewrite map_app in H1, H2, H3, H4. simpl in H1, H2, H3, H4.
      repeat split; auto.
      * intros t0 Ht0. apply H2. apply in_or_app. auto.
      * intros t0 [<-|Ht0]; auto.
        apply in_map. apply H2. apply in_or_app. right. left. reflexivity.
      * intros t0 Ht0.
        destruct (H4 t0 Ht0) as [Ha|(b & a & -> & Hb & Ha)].
        -- apply in_app_or in Ha as [Ha|[<-|[]]]; auto.
           right. exists [], l. repeat split; auto.
        -- right. exists (t :: b), a. repeat split; auto.
           ++ simpl. intros [E|Hin]; auto.
              apply Ha. apply in_or_app. right. left. exact E.
           ++ intros Hin. apply Ha. apply in_or_app. auto.
Qed.

(** ** Filtering of page records *)

Lemma mapM_app (A B : Type) (f : A -> Res B) (xs ys : list A) :
  mapM f (xs ++ ys) =
  (xs' <- mapM f xs ;; ys' <- mapM f ys ;; Ok (xs' ++ ys')).
Proof.
  induction xs as [|x xs IH]; simpl.
  - destruct (mapM f ys); reflexivity.
  - destruct (f x); simpl; auto. rewrite IH.
    destruct (mapM f xs); simpl; auto.
    destruct (mapM f ys); simpl; auto.
Qed.

Lemma selectPosts_skips_invalid (title : string) (l1 l2 : list pages.PageObject)
      (r : pages.PageObject) :
  _validPageObject r = false ->
  selectPosts title (l1 ++ r :: l2) = selectPosts title (l1 ++ l2).
Proof.
  intros H. unfold selectPosts. rewrite !filter_app. simpl. rewrite H.
  reflexivity.
Qed.

Lemma buildPost_Meta (r : pages.PageObject) (p : Post) :
  _buildPost r = Ok p -> Meta p = metaFlag r.
Proof.
  unfold _buildPost. intros H.
  apply bind_Ok_inv in H as (cover & _ & H).
  apply bind_Ok_inv in H as (featured & _ & H).
  injection H as <-. reflexivity.
Qed.

Lemma postsOf_skips_meta (title : string) (l1 l2 : list pages.PageObject)
      (r : pages.PageObject) (ps : list Post) :
  metaFlag r = true ->
  postsOf title (l1 ++ r :: l2) = Ok ps ->
  postsOf title (l1 ++ l2) = Ok ps.
Proof.
  intros Hm. unfold postsOf, selectPosts. rewrite !filter_app. simpl.
  destruct (_validPageObject r); auto.
  rewrite !mapM_app. simpl.
  destruct (mapM _buildPost (filter _validPageObject l1)) as [a1| |];
    simpl; auto.
  destruct (_buildPost r) as [p| |] eqn:Hp; simpl; try discriminate.
  destruct (mapM _buildPost (filter _validPageObject l2)) as [a2| |];
    simpl; auto.
  rewrite !filter_app. simpl.
  rewrite (buildPost_Meta _ Hp), Hm. simpl. auto.
Qed.

Section PostFacts.

Variable Remote : Type.
Variable databases_query :
  Remote -> QueryDatabase -> (JsError + QueryDatabaseResponse) * Remote.
Variable SLUG_META_TITLE : string.
Variable NUMBER_OF_POSTS_PER_PAGE : Z.
Variable localeCompare : string -> string -> Z.

#[local] Abbreviation getAllPosts :=
  (getAllPosts databases_query SLUG_META_TITLE).
#[local] Abbreviation getTitleMeta :=
  (getTitleMeta databases_query SLUG_META_TITLE).
#[local] Abbreviation after := (after databases_query SLUG_META_TITLE
                          NUMBER_OF_POSTS_PER_PAGE localeCompare).
#[local] Abbreviation afterAll := (afterAll databases_query SLUG_META_TITLE
                                NUMBER_OF_POSTS_PER_PAGE localeCompare).

(** A call of [getAllPosts] that returned was let in by the lock. *)
Lemma getAllPosts_granted (lock : LockOutcome) (fuel : nat)
      (lang : LanguageKey) (w w1 : World Remote) (ps : list Post) :
  getAllPosts lock fuel lang w = (Ok ps, w1) ->
  getAllPosts Granted fuel lang w = (Ok ps, w1).
Proof. apply acquire_Ok. Qed.

(** A call that finds no cache entry returns the posts selected from the
    records the query loop accumulated. *)
Lemma getAllPosts_fresh (fuel : nat) (lang : LanguageKey) (w w1 : World Remote)
      (rs : list pages.PageObject) :
  postsCacheByLang w lang = None ->
  queryPages databases_query fuel
             {| q_lang := lang; q_start_cursor := None |} []
             (snd (record_fetch lang w)) = (Ok rs, w1) ->
  fst (getAllPosts Granted fuel lang w) = postsOf SLUG_META_TITLE rs.
Proof.
  intros Hc Hq.
  change (getAllPosts Granted fuel lang w)
    with (getAllPostsCore databases_query SLUG_META_TITLE fuel lang w).
  unfold getAllPostsCore. rewrite Hc.
  unfold fetchPostsAndMeta, bindM at 1 2 3. simpl in *. rewrite Hq.
  unfold lift, postsOf.
  destruct (selectPosts SLUG_META_TITLE rs); reflexivity.
Qed.

(** Claim C3, as amended.  Of the records the remote side returned, one
    whose title is empty leaves no trace in the output of [getAllPosts];
    one with a title, a slug and the meta flag set but no date passes
    [_validPageObject], and leaves no trace in the output either, since
    the post list keeps only the records whose meta flag is not set. *)
Theorem getAllPosts_filtering (lock : LockOutcome) (fuel : nat)
        (lang : LanguageKey)
        (w w1 w2 : World Remote) (l1 l2 : list pages.PageObject)
        (r : pages.PageObject) (ps : list Post) :
  postsCacheByLang w lang = None ->
  queryPages databases_query fuel
             {| q_lang := lang; q_start_cursor := None |} []
             (snd (record_fetch lang w)) = (Ok (l1 ++ r :: l2), w1) ->
  getAllPosts lock fuel lang w = (Ok ps, w2) ->
  (present_nonempty (pages.title (pages.Page (pages.properties r))) = false ->
     postsOf SLUG_META_TITLE (l1 ++ l2) = Ok ps) /\
  (present_nonempty (pages.title (pages.Page (pages.properties r))) = true ->
   present_nonempty (pages.rich_text (pages.Slug (pages.properties r)))
     = true ->
   pages.checkbox (pages.Meta (pages.properties r)) = Some true ->
   pages.date (pages.Date (pages.properties r)) = None ->
     _validPageObject r = true /\
     postsOf SLUG_META_TITLE (l1 ++ l2) = Ok ps).
Proof.
  intros Hc Hq Hget. apply getAllPosts_granted in Hget.
  pose proof (getAllPosts_fresh _ _ _ Hc Hq) as Hf.
  rewrite Hget in Hf. simpl in Hf. symmetry in Hf.
  split.
  - intros Ht. unfold postsOf in *.
    rewrite selectPosts_skips_invalid in Hf; auto.
    unfold _validPageObject. rewrite Ht. reflexivity.
  - intros Ht Hs Hm Hd. split.
    + unfold _validPageObject. rewrite Ht, Hs, Hd. reflexivity.
    + apply postsOf_skips_meta with (r := r); auto.
      unfold metaFlag. rewrite Hm. reflexivity.
Qed.

(** ** The cache *)

Lemma keeps_refl (lang : LanguageKey) (w : World Remote) : keeps lang w w.
Proof. intros e H; auto. Qed.

Lemma keeps_trans (lang : LanguageKey) (w1 w2 w3 : World Remote) :
  keeps lang w1 w2 -> keeps lang w2 w3 -> keeps lang w1 w3.
Proof.
  intros H12 H23 e H. destruct (H12 e H) as [H2 E2].
  destruct (H23 e H2) as [H3 E3]. split; congruence.
Qed.

(** The query loop touches the remote side only. *)
Lemma retryFrom_frame (n : nat) (params : QueryDatabase) :
  forall errors rejected (w : World Remote),
    postsCacheByLang
      (snd (retryFrom n (query_once databases_query params)
                      errors rejected w))
      = postsCacheByLang w /\
    fetched
      (snd (retryFrom n (query_once databases_query params)
                      errors rejected w))
      = fetched w.
Proof.
  assert (Hq : forall w : World Remote,
             postsCacheByLang (snd (query_once databases_query params w))
               = postsCacheByLang w /\
             fetched (snd (query_once databases_query params w))
               = fetched w).
  { intros w. unfold query_once.
    destruct (databases_query (remote w) params); simpl; auto. }
  induction n as [|n IH]; intros errors rejected w; cbn [retryFrom];
    destruct (Hq w) as [H1 H2];
    destruct (query_once databases_query params w) as [[e|a] w'];
    simpl in *; auto.
  match goal with
  | |- context [retryFrom n _ ?es ?rj ?w0] =>
      destruct (IH es rj w0) as [H3 H4]
  end.
  split; congruence.
Qed.

Lemma retryM_frame (n : nat) (params : QueryDatabase) (w : World Remote) :
  postsCacheByLang (snd (retryM databases_query n params w))
    = postsCacheByLang w /\
  fetched (snd (retryM databases_query n params w)) = fetched w.
Proof. apply retryFrom_frame. Qed.

Lemma queryPages_frame (fuel : nat) (params : QueryDatabase)
      (acc : list pages.PageObject) (w : World Remote) :
  postsCacheByLang (snd (queryPages databases_query fuel params acc w))
    = postsCacheByLang w /\
  fetched (snd (queryPages databases_query fuel params acc w)) = fetched w.
Proof.
  revert params acc w. induction fuel as [|f IH]; intros params acc w.
  - simpl. auto.
  - cbn [queryPages]. unfold bindM.
    pose proof (retryM_frame numberOfRetry params w) as [H1 H2].
    destruct (retryM databases_query numberOfRetry params w) as [[res| |] w'];
      cbn [snd fst] in *; auto.
    destruct (negb (q_has_more res)); [unfold ret; simpl; auto|].
    destruct (IH {| q_lang := q_lang params;
                    q_start_cursor := q_next_cursor res |}
                 (acc ++ q_results res) w') as [H3 H4].
    split; congruence.
Qed.

Lemma fetchCount_other (lang lang' : LanguageKey) (log : list LanguageKey) :
  lang <> lang' ->
  List.length (filter (LanguageKey_eqb lang) (log ++ [lang'])) =
  List.length (filter (LanguageKey_eqb lang) log).
Proof.
  intros Hne. rewrite filter_app, length_app. simpl.
  destruct lang, lang'; simpl; try contradiction; lia.
Qed.

Lemma fetchCount_same (lang : LanguageKey) (log : list LanguageKey) :
  List.length (filter (LanguageKey_eqb lang) (log ++ [lang])) =
  S (List.length (filter (LanguageKey_eqb lang) log)).
Proof.
  rewrite filter_app, length_app. simpl. destruct lang; simpl; lia.
Qed.

(** The state after [fetchPostsAndMeta]: the cache as before, one more
    entry in the trace. *)
Lemma fetchPostsAndMeta_frame (fuel : nat) (lang : LanguageKey)
      (w : World Remote) :
  postsCacheByLang
    (snd (fetchPostsAndMeta databases_query SLUG_META_TITLE fuel lang w))
    = postsCacheByLang w /\
  fetched
    (snd (fetchPostsAndMeta databases_query SLUG_META_TITLE fuel lang w))
    = fetched w ++ [lang].
Proof.
  unfold fetchPostsAndMeta, bindM, record_fetch, lift. cbn beta iota.
  match goal with
  | |- context [queryPages databases_query ?f ?p ?a ?w0] =>
      pose proof (queryPages_frame f p a w0) as [H1 H2];
      destruct (queryPages databases_query f p a w0) as [[rs| |] w']
  end; simpl in *; auto.
Qed.

Lemma getAllPostsCore_cached (fuel : nat) (lang : LanguageKey)
      (w : World Remote) (e : PostsAndMeta) :
  postsCacheByLang w lang = Some e ->
  getAllPostsCore databases_query SLUG_META_TITLE fuel lang w
  = (Ok (posts e), w).
Proof. intros H. unfold getAllPostsCore. rewrite H. reflexivity. Qed.

(** What a completed call of [getAllPostsCore] leaves behind. *)
Lemma getAllPostsCore_Ok (fuel : nat) (lang : LanguageKey)
      (w w1 : World Remote) (ps : list Post) :
  getAllPostsCore databases_query SLUG_META_TITLE fuel lang w = (Ok ps, w1) ->
  (exists e, postsCacheByLang w1 lang = Some e /\ posts e = ps) /\
  (postsCacheByLang w lang = None ->
     fetchCount lang w1 = S (fetchCount lang w)).
Proof.
  unfold getAllPostsCore.
  destruct (postsCacheByLang w lang) as [e|] eqn:Hc.
  - unfold ret. intros H; injection H as <- <-. split; [eauto|discriminate].
  - unfold bindM at 1.
    pose proof (fetchPostsAndMeta_frame fuel lang w) as [H1 H2].
    destruct (fetchPostsAndMeta databases_query SLUG_META_TITLE fuel lang w)
      as [[pm| |] w']; try discriminate.
    unfold bindM, cache_set, ret. simpl. intros H; injection H as <- <-.
    simpl in *. split.
    + exists pm. destruct lang; auto.
    + intros _. unfold fetchCount. simpl. rewrite H2. apply fetchCount_same.
Qed.

Lemma cache_miss_other (lang lang' : LanguageKey) (w : World Remote)
      (e : PostsAndMeta) :
  postsCacheByLang w lang = Some e -> postsCacheByLang w lang' = None ->
  lang <> lang' /\ LanguageKey_eqb lang lang' = false.
Proof.
  intros H1 H2. destruct lang, lang'; simpl; split; congruence.
Qed.

Lemma getAllPostsCore_keeps (fuel : nat) (lang lang' : LanguageKey)
      (w : World Remote) :
  keeps lang w
    (snd (getAllPostsCore databases_query SLUG_META_TITLE fuel lang' w)).
Proof.
  intros e He. unfold getAllPostsCore.
  destruct (postsCacheByLang w lang') as [e'|] eqn:Hc; [simpl; auto|].
  destruct (cache_miss_other _ _ _ He Hc) as [Hne Hb].
  unfold bindM, cache_set, ret.
  pose proof (fetchPostsAndMeta_frame fuel lang' w) as [H1 H2].
  destruct (fetchPostsAndMeta databases_query SLUG_META_TITLE fuel lang' w)
    as [[pm| |] w']; simpl in *; unfold fetchCount;
    rewrite ?H1, ?H2, ?Hb; simpl; rewrite ?H2, ?fetchCount_other by auto;
    auto.
Qed.

Lemma getTitleMetaCore_keeps (fuel : nat) (lang lang' : LanguageKey)
      (w : World Remote) :
  keeps lang w
    (snd (getTitleMetaCore databases_query SLUG_META_TITLE fuel lang' w)).
Proof.
  intros e He. unfold getTitleMetaCore.
  destruct (postsCacheByLang w lang') as [e'|] eqn:Hc; [simpl; auto|].
  destruct (cache_miss_other _ _ _ He Hc) as [Hne Hb].
  unfold bindM, cache_set, ret.
  pose proof (fetchPostsAndMeta_frame fuel lang' w) as [H1 H2].
  destruct (fetchPostsAndMeta databases_query SLUG_META_TITLE fuel lang' w)
    as [[pm| |] w']; simpl in *; unfold fetchCount;
    rewrite ?H1, ?H2, ?Hb; simpl; rewrite ?H2, ?fetchCount_other by auto;
    auto.
Qed.

Lemma allLanguagesLoop_keeps (fuel : nat) (lang : LanguageKey)
      (langs : list LanguageKey) :
  forall acc w,
    keeps lang w
      (snd (allLanguagesLoop databases_query SLUG_META_TITLE fuel langs acc w)).
Proof.
  induction langs as [|l langs IH]; intros acc w; simpl.
  - apply keeps_refl.
  - unfold bindM.
    pose proof (getAllPostsCore_keeps fuel lang l w) as Hk.
    destruct (getAllPostsCore databases_query SLUG_META_TITLE fuel l w)
      as [[ps| |] w']; simpl in *; auto.
    eapply keeps_trans; [exact Hk | apply IH].
Qed.

(** A derived accessor changes the state as its call of [getAllPosts]
    does. *)
Lemma derived_state (A : Type) (f : list Post -> A) (lock : LockOutcome)
      (fuel : nat) (lang : LanguageKey) (w : World Remote) :
  snd (bindM (getAllPosts lock fuel lang)
             (fun allPosts => ret (f allPosts)) w)
  = snd (getAllPosts lock fuel lang w).
Proof.
  unfold bindM.
  destruct (getAllPosts lock fuel lang w) as [[ps| |] w']; reflexivity.
Qed.

(** Whatever the lock does with a caller, the state is the one before
    the call or the one its function leaves. *)
Lemma acquire_keeps (A : Type) (lock : LockOutcome) (lang : LanguageKey)
      (fn : M Remote A) (w : World Remote) :
  keeps lang w (snd (fn w)) ->
  keeps lang w (snd (acquire ASYNC_LOCK_POSTS lock fn w)).
Proof.
  destruct lock as [|[]]; simpl; auto; intros _; apply keeps_refl.
Qed.

Lemma after_keeps (lock : LockOutcome) (fuel : nat) (c : Call)
      (lang : LanguageKey) (w : World Remote) :
  keeps lang w (after lock fuel c w).
Proof.
  destruct c; simpl;
    unfold getPosts, getRankedPosts, getPostBySlug, getPostByPageId,
           getPostsByTag, getPostsByPage, getPostsByTagAndPage,
           getNumberOfPages, getNumberOfPagesByTag, getAllTags;
    try match goal with
        | |- context [if ?c then _ else _] => destruct c
        end;
    rewrite ?derived_state;
    first [ apply keeps_refl
          | apply acquire_keeps;
            first [ apply getAllPostsCore_keeps
                  | apply getTitleMetaCore_keeps
                  | apply allLanguagesLoop_keeps ] ].
Qed.

Lemma afterAll_keeps (calls : list (LockOutcome * nat * Call))
      (lang : LanguageKey) :
  forall w, keeps lang w (afterAll calls w).
Proof.
  induction calls as [|[[lock fuel] c] calls IH]; intros w; simpl.
  - apply keeps_refl.
  - eapply keeps_trans; [apply after_keeps | apply IH].
Qed.

(** A call that finds the entry of its language in the cache: the posts
    of the entry if the lock lets it in, the rejection of the lock
    otherwise, and the state is left as it was. *)
Lemma getAllPosts_cached (lock : LockOutcome) (fuel : nat)
      (lang : LanguageKey) (w : World Remote) (e : PostsAndMeta) :
  postsCacheByLang w lang = Some e ->
  getAllPosts lock fuel lang w
  = (match lock with
     | Granted => Ok (posts e)
     | Rejected rejection => Throw (LockError ASYNC_LOCK_POSTS rejection)
     end, w).
Proof.
  intros He. unfold getAllPosts.
  destruct lock as [|[]]; cbn [acquire];
    rewrite ?(getAllPostsCore_cached _ _ _ He); reflexivity.
Qed.

(** Claim C8, as amended.  Once a call of [getAllPosts] for a language
    has returned, then after any further calls into the module, whatever
    the lock does with them and whatever they return or throw, a call of
    [getAllPosts] for that language returns the same list if the lock
    lets it in, and throws the rejection of the lock if it does not:
    that the queue is full, that the call waited too long, or that too
    long went by since the call.  In either case the state is left
    as it is, and no further fetch for that language has been made; the
    call that returned made exactly one fetch for the language if it
    found no cache entry. *)
Theorem getAllPosts_memoized (lock : LockOutcome) (fuel : nat)
        (lang : LanguageKey) (w w1 : World Remote) (ps : list Post) :
  getAllPosts lock fuel lang w = (Ok ps, w1) ->
  (postsCacheByLang w lang = None ->
     fetchCount lang w1 = S (fetchCount lang w)) /\
  forall (calls : list (LockOutcome * nat * Call))
         (lock' : LockOutcome) (fuel' : nat),
    getAllPosts lock' fuel' lang (afterAll calls w1)
    = (match lock' with
       | Granted => Ok ps
       | Rejected rejection => Throw (LockError ASYNC_LOCK_POSTS rejection)
       end, afterAll calls w1) /\
    fetchCount lang (afterAll calls w1) = fetchCount lang w1.
Proof.
  intros H. apply acquire_Ok in H.
  apply getAllPostsCore_Ok in H as [(e & He & Hps) Hcount].
  split; auto.
  intros calls lock' fuel'.
  destruct (afterAll_keeps calls lang w1 He) as [He' Hc'].
  split; auto.
  rewrite (getAllPosts_cached _ _ _ _ He'), Hps. reflexivity.
Qed.

(** ** Ranked posts *)

Lemma derived_result (A : Type) (f : list Post -> A) (lock : LockOutcome)
      (fuel : nat) (lang : LanguageKey) (w w1 : World Remote)
      (ps : list Post) :
  getAllPosts lock fuel lang w = (Ok ps, w1) ->
  bindM (getAllPosts lock fuel lang) (fun allPosts => ret (f allPosts)) w
  = (Ok (f ps), w1).
Proof. intros H. unfold bindM. rewrite H. reflexivity. Qed.

Lemma derived_granted (A : Type) (f : list Post -> A) (fuel : nat)
      (lang : LanguageKey) (w w1 : World Remote) (ps : list Post) :
  getAllPosts Granted fuel lang w = (Ok ps, w1) ->
  bindM (getAllPosts Granted fuel lang) (fun allPosts => ret (f allPosts)) w
  = (Ok (f ps), w1).
Proof. apply derived_result. Qed.

(** Claim C7, as amended.  [getRankedPosts] returns the posts whose rank
    is not zero, ordered by rank descending, posts of equal rank in the
    order of the cached list, cut by [slice(0, pageSize)], which for a
    page size that is not negative keeps the first [pageSize] entries;
    for ranks [3, 5, 5, 0] that is the second, the third and the first
    post. *)
Theorem getRankedPosts_ranking (lock : LockOutcome) (fuel : nat)
        (lang : LanguageKey)
        (pageSize : Z) (w w1 : World Remote) (ps : list Post) :
  getAllPosts lock fuel lang w = (Ok ps, w1) ->
  exists sorted,
    getRankedPosts databases_query SLUG_META_TITLE lock fuel lang pageSize w
      = (Ok (js_slice 0 pageSize sorted), w1) /\
    Permutation sorted (filter (fun p => negb (Rank p =? 0)) ps) /\
    StronglySorted (fun a b => Rank a >= Rank b) sorted /\
    (forall r, filter (fun p => Rank p =? r) sorted
               = filter (fun p => Rank p =? r)
                        (filter (fun p => negb (Rank p =? 0)) ps)) /\
    (0 <= pageSize ->
       js_slice 0 pageSize sorted = firstn (Z.to_nat pageSize) sorted) /\
    (forall p1 p2 p3 p4,
       ps = [p1; p2; p3; p4] ->
       Rank p1 = 3 -> Rank p2 = 5 -> Rank p3 = 5 -> Rank p4 = 0 ->
       3 <= pageSize ->
       js_slice 0 pageSize sorted = [p2; p3; p1]).
Proof.
  intros H.
  exists (js_sort compareRank (filter (fun p => truthy_number (Rank p)) ps)).
  split; [|split; [|split; [|split; [|split]]]].
  - unfold getRankedPosts.
    apply (derived_result (fun a => rankedOf a pageSize) _ _ _ _ H).
  - apply js_sort_perm.
  - apply StronglySorted_weaken
      with (R := fun a b => compareRank a b <= 0).
    + intros a b. apply compareRank_le.
    + apply js_sort_sorted. apply compareRank_consistent.
  - intros r. apply js_sort_stable.
    intros a b Ha Hb. apply compareRank_le.
    apply Z.eqb_eq in Ha, Hb. lia.
  - apply js_slice_prefix.
  - intros p1 p2 p3 p4 -> H1 H2 H3 H4 Hn.
    rewrite js_slice_prefix by lia.
    cbn [filter]. unfold truthy_number. rewrite H1, H2, H3, H4.
    cbn [Z.eqb negb js_sort sort_insert].
    assert (E23 : compareRank p2 p3 = 0)
      by (unfold compareRank; rewrite H2, H3; reflexivity).
    assert (E12 : compareRank p1 p2 = 1)
      by (unfold compareRank; rewrite H1, H2; reflexivity).
    assert (E13 : compareRank p1 p3 = 1)
      by (unfold compareRank; rewrite H1, H3; reflexivity).
    rewrite E23. cbn [Z.leb Z.compare sort_insert]. rewrite E12, E13. cbn.
    destruct (Z.to_nat pageSize) as [|[|[|n]]] eqn:En; try lia.
    simpl. destruct n; reflexivity.
Qed.

(** ** Number of pages *)

(** Claim C9.  With a positive page size, [getNumberOfPages] returns the
    ceiling of the number of posts over the page size, which is the
    floor of the quotient plus one when the remainder is not zero: 3 for
    25 posts and 2 for 20 posts at size 10. *)
Theorem getNumberOfPages_ceiling (lock : LockOutcome) (fuel : nat)
        (lang : LanguageKey)
        (w w1 : World Remote) (ps : list Post) :
  0 < NUMBER_OF_POSTS_PER_PAGE ->
  getAllPosts lock fuel lang w = (Ok ps, w1) ->
  exists k,
    getNumberOfPages databases_query SLUG_META_TITLE NUMBER_OF_POSTS_PER_PAGE
                     lock fuel lang w = (Ok (Finite k), w1) /\
    is_ceiling k (Z.of_nat (List.length ps)) NUMBER_OF_POSTS_PER_PAGE /\
    k = Z.of_nat (List.length ps) / NUMBER_OF_POSTS_PER_PAGE +
        (if Z.of_nat (List.length ps) mod NUMBER_OF_POSTS_PER_PAGE =? 0
         then 0 else 1) /\
    (NUMBER_OF_POSTS_PER_PAGE = 10 -> List.length ps = 25%nat -> k = 3) /\
    (NUMBER_OF_POSTS_PER_PAGE = 10 -> List.length ps = 20%nat -> k = 2).
Proof.
  intros Hn H.
  set (len := Z.of_nat (List.length ps)).
  set (n := NUMBER_OF_POSTS_PER_PAGE) in *.
  assert (Hlen : 0 <= len) by (unfold len; lia).
  exists (len / n + (if len mod n =? 0 then 0 else 1)).
  assert (Hval : numberOfPagesOf n ps
                 = Finite (len / n + (if len mod n =? 0 then 0 else 1))).
  { unfold numberOfPagesOf, floor_div, remainder_positive. fold len.
    destruct (Z.eqb_spec n 0) as [|_]; [lia|]. simpl. f_equal. f_equal.
    rewrite Z.rem_mod_nonneg by lia.
    pose proof (Z.mod_pos_bound len n Hn).
    destruct (Z.eqb_spec (len mod n) 0), (Z.gtb_spec (len mod n) 0); lia. }
  split; [|split; [|split; [|split]]].
  - unfold getNumberOfPages.
    rewrite (derived_result (numberOfPagesOf n) _ _ _ _ H), Hval.
    reflexivity.
  - pose proof (Z.div_mod len n ltac:(lia)) as Hdm.
    pose proof (Z.mod_pos_bound len n Hn) as Hb.
    unfold is_ceiling.
    destruct (Z.eqb_spec (len mod n) 0) as [E|E]; split; try intros j Hj; nia.
  - reflexivity.
  - intros En El. unfold len. rewrite En, El. reflexivity.
  - intros En El. unfold len. rewrite En, El. reflexivity.
Qed.

(** ** Tags *)

(** Claim C10.  [getAllTags] returns tags of the cached posts, one for
    each tag name that occurs, namely the first tag of that name in post
    order; no two entries have the same name; and, the collation being a
    consistent comparator, the entries are in ascending order of their
    names. *)
Theorem getAllTags_distinct_sorted (lock : LockOutcome) (fuel : nat)
        (lang : LanguageKey)
        (w w1 : World Remote) (ps : list Post) :
  getAllPosts lock fuel lang w = (Ok ps, w1) ->
  exists ts,
    getAllTags databases_query SLUG_META_TITLE localeCompare lock fuel lang w
      = (Ok ts, w1) /\
    NoDup (map name ts) /\
    (forall t, In t (flat_map Tags ps) -> In (name t) (map name ts)) /\
    (forall t, In t ts ->
       exists before after,
         flat_map Tags ps = before ++ t :: after /\
         ~ In (name t) (map name before)) /\
    (consistent localeCompare ->
       StronglySorted (fun a b => localeCompare (name a) (name b) <= 0) ts).
Proof.
  intros H. exists (tagsOf localeCompare ps).
  destruct (collectTag_fold (flat_map Tags ps) [] (NoDup_nil _))
    as (H1 & _ & H3 & H4). simpl in H1, H3, H4.
  set (collected := fst (fold_left collectTag (flat_map Tags ps) ([], [])))
    in *.
  assert (Hperm : Permutation (tagsOf localeCompare ps) collected)
    by apply js_sort_perm.
  split; [|split; [|split; [|split]]].
  - unfold getAllTags.
    apply (derived_result (tagsOf localeCompare) _ _ _ _ H).
  - apply (Permutation_NoDup (Permutation_sym (Permutation_map name Hperm))).
    exact H1.
  - intros t Ht.
    apply (Permutation_in _ (Permutation_sym (Permutation_map name Hperm))).
    auto.
  - intros t Ht. apply (Permutation_in _ Hperm) in Ht.
    destruct (H4 t Ht) as [[]|(b & a & E & Hb & _)]. eauto.
  - intros [Htot Htrans]. unfold tagsOf.
    apply js_sort_sorted
      with (compareFn := fun a b => localeCompare (name a) (name b)).
    split; eauto.
Qed.

(** *** Fuel *)

Lemma queryPages_settled (fuel : nat) :
  forall fuel' params acc (w : World Remote),
    (fuel <= fuel')%nat ->
    settled (fst (queryPages databases_query fuel params acc w)) ->
    queryPages databases_query fuel' params acc w
    = queryPages databases_query fuel params acc w.
Proof.
  induction fuel as [|f IH]; intros fuel' params acc w Hle Hs.
  - exfalso. apply Hs. reflexivity.
  - destruct fuel' as [|f']; [lia|]. cbn [queryPages] in *.
    unfold bindM in *.
    destruct (retryM databases_query numberOfRetry params w)
      as [[res| |] w']; auto.
    destruct (negb (q_has_more res)); auto.
    apply IH; [lia | exact Hs].
Qed.

(** More fuel does not change what a settled call of [getAllPosts]
    returned or threw, nor the state it left. *)
Lemma getAllPosts_settled (fuel fuel' : nat) (lang : LanguageKey)
      (w : World Remote) :
  (fuel <= fuel')%nat ->
  settled (fst (getAllPosts Granted fuel lang w)) ->
  getAllPosts Granted fuel' lang w = getAllPosts Granted fuel lang w.
Proof.
  intros Hle.
  change (getAllPosts Granted fuel lang w)
    with (getAllPostsCore databases_query SLUG_META_TITLE fuel lang w).
  change (getAllPosts Granted fuel' lang w)
    with (getAllPostsCore databases_query SLUG_META_TITLE fuel' lang w).
  unfold getAllPostsCore.
  destruct (postsCacheByLang w lang); auto.
  unfold fetchPostsAndMeta, bindM, record_fetch. cbn beta iota.
  match goal with
  | |- context [queryPages databases_query fuel ?p ?a ?w0] =>
      pose proof (@queryPages_settled fuel fuel' p a w0 Hle) as Hq;
      destruct (queryPages databases_query fuel p a w0) as [[rs| |] w'] eqn:E
  end; intros Hs.
  - rewrite Hq by (simpl; discriminate). reflexivity.
  - rewrite Hq by (simpl; discriminate). reflexivity.
  - exfalso. apply Hs. reflexivity.
Qed.

End PostFacts.


Lemma getAllPosts_filtering_witness :
  postsOf "site-title" [pageA; pageB; pageC; pageD; pageE]
    = Ok [postA; postB; postC; postD; postE] /\
  _validPageObject metaPage = true.
Proof.
  pose (w := initialWorld tt).
  split.
  - destruct (@getAllPosts_filtering unit sampleDatabase "site-title"
                Granted 1 ja w
                _ _ [metaPage] [pageA; pageB; pageC; pageD; pageE]
                untitledPage [postA; postB; postC; postD; postE]
                eq_refl eq_refl eq_refl) as [H _].
    exact (H eq_refl).
  - destruct (@getAllPosts_filtering unit sampleDatabase "site-title"
                Granted 1 ja w
                _ _ [] [untitledPage; pageA; pageB; pageC; pageD; pageE]
                metaPage [postA; postB; postC; postD; postE]
                eq_refl eq_refl eq_refl) as [_ H].
    exact (proj1 (H eq_refl eq_refl eq_refl eq_refl)).
Defined.

(** Claim C3, as stated, fails on a settings record: it has a title, a
    slug and the meta flag and no date, it passes [_validPageObject],
    and [getAllPosts] returns no post for it. *)
Lemma meta_record_not_in_posts :
  _validPageObject metaPage = true /\
  _buildPost metaPage
    = Ok {| PageId := "m"; Title := "Site"; PostIcon := None;
            PostCover := None; Slug := "site-title"; Date := "";
            Tags := []; Excerpt := ""; FeaturedImage := None; Rank := 0;
            Meta := true |} /\
  fst (getAllPosts (fun (r : unit) (_ : QueryDatabase) =>
                      (inr {| q_results := [metaPage]; q_has_more := false;
                              q_next_cursor := None |}, r))
                   "site-title" Granted 1 ja (initialWorld tt)) = Ok [].
Proof.
  split; [reflexivity|]. split; reflexivity.
Qed.

(** ** The sample database *)

Lemma codeUnitCompare_consistent : consistent codeUnitCompare.
Proof.
  assert (Hle : forall a b, codeUnitCompare a b <= 0 <->
                            (String_as_OT.lt a b \/ a = b)).
  { intros a b. unfold codeUnitCompare.
    rewrite <- String_as_OT.cmp_lt, <- String_as_OT.cmp_eq.
    unfold String_as_OT.cmp.
    destruct (String.compare a b); split; intros H; try lia; auto;
      destruct H; discriminate. }
  split.
  - intros a b. unfold codeUnitCompare.
    rewrite (String.compare_antisym a b).
    destruct (String.compare b a); simpl; lia.
  - intros a b c. rewrite !Hle.
    intros [Hab| ->] [Hbc| ->]; auto.
    left. eapply String_as_OT.lt_trans; eauto.
Qed.

Lemma getRankedPosts_ranking_witness :
  exists sorted,
    getRankedPosts sampleDatabase "site-title" Granted 1 ja 10 (initialWorld tt)
      = (Ok (js_slice 0 10 sorted), sampleWorld) /\
    Permutation sorted
      (filter (fun p => negb (Rank p =? 0))
              [postA; postB; postC; postD; postE]) /\
    StronglySorted (fun a b => Rank a >= Rank b) sorted /\
    (forall r, filter (fun p => Rank p =? r) sorted
               = filter (fun p => Rank p =? r)
                   (filter (fun p => negb (Rank p =? 0))
                           [postA; postB; postC; postD; postE])) /\
    (0 <= 10 -> js_slice 0 10 sorted = firstn (Z.to_nat 10) sorted) /\
    (forall p1 p2 p3 p4,
       [postA; postB; postC; postD; postE] = [p1; p2; p3; p4] ->
       Rank p1 = 3 -> Rank p2 = 5 -> Rank p3 = 5 -> Rank p4 = 0 ->
       3 <= 10 ->
       js_slice 0 10 sorted = [p2; p3; p1]).
Proof.
  exact (@getRankedPosts_ranking unit sampleDatabase "site-title" Granted
           1 ja 10
           (initialWorld tt) sampleWorld
           [postA; postB; postC; postD; postE] eq_refl).
Defined.

(** Claim C7, as stated, fails on a post of negative rank: its rank is
    not greater than zero, and [getRankedPosts] returns it. *)
Lemma negative_rank_is_ranked :
  fst (getRankedPosts sampleDatabase "site-title" Granted 1 ja 10
                      (initialWorld tt))
    = Ok [postB; postC; postA; postE] /\
  Rank postE = -1 /\ ~ Rank postE > 0.
Proof.
  split; [reflexivity|]. split; [reflexivity|]. simpl. lia.
Qed.

Lemma getAllPosts_memoized_witness :
  (postsCacheByLang (initialWorld tt) ja = None ->
     fetchCount ja sampleWorld = S (fetchCount ja (initialWorld tt))) /\
  forall (calls : list (LockOutcome * nat * Call))
         (lock' : LockOutcome) (fuel' : nat),
    getAllPosts sampleDatabase "site-title" lock' fuel' ja
        (afterAll sampleDatabase "site-title" 10 codeUnitCompare calls
                  sampleWorld)
      = (match lock' with
         | Granted => Ok [postA; postB; postC; postD; postE]
         | Rejected rejection => Throw (LockError "posts" rejection)
         end,
         afterAll sampleDatabase "site-title" 10 codeUnitCompare calls
                  sampleWorld) /\
    fetchCount ja
        (afterAll sampleDatabase "site-title" 10 codeUnitCompare calls
                  sampleWorld)
      = fetchCount ja sampleWorld.
Proof.
  exact (@getAllPosts_memoized unit sampleDatabase "site-title" 10
           codeUnitCompare Granted 1 ja (initialWorld tt) sampleWorld
           [postA; postB; postC; postD; postE] eq_refl).
Defined.

(** Claim C8, as stated, fails on a call that finds the queue of the
    lock full: a call for [ja] has returned the posts, and a later call
    for [ja] throws instead of returning them. *)
Lemma later_call_turned_away :
  getAllPosts sampleDatabase "site-title" Granted 1 ja (initialWorld tt)
    = (Ok [postA; postB; postC; postD; postE], sampleWorld) /\
  forall fuel' : nat,
    getAllPosts sampleDatabase "site-title" (Rejected TooManyPending)
                fuel' ja sampleWorld
    = (Throw (LockError "posts" TooManyPending), sampleWorld).
Proof.
  split; [reflexivity|]. intros fuel'. reflexivity.
Qed.

Lemma getNumberOfPages_ceiling_witness :
  exists k,
    getNumberOfPages sampleDatabase "site-title" 10 Granted 1 ja
                     (initialWorld tt)
      = (Ok (Finite k), sampleWorld) /\
    is_ceiling k 5 10 /\
    k = 5 / 10 + (if 5 mod 10 =? 0 then 0 else 1) /\
    (10 = 10 -> 5%nat = 25%nat -> k = 3) /\
    (10 = 10 -> 5%nat = 20%nat -> k = 2).
Proof.
  exact (@getNumberOfPages_ceiling unit sampleDatabase "site-title" 10
           Granted 1 ja
           (initialWorld tt) sampleWorld
           [postA; postB; postC; postD; postE] eq_refl eq_refl).
Defined.

Lemma getAllTags_distinct_sorted_witness :
  exists ts,
    getAllTags sampleDatabase "site-title" codeUnitCompare Granted 1 ja
               (initialWorld tt)
      = (Ok ts, sampleWorld) /\
    NoDup (map name ts) /\
    (forall t, In t (flat_map Tags [postA; postB; postC; postD; postE]) ->
               In (name t) (map name ts)) /\
    (forall t, In t ts ->
       exists before after,
         flat_map Tags [postA; postB; postC; postD; postE]
           = before ++ t :: after /\
         ~ In (name t) (map name before)) /\
    (consistent codeUnitCompare ->
       StronglySorted (fun a b => codeUnitCompare (name a) (name b) <= 0) ts).
Proof.
  exact (@getAllTags_distinct_sorted unit sampleDatabase "site-title"
           codeUnitCompare Granted 1 ja (initialWorld tt) sampleWorld
           [postA; postB; postC; postD; postE] eq_refl).
Defined.

Example getAllTags_sample :
  fst (getAllTags sampleDatabase "site-title" codeUnitCompare Granted 1 ja
                  (initialWorld tt))
  = Ok [tag "astro"; tag "notion"; tag "rocq"].
Proof. reflexivity. Qed.

(** ** List grouping *)

Module GroupingFacts.
Import NotionBlocks GroupingSpec.

Lemma snoc_cases (A : Type) (l : list A) :
  l = [] \/ exists init x, l = init ++ [x].
Proof.
  destruct l as [|a l]; [left; reflexivity|right].
  destruct (@exists_last _ (a :: l)) as (init & x & E); [discriminate|].
  eauto.
Qed.

Lemma lastOf_snoc (init : list Node) (x : Node) :
  lastOf (init ++ [x]) = Some x.
Proof.
  unfold lastOf. rewrite length_app. simpl.
  replace (List.length init + 1 - 1)%nat with (List.length init) by lia.
  rewrite nth_error_app2 by lia. rewrite Nat.sub_diag. reflexivity.
Qed.

Lemma pushInto_snoc (init : list Node) (x : Node) (l : List) (b : Block) :
  pushInto (init ++ [x]) l b =
  init ++ [NList {| ListType := ListType l; ListItems := ListItems l ++ [b] |}].
Proof.
  unfold pushInto. rewrite length_app. simpl.
  replace (List.length init + 1 - 1)%nat with (List.length init) by lia.
  rewrite firstn_app, firstn_all, Nat.sub_diag. simpl.
  rewrite app_nil_r. reflexivity.
Qed.

(** The three tests of the callback are those of [itemKind]. *)
Lemma step_block (arr : list Node) (b : Block) (i : nat) :
  step arr (NBlock b) i =
  match itemKind b with
  | Some k => groupItem k arr (if Nat.eqb i 0 then None else lastOf arr) b
  | None => Ok (arr ++ [NBlock b])
  end.
Proof.
  unfold step, itemKind.
  destruct (BlockType b =? "bulleted_list_item")%string; auto.
  destruct (BlockType b =? "numbered_list_item")%string; auto.
  destruct (BlockType b =? "to_do")%string; auto.
Qed.

Lemma tag_injective (k1 k2 : ListKind) :
  ListKind_tag k1 = ListKind_tag k2 -> k1 = k2.
Proof. destruct k1, k2; simpl; intros H; try discriminate H; reflexivity. Qed.

Lemma tag_is_list_tag (k : ListKind) : In (ListKind_tag k) list_tags.
Proof. destruct k; simpl; auto. Qed.

Lemma runsMaximal_snoc (init : list Node) (x y : Node) :
  runsMaximal (init ++ [x]) -> ~ sameList x y ->
  runsMaximal (init ++ [x; y]).
Proof.
  induction init as [|a init IH]; simpl; intros H Hxy.
  - tauto.
  - destruct H as [Ha Hrest]. split; [|auto].
    destruct init as [|c init]; simpl in *; auto.
Qed.

Lemma runsMaximal_last (init : list Node) (l l' : List) :
  runsMaximal (init ++ [NList l]) -> ListType l' = ListType l ->
  runsMaximal (init ++ [NList l']).
Proof.
  induction init as [|a init IH]; simpl; intros H E.
  - tauto.
  - destruct H as [Ha Hrest]. split; [|auto].
    destruct init as [|c init]; simpl in *; auto.
    destruct a; auto. simpl in *. rewrite E. exact Ha.
Qed.

Lemma itemKind_plain (b : Block) (k : ListKind) :
  itemKind b = Some k -> ~ In (BlockType b) list_tags.
Proof.
  unfold itemKind.
  destruct (String.eqb_spec (BlockType b) "bulleted_list_item") as [->|_];
    [intros _ H; in_cases H|].
  destruct (String.eqb_spec (BlockType b) "numbered_list_item") as [->|_];
    [intros _ H; in_cases H|].
  destruct (String.eqb_spec (BlockType b) "to_do") as [->|_];
    [intros _ H; in_cases H|].
  discriminate.
Qed.

(** One step on a block, from an accumulator that satisfies the
    invariant. *)
Lemma step_grouped (arr : list Node) (b : Block) (i : nat) :
  (i = 0%nat -> arr = []) -> grouped arr ->
  ~ In (BlockType b) list_tags ->
  exists arr',
    step arr (NBlock b) i = Ok arr' /\
    flat_map blocksOf arr' = flat_map blocksOf arr ++ [b] /\
    grouped arr' /\ arr' <> [].
Proof.
  intros Hi (Hwf & Hmax & Hplain) Hb. rewrite step_block.
  assert (Hprev : (if Nat.eqb i 0 then None else lastOf arr) = lastOf arr).
  { destruct i; simpl; auto. rewrite Hi; auto. }
  rewrite Hprev. clear Hprev Hi.
  destruct (itemKind b) as [k|] eqn:Hk.
  - assert (Hnew : wellGrouped (NList {| ListType := k; ListItems := [b] |})).
    { simpl. split; [discriminate|]. constructor; auto. }
    destruct (snoc_cases arr) as [->|(init & x & ->)].
    + simpl. eexists. split; [reflexivity|].
      split; [reflexivity|]. split; [|discriminate].
      split; [|split]; simpl; auto.
    + rewrite lastOf_snoc. unfold groupItem.
      apply Forall_app in Hwf as [Hwf1 Hwfx].
      apply Forall_app in Hplain as [Hp1 Hpx].
      inversion Hwfx as [|? ? Hx _]; subst.
      inversion Hpx as [|? ? Hpl _]; subst.
      destruct (String.eqb_spec (nodeType x) (ListKind_tag k)) as [E|NE].
      * destruct x as [b'|l]; simpl in *.
        { exfalso. apply Hpl. rewrite E. apply tag_is_list_tag. }
        apply tag_injective in E. rewrite pushInto_snoc.
        eexists. split; [reflexivity|].
        split; [|split; [split; [|split]|]].
        -- rewrite !flat_map_app. simpl. rewrite !app_nil_r, app_assoc.
           reflexivity.
        -- apply Forall_app. split; auto. constructor; auto. simpl.
           destruct Hx as [Hne Hall]. split.
           ++ destruct (ListItems l); discriminate.
           ++ apply Forall_app. split; auto. constructor; auto. congruence.
        -- eapply runsMaximal_last; eauto.
        -- apply Forall_app; split; auto; constructor; simpl; auto.
        -- destruct init; discriminate.
      * eexists. split; [reflexivity|].
        split; [|split; [split; [|split]|]].
        -- rewrite !flat_map_app. simpl. rewrite !app_nil_r.
           reflexivity.
        -- apply Forall_app; split; [apply Forall_app; auto|];
             constructor; auto.
        -- rewrite <- app_assoc. simpl. apply runsMaximal_snoc; auto.
           destruct x as [b'|l]; simpl; auto. intros E. apply NE. simpl.
           rewrite E. reflexivity.
        -- apply Forall_app; split; [apply Forall_app; auto|];
             constructor; simpl; auto.
        -- destruct init; discriminate.
  - eexists. split; [reflexivity|].
    split; [|split; [split; [|split]|]].
    + rewrite flat_map_app. simpl. reflexivity.
    + apply Forall_app; split; auto; constructor; simpl; auto.
    + destruct (snoc_cases arr) as [->|(init & x & ->)]; simpl; auto.
      rewrite <- app_assoc. simpl. apply runsMaximal_snoc; auto.
      destruct x; simpl; auto.
    + apply Forall_app; split; auto; constructor; simpl; auto.
    + destruct arr; discriminate.
Qed.

Lemma reduceFrom_grouped (bs : list Block) :
  forall arr i,
    (i = 0%nat -> arr = []) -> grouped arr ->
    Forall (fun b => ~ In (BlockType b) list_tags) bs ->
    exists out,
      reduceFrom i arr (map NBlock bs) = Ok out /\
      flat_map blocksOf out = flat_map blocksOf arr ++ bs /\
      grouped out.
Proof.
  induction bs as [|b bs IH]; intros arr i Hi Hg Hbs; cbn [map reduceFrom].
  - exists arr. rewrite app_nil_r. auto.
  - inversion Hbs as [|? ? Hb Hrest]; subst.
    destruct (@step_grouped arr b i Hi Hg Hb)
      as (arr' & Hstep & Hflat & Hg' & Hne).
    rewrite Hstep. cbn [bind].
    destruct (IH arr' (S i)) as (out & Hout & Hflat' & Hgo); auto.
    { discriminate. }
    exists out. repeat split; auto; try apply Hgo.
    rewrite Hflat', Hflat, <- app_assoc. reflexivity.
Qed.

(** Claim C4.  On a sequence of blocks, none of which poses as a List,
    the pass returns a sequence that spells out the input in order, in
    which every block that is not a list item stands for itself, every
    List is not empty and holds items of its own kind only, and no two
    neighbours are Lists of the same kind, so that every List holds a
    maximal run; two bulleted items, a paragraph and a numbered item
    become a bulleted list of two, the paragraph, and a numbered list of
    one. *)
Theorem blocks_groups_runs (bs : list Block) :
  Forall (fun b => ~ In (BlockType b) list_tags) bs ->
  exists out,
    blocks (map NBlock bs) = Ok out /\
    flat_map blocksOf out = bs /\
    Forall wellGrouped out /\
    runsMaximal out /\
    (forall b1 b2 p n,
       bs = [b1; b2; p; n] ->
       BlockType b1 = "bulleted_list_item"%string ->
       BlockType b2 = "bulleted_list_item"%string ->
       BlockType p = "paragraph"%string ->
       BlockType n = "numbered_list_item"%string ->
       out = [ NList {| ListType := bulleted_list; ListItems := [b1; b2] |};
               NBlock p;
               NList {| ListType := numbered_list; ListItems := [n] |} ]).
Proof.
  intros Hbs.
  destruct (@reduceFrom_grouped bs [] 0%nat) as (out & Hout & Hflat & Hg);
    auto.
  { repeat split; constructor. }
  exists out. destruct Hg as (Hwf & Hmax & _).
  repeat split; auto.
  intros b1 b2 p n -> H1 H2 Hp Hn.
  destruct b1 as [i1 h1 t1 p1], b2 as [i2 h2 t2 p2], p as [i3 h3 t3 p3],
           n as [i4 h4 t4 p4].
  simpl in H1, H2, Hp, Hn. subst.
  cbv in Hout. injection Hout as <-. reflexivity.
Qed.

Lemma Forall_firstn (A : Type) (P : A -> Prop) (l : list A) :
  forall n, Forall P l -> Forall P (firstn n l).
Proof.
  induction l as [|x l IH]; intros [|n] H; simpl; auto.
  inversion H; subst. constructor; auto.
Qed.

(** Whatever the input, the pass leaves no list item standing alone. *)
Lemma step_no_items (arr arr' : list Node) (n : Node) (i : nat) :
  Forall (fun m => itemNode m = false) arr ->
  step arr n i = Ok arr' ->
  Forall (fun m => itemNode m = false) arr'.
Proof.
  intros Harr. destruct n as [b|l].
  - rewrite step_block. destruct (itemKind b) as [k|] eqn:Hk.
    + unfold groupItem.
      destruct (if Nat.eqb i 0 then None else lastOf arr) as [prev|];
        [destruct (nodeType prev =? ListKind_tag k)%string;
         [destruct prev as [b'|l]; [discriminate|]|]|];
        intros H; injection H as <-.
      * unfold pushInto. apply Forall_app. split;
          [apply Forall_firstn; auto | repeat constructor].
      * apply Forall_app. split; [auto | repeat constructor].
      * apply Forall_app. split; [auto | repeat constructor].
    + intros H; injection H as <-.
      apply Forall_app. split; auto. constructor; auto.
      simpl. rewrite Hk. reflexivity.
  - simpl. intros H; injection H as <-.
    apply Forall_app. split; auto.
Qed.

Lemma reduceFrom_no_items (rawBlocks : list Node) :
  forall arr i out,
    Forall (fun m => itemNode m = false) arr ->
    reduceFrom i arr rawBlocks = Ok out ->
    Forall (fun m => itemNode m = false) out.
Proof.
  induction rawBlocks as [|n rest IH]; intros arr i out Harr;
    cbn [reduceFrom].
  - intros H; injection H as <-. exact Harr.
  - intros H. apply bind_Ok_inv in H as (arr' & Hstep & H).
    eapply IH; [|exact H]. eapply step_no_items; eauto.
Qed.

(** Elements that are not list items pass through. *)
Lemma reduceFrom_passes (rawBlocks : list Node) :
  forall arr i,
    Forall (fun m => itemNode m = false) rawBlocks ->
    reduceFrom i arr rawBlocks = Ok (arr ++ rawBlocks).
Proof.
  induction rawBlocks as [|n rest IH]; intros arr i H; cbn [reduceFrom].
  - rewrite app_nil_r. reflexivity.
  - inversion H as [|? ? Hn Hrest]; subst.
    assert (Hstep : step arr n i = Ok (arr ++ [n])).
    { destruct n as [b|l]; [|reflexivity].
      rewrite step_block. simpl in Hn.
      destruct (itemKind b); [discriminate|reflexivity]. }
    rewrite Hstep. cbn [bind]. rewrite IH by auto.
    rewrite <- app_assoc. reflexivity.
Qed.

(** Claim C5.  The pass applied to its own output returns it unchanged;
    and applied to blocks none of which is a list item, it returns them
    unchanged. *)
Theorem blocks_idempotent :
  (forall rawBlocks out,
     blocks rawBlocks = Ok out -> blocks out = Ok out) /\
  (forall bs,
     Forall (fun b => itemKind b = None) bs ->
     blocks (map NBlock bs) = Ok (map NBlock bs)).
Proof.
  split.
  - intros rawBlocks out H.
    apply reduceFrom_no_items in H; [|constructor].
    unfold blocks. rewrite reduceFrom_passes by exact H. reflexivity.
  - intros bs H. unfold blocks. rewrite reduceFrom_passes; [reflexivity|].
    induction H as [|b bs Hb _ IH]; simpl; constructor; auto.
    simpl. rewrite Hb. reflexivity.
Qed.

Lemma blocks_groups_runs_witness :
  exists out,
    blocks (map NBlock sampleSequence) = Ok out /\
    flat_map blocksOf out = sampleSequence /\
    Forall wellGrouped out /\
    runsMaximal out /\
    (forall b1 b2 p n,
       sampleSequence = [b1; b2; p; n] ->
       BlockType b1 = "bulleted_list_item"%string ->
       BlockType b2 = "bulleted_list_item"%string ->
       BlockType p = "paragraph"%string ->
       BlockType n = "numbered_list_item"%string ->
       out = [ NList {| ListType := bulleted_list; ListItems := [b1; b2] |};
               NBlock p;
               NList {| ListType := numbered_list; ListItems := [n] |} ]).
Proof.
  apply (blocks_groups_runs (bs := sampleSequence)).
  repeat constructor; simpl; intros H; in_cases H.
Defined.

Lemma blocks_idempotent_witness :
  blocks sampleGrouped = Ok sampleGrouped /\
  blocks (map NBlock [builtParagraph "p1"; builtParagraph "p2"])
    = Ok (map NBlock [builtParagraph "p1"; builtParagraph "p2"]).
Proof.
  destruct blocks_idempotent as [H1 H2]. split.
  - apply (H1 (map NBlock sampleSequence) sampleGrouped). reflexivity.
  - apply H2. repeat constructor.
Defined.

End GroupingFacts.

(* ================================================================== *)
(** * Further properties *)

(** ** The normalizer on every discriminant *)

Lemma handled_kinds_spec (s : string) :
  In s handled_kinds <-> existsb (String.eqb s) handled_kinds = true.
Proof.
  rewrite existsb_exists. split.
  - intros H. exists s. split; [exact H | apply String.eqb_refl].
  - intros (x & Hx & E). apply String.eqb_eq in E. subst. exact Hx.
Qed.

(** The envelope of a built block: id, has-children flag and type tag. *)
Lemma buildBlock_header (blockObject : responses.BlockObject) (b : Block) :
  _buildBlock blockObject = Ok b ->
  Id b = responses.id blockObject /\
  HasChildren b = responses.has_children blockObject /\
  (BlockType b = responses.type blockObject \/
   (responses.type blockObject = "link_to_page"%string /\
    BlockType b = "unsupported"%string /\ payload b = PNone)).
Proof.
  destruct blockObject as [id ty hc m]; unfold _buildBlock; simpl.
  repeat match goal with
  | |- context [String.eqb ty ?s] =>
      destruct (String.eqb_spec ty s) as [->|?NE];
      [ intros H; split_matches H; injection H as <-; simpl;
        repeat split; auto
      | ]
  end.
  intros H; injection H as <-. simpl. repeat split; auto.
Qed.

(** For a handled discriminant kept as tag, the member is stored under
    that name. *)
Lemma buildBlock_payloadTag (blockObject : responses.BlockObject)
      (b : Block) :
  _buildBlock blockObject = Ok b ->
  In (responses.type blockObject) handled_kinds ->
  BlockType b = responses.type blockObject ->
  payloadTag (payload b) = Some (responses.type blockObject).
Proof.
  destruct blockObject as [id ty hc m]; unfold _buildBlock; simpl.
  repeat match goal with
  | |- context [String.eqb ty ?s] =>
      destruct (String.eqb_spec ty s) as [->|?NE];
      [ intros H; split_matches H; injection H as <-; simpl;
        auto; intros _ K; discriminate K
      | ]
  end.
  intros H; injection H as <-. simpl.
  intros K _. exfalso.
  repeat (destruct K as [K|K]; [symmetry in K; contradiction|]).
  exact K.
Qed.

(** Property X1.  What [_buildBlock] returns copies the id and the
    has-children flag.  Its type tag is the discriminant of the object,
    with one exception: a [link_to_page] whose member has no page id, or
    an empty one, is tagged [unsupported] and carries no member, while a
    [link_to_page] with a page id keeps its tag and carries the type and
    the page id of the link.  For a handled discriminant kept as tag, the
    member is stored under that name. *)
Theorem buildBlock_envelope (blockObject : responses.BlockObject) (b : Block) :
  _buildBlock blockObject = Ok b ->
  Id b = responses.id blockObject /\
  HasChildren b = responses.has_children blockObject /\
  (responses.type blockObject <> "link_to_page"%string ->
   BlockType b = responses.type blockObject) /\
  (responses.type blockObject = "link_to_page"%string ->
   (forall lty page_id,
      responses.member blockObject
      = Some (responses.m_link_to_page lty (Some page_id)) ->
      truthy_string page_id = true ->
      BlockType b = "link_to_page"%string /\
      payload b = PLinkToPage lty page_id) /\
   (forall lty pid,
      responses.member blockObject
      = Some (responses.m_link_to_page lty pid) ->
      pid = None \/ pid = Some ""%string ->
      BlockType b = "unsupported"%string /\ payload b = PNone)) /\
  (In (responses.type blockObject) handled_kinds ->
   BlockType b = responses.type blockObject ->
   payloadTag (payload b) = Some (responses.type blockObject)).
Proof.
  intros H. destruct (buildBlock_header _ H) as (Hid & Hhc & Hty).
  split; [exact Hid|]. split; [exact Hhc|]. split; [|split].
  - intros NE. destruct Hty as [E|(E & _)]; [exact E | contradiction].
  - intros E. destruct blockObject as [id ty hc m]. simpl in *. subst ty.
    unfold _buildBlock in H. simpl in H. split.
    + intros lty page_id -> Ht. rewrite Ht in H. injection H as <-.
      split; reflexivity.
    + intros lty pid -> [-> | ->]; simpl in H; injection H as <-;
        split; reflexivity.
  - apply buildBlock_payloadTag. exact H.
Qed.

Lemma buildBlock_envelope_witness :
  let b := mkBlock "l1" false "link_to_page" (PLinkToPage "page_id" "p1") in
  Id b = "l1"%string /\
  HasChildren b = false /\
  ("link_to_page"%string <> "link_to_page"%string ->
   BlockType b = "link_to_page"%string) /\
  ("link_to_page"%string = "link_to_page"%string ->
   (forall lty page_id,
      Some (responses.m_link_to_page "page_id" (Some "p1"%string))
      = Some (responses.m_link_to_page lty (Some page_id)) ->
      truthy_string page_id = true ->
      BlockType b = "link_to_page"%string /\
      payload b = PLinkToPage lty page_id) /\
   (forall lty pid,
      Some (responses.m_link_to_page "page_id" (Some "p1"%string))
      = Some (responses.m_link_to_page lty pid) ->
      pid = None \/ pid = Some ""%string ->
      BlockType b = "unsupported"%string /\ payload b = PNone)) /\
  (In "link_to_page"%string handled_kinds ->
   BlockType b = "link_to_page"%string ->
   payloadTag (payload b) = Some "link_to_page"%string).
Proof.
  exact (@buildBlock_envelope
           (responses.mkBlockObject
              "l1" "link_to_page" false
              (Some (responses.m_link_to_page "page_id" (Some "p1"%string))))
           _ eq_refl).
Defined.

(** The two outcomes of a [link_to_page]: with a page id the link is
    kept, without one the block is tagged [unsupported]. *)
Example buildBlock_link_to_page :
  _buildBlock (responses.mkBlockObject
                 "l1" "link_to_page" false
                 (Some (responses.m_link_to_page "page_id"
                                                 (Some "p1"%string))))
  = Ok (mkBlock "l1" false "link_to_page" (PLinkToPage "page_id" "p1")) /\
  _buildBlock (responses.mkBlockObject
                 "l2" "link_to_page" false
                 (Some (responses.m_link_to_page "database_id" None)))
  = Ok (mkBlock "l2" false "unsupported" PNone).
Proof. split; reflexivity. Qed.

(** The only exception of the normalizer is a [TypeError], and it always
    settles. *)
Lemma buildBlock_failure (blockObject : responses.BlockObject) :
  _buildBlock blockObject <> OutOfFuel /\
  forall e, _buildBlock blockObject = Throw e -> e = TypeError.
Proof.
  destruct blockObject as [id ty hc m]; unfold _buildBlock; simpl.
  repeat match goal with
  | |- context [String.eqb ty ?s] =>
      destruct (String.eqb ty s);
      [ split; [intros H | intros e H]; split_matches H;
        solve [discriminate H | injection H as <-; reflexivity]
      | ]
  end.
  split; [discriminate | intros e H; discriminate H].
Qed.

(** Property X2.  [_buildBlock] throws exactly when the discriminant is one
    of the case labels other than [column_list] and the object does not carry
    the member of that name; what it throws is a [TypeError]. *)
Theorem buildBlock_throws_iff (blockObject : responses.BlockObject) :
  (forall e, _buildBlock blockObject = Throw e -> e = TypeError) /\
  (_buildBlock blockObject = Throw TypeError <->
   In (responses.type blockObject) handled_kinds /\
   responses.type blockObject <> "column_list"%string /\
   carriesMember blockObject = false).
Proof.
  split; [apply buildBlock_failure|].
  rewrite handled_kinds_spec.
  destruct blockObject as [id ty hc m]; unfold _buildBlock, carriesMember;
    simpl.
  repeat match goal with
  | |- context C [if String.eqb ty ?s then _ else _] =>
      destruct (String.eqb_spec ty s) as [->|?NE];
      [ destruct m as [[]|]; simpl;
        repeat match goal with
               | |- context [match ?x with _ => _ end] => destruct x
               end;
        (split; [intros H | intros (H1 & H2 & H3)]);
        first [ discriminate | contradiction | reflexivity
              | repeat split; (reflexivity || discriminate) ]
      | ]
  end.
  split; [discriminate|].
  intros (H & _). exfalso. simpl in H.
  repeat match type of H with
         | context [String.eqb ty ?s] =>
             destruct (String.eqb_spec ty s); [contradiction|]
         end.
  discriminate H.
Qed.

(** ** Rich text *)

(** Property X3.  A rich-text span built by [_buildRichText] copies the plain
    text, the link and the annotation flags, and holds at most one of text,
    equation and mention, the one its type names; a mention refers to a page
    only when its own type is [page]. *)
Theorem buildRichText_one_payload (r : responses.RichTextObject) :
  PlainText (_buildRichText r) = responses.plain_text r /\
  Href (_buildRichText r) = responses.href r /\
  Bold (RtAnnotation (_buildRichText r))
    = responses.bold (responses.annotations r) /\
  Italic (RtAnnotation (_buildRichText r))
    = responses.italic (responses.annotations r) /\
  Strikethrough (RtAnnotation (_buildRichText r))
    = responses.strikethrough (responses.annotations r) /\
  Underline (RtAnnotation (_buildRichText r))
    = responses.underline (responses.annotations r) /\
  Code (RtAnnotation (_buildRichText r))
    = responses.code (responses.annotations r) /\
  Color (RtAnnotation (_buildRichText r))
    = responses.color (responses.annotations r) /\
  (RtText (_buildRichText r) <> None ->
     responses.rt_type r = "text"%string /\
     RtEquation (_buildRichText r) = None /\
     RtMention (_buildRichText r) = None) /\
  (RtEquation (_buildRichText r) <> None ->
     responses.rt_type r = "equation"%string /\
     RtText (_buildRichText r) = None /\
     RtMention (_buildRichText r) = None) /\
  (forall m, RtMention (_buildRichText r) = Some m ->
     responses.rt_type r = "mention"%string /\
     RtText (_buildRichText r) = None /\
     RtEquation (_buildRichText r) = None /\
     (Page m <> None -> MentionType m = "page"%string)).
Proof.
  destruct r as [ty pt hr an tx eq mn]. unfold _buildRichText. simpl.
  destruct (String.eqb_spec ty "text"), tx as [t|];
    destruct (String.eqb_spec ty "equation"), eq as [q|];
    destruct (String.eqb_spec ty "mention"), mn as [[mt pg]|];
    simpl;
    try destruct (String.eqb_spec mt "page");
    try destruct pg;
    simpl; repeat split; intros;
    repeat match goal with
           | H : Some _ = Some _ |- _ => injection H as <-
           end;
    simpl in *; subst; try congruence; try discriminate.
Qed.

(** ** Media members *)

(** Property X4.  In a video, image or file block that [_buildBlock] returns,
    an external URL is present only when the member's type is [external], a
    hosted file only when it is [file] (and never in a video), and the two
    are never present together. *)
Theorem buildBlock_media (blockObject : responses.BlockObject) (b : Block) :
  _buildBlock blockObject = Ok b ->
  match payload b with
  | PVideo _ ty ext => ext <> None -> ty = "external"%string
  | PImage _ ty ext fl | PFile _ ty ext fl =>
      (ext <> None -> ty = "external"%string /\ fl = None) /\
      (forall f, fl = Some f ->
         ty = "file"%string /\ FileType f = "file"%string /\ ext = None)
  | _ => True
  end.
Proof.
  destruct blockObject as [id ty hc m]; unfold _buildBlock; simpl.
  repeat match goal with
  | |- context [String.eqb ty ?s] =>
      destruct (String.eqb ty s);
      [ intros H;
        repeat match type of H with
               | context [match ?x with _ => _ end] =>
                   destruct x eqn:?; try discriminate H
               | context [if ?c then _ else _] =>
                   destruct c eqn:?; try discriminate H
               end;
        injection H as <-; simpl; auto;
        repeat match goal with
               | E : String.eqb _ _ = true |- _ =>
                   apply String.eqb_eq in E
               end;
        repeat split; intros;
        repeat match goal with
               | K : Some _ = Some _ |- _ => injection K as <-
               | K : ?x <> ?x |- _ => contradiction K; reflexivity
               end;
        simpl; try congruence; try discriminate
      | ]
  end.
  intros H; injection H as <-. exact I.
Qed.

Lemma buildBlock_media_witness :
  (@None string <> None ->
   "file"%string = "external"%string /\
   Some (build_file "file" (responses.mkFileRef "https://host/a.png" "2030"))
   = None) /\
  (forall f,
     Some (build_file "file" (responses.mkFileRef "https://host/a.png" "2030"))
       = Some f ->
     "file"%string = "file"%string /\ FileType f = "file"%string /\
     @None string = None).
Proof.
  exact (@buildBlock_media
           (rawBlock "i1" "image" false
              (Some (responses.m_image None "file" None
                       (Some (responses.mkFileRef
                                "https://host/a.png" "2030")))))
           _ eq_refl).
Defined.

(** ** Transport *)

Section RetryFacts.

Variable Remote : Type.
Variable databases_query :
  Remote -> QueryDatabase -> (JsError + QueryDatabaseResponse) * Remote.

Lemma counting_answer (state : Remote * nat) (params : QueryDatabase)
      (answer : JsError + QueryDatabaseResponse) (r' : Remote) :
  databases_query (fst state) params = (answer, r') ->
  counting databases_query state params = (answer, (r', S (snd state))).
Proof. intros E. unfold counting. rewrite E. reflexivity. Qed.

(** The main error is one of the recorded errors. *)
Lemma mainErrorFrom_Some (errors : list JsError) :
  forall counts main c,
    main <> None \/ errors <> [] /\ c = 0%nat ->
    exists e, mainErrorFrom errors counts main c = Some e.
Proof.
  induction errors as [|x l IH]; intros counts main c H; cbn [mainErrorFrom].
  - destruct H as [H|[H _]]; [|contradiction].
    destruct main as [e|]; [eauto|contradiction].
  - destruct H as [H|[_ ->]].
    + destruct (_ <=? _)%nat; apply IH; left; [discriminate|exact H].
    + cbn [Nat.leb]. apply IH. left. discriminate.
Qed.

Lemma mainError_Some (errors : list JsError) :
  errors <> [] -> exists e, mainError errors = Some e.
Proof. intros H. apply mainErrorFrom_Some. right. auto. Qed.

Lemma attempts_S (params : QueryDatabase) (k : nat) (r : Remote) :
  attempts databases_query params (S k) r
  = match databases_query r params with
    | (inr a, _) => [inr a]
    | (inl error, r') => inl error :: attempts databases_query params k r'
    end.
Proof. reflexivity. Qed.

Lemma query_once_counting (w : World (Remote * nat)) (params : QueryDatabase)
      (answer : JsError + QueryDatabaseResponse) (r' : Remote) :
  databases_query (fst (remote w)) params = (answer, r') ->
  query_once (counting databases_query) params w
  = (answer,
     {| postsCacheByLang := postsCacheByLang w;
        remote := (r', S (snd (remote w)));
        fetched := fetched w |}).
Proof.
  intros E. unfold query_once.
  rewrite (@counting_answer (remote w) params _ _ E). reflexivity.
Qed.

(** One retried query against a counting endpoint, from any point of the
    retry operation. *)
Lemma retryFrom_attempts (params : QueryDatabase) (retries : nat) :
  forall (errors : list JsError) (rejected : option JsError)
         (w : World (Remote * nat)),
    let result := retryFrom retries
                    (query_once (counting databases_query) params)
                    errors rejected w in
    let outcomes :=
      attempts databases_query params (S retries) (fst (remote w)) in
    let bailed := match rejected with
                  | Some b => Some b
                  | None => find bails (errorsOf outcomes)
                  end in
    queries (snd result) = (queries w + List.length outcomes)%nat /\
    (1 <= List.length outcomes <= S retries)%nat /\
    (forall b, bailed = Some b -> fst result = Throw b) /\
    (bailed = None ->
     forall a, answerOf outcomes = Some a -> fst result = Ok a) /\
    (bailed = None -> answerOf outcomes = None ->
     List.length outcomes = S retries /\
     exists e, mainError (errors ++ errorsOf outcomes) = Some e /\
               fst result = Throw e).
Proof.
  induction retries as [|n IH]; intros errors rejected w;
    cbn zeta; cbn [retryFrom];
    rewrite (attempts_S params _ (fst (remote w)));
    destruct (databases_query (fst (remote w)) params) as [[e|a] r'] eqn:E;
    rewrite (@query_once_counting w params _ _ E); unfold queries;
    cbn [fst snd remote errorsOf answerOf List.length find].
  - cbn [attempts errorsOf answerOf List.length find].
    split; [lia|]. split; [lia|].
    destruct rejected as [b0|]; [|destruct (bails e) eqn:B];
      (split; [intros b H; try discriminate H; injection H as <-;
               reflexivity|]);
      (split; [intros H; discriminate H || (intros a0 H0; discriminate H0)|]);
      intros H; try discriminate H; intros _; split; [reflexivity|];
      destruct (@mainError_Some (errors ++ [e])) as [m Hm];
      [destruct errors; discriminate|]; exists m; rewrite Hm; auto.
  - split; [lia|]. split; [lia|].
    destruct rejected as [b0|];
      (split; [intros b H; try discriminate H; injection H as <-;
               reflexivity|]);
      (split; [intros H; try discriminate H; intros a0 H0;
               injection H0 as <-; reflexivity|]);
      intros H; try discriminate H; intros H0; discriminate H0.
  - match goal with
    | |- context [retryFrom n _ ?es ?rj ?w0] =>
        destruct (IH es rj w0) as (H1 & H2 & H3 & H4 & H5);
        unfold queries in H1; cbn [fst snd remote] in H1, H2, H3, H4, H5
    end.
    split; [lia|]. split; [lia|].
    rewrite <- app_assoc in H5. cbn [app] in H5.
    destruct rejected as [b0|].
    + split; [exact H3|]. split; [exact H4|].
      intros H; discriminate H.
    + destruct (bails e) eqn:B.
      * split; [exact H3|]. split; intros H; discriminate H.
      * split; [exact H3|]. split; [exact H4|].
        intros Hb Ha. destruct (H5 Hb Ha) as [L R]. split; [lia|exact R].
  - split; [lia|]. split; [lia|].
    destruct rejected as [b0|];
      (split; [intros b H; try discriminate H; injection H as <-;
               reflexivity|]);
      (split; [intros H; try discriminate H; intros a0 H0;
               injection H0 as <-; reflexivity|]);
      intros H; try discriminate H; intros H0; discriminate H0.
Qed.

(** Property X5.  One retried query calls the endpoint until it answers
    or until [retries + 1] calls were made, also after the callback
    bailed out on a client error (status 4xx).  If one of those calls
    failed with a client error, the first such error is thrown, whatever
    the later calls gave.  Otherwise the first answer is returned, or,
    when all [retries + 1] calls failed, the main error of the retry
    operation is thrown, which need not be the last error: of three
    errors of which only the first two have the same message, it is the
    second. *)
Theorem retryM_attempts (retries : nat) (params : QueryDatabase)
        (w : World (Remote * nat)) :
  let result := retryM (counting databases_query) retries params w in
  let outcomes :=
    attempts databases_query params (S retries) (fst (remote w)) in
  queries (snd result) = (queries w + List.length outcomes)%nat /\
  (1 <= List.length outcomes <= S retries)%nat /\
  (List.length outcomes < S retries -> answerOf outcomes <> None)%nat /\
  (forall bailed,
     find bails (errorsOf outcomes) = Some bailed ->
     fst result = Throw bailed) /\
  (find bails (errorsOf outcomes) = None ->
   forall a, answerOf outcomes = Some a -> fst result = Ok a) /\
  (find bails (errorsOf outcomes) = None -> answerOf outcomes = None ->
   List.length outcomes = S retries /\
   exists e, mainError (errorsOf outcomes) = Some e /\
             fst result = Throw e) /\
  (forall e1 e2 e3,
     message e1 = message e2 -> message e3 <> message e1 ->
     mainError [e1; e2; e3] = Some e2).
Proof.
  cbn zeta.
  destruct (@retryFrom_attempts params retries [] None w)
    as (H1 & H2 & H3 & H4 & H5).
  split; [exact H1|]. split; [exact H2|]. split; [|split; [exact H3|]].
  - clear. generalize (fst (remote w)) as r.
    induction (S retries) as [|k IH]; intros r; cbn [attempts].
    + cbn. lia.
    + destruct (databases_query r params) as [[e|a] r'];
        cbn [answerOf List.length]; [|discriminate].
      intros H. apply (IH r'). lia.
  - split; [exact H4|]. split; [exact H5|].
    intros e1 e2 e3 E12 E3. unfold mainError. simpl.
    repeat match goal with
           | |- context [string_dec ?a ?b] =>
               destruct (string_dec a b); try congruence; simpl
           end.
Qed.

End RetryFacts.

(** Against an endpoint that refuses every query with status 401, the
    caller gets that error, and the endpoint is called three times. *)
Example retryM_goes_on_after_bail :
  let result :=
    retryM (counting refusingDatabase) numberOfRetry
           {| q_lang := ja; q_start_cursor := None |}
           (initialWorld (tt, 0%nat)) in
  fst result = Throw (APIResponseError (Some 401) "Unauthorized") /\
  queries (snd result) = 3%nat.
Proof. split; reflexivity. Qed.

Section ListingFacts.

Variable src : ContentSource.

Lemma listPages_step (fuel : nat) (block_id : string) (cursor : option string)
      (acc : list responses.BlockObject) :
  listPages src (S fuel) block_id cursor acc =
  match blocks_children_list src block_id cursor with
  | inl e => Throw e
  | inr res =>
      if negb (has_more res) then Ok (acc ++ results res)
      else listPages src fuel block_id (next_cursor res) (acc ++ results res)
  end.
Proof.
  cbn [listPages]. rewrite retry_constant.
  destruct (blocks_children_list src block_id cursor); reflexivity.
Qed.

(** Property X6.  The paginated listing returns exactly when the chain of
    pages that starts at the cursor ends, within the pages it may read, in a
    page without [has_more]; what it returns is what was accumulated before,
    followed by the results of those pages in order. *)
Theorem listPages_visits (fuel : nat) (block_id : string) :
  forall (cursor : option string) (acc rs : list responses.BlockObject),
    listPages src fuel block_id cursor acc = Ok rs <->
    exists pages,
      visits src block_id cursor pages /\
      (List.length pages <= fuel)%nat /\
      rs = acc ++ flat_map results pages.
Proof.
  induction fuel as [|f IH]; intros cursor acc rs.
  - simpl. split; [discriminate|].
    intros (pages & Hv & Hlen & _). destruct Hv; simpl in Hlen; lia.
  - rewrite listPages_step.
    destruct (blocks_children_list src block_id cursor) as [e|res] eqn:E.
    + split; [discriminate|].
      intros (pages & Hv & _). destruct Hv; congruence.
    + destruct (has_more res) eqn:Hm; simpl.
      * rewrite IH. split.
        -- intros (pages & Hv & Hlen & ->). exists (res :: pages).
           split; [apply visits_more; auto|]. split; [simpl; lia|].
           simpl. rewrite app_assoc. reflexivity.
        -- intros (pages & Hv & Hlen & ->).
           destruct Hv as [c r Hr Hl | c r rest Hr Hl Hrest];
             rewrite E in Hr; injection Hr as <-; [congruence|].
           exists rest. split; [exact Hrest|]. split; [simpl in Hlen; lia|].
           simpl. rewrite app_assoc. reflexivity.
      * split.
        -- intros H; injection H as <-. exists [res].
           split; [apply visits_last; auto|]. split; [simpl; lia|].
           simpl. rewrite app_nil_r. reflexivity.
        -- intros (pages & Hv & Hlen & ->).
           destruct Hv as [c r Hr Hl | c r rest Hr Hl Hrest];
             rewrite E in Hr; injection Hr as <-; [|congruence].
           simpl. rewrite app_nil_r. reflexivity.
Qed.

(** ** Assembly as a whole *)

Lemma mapM_throws (A B : Type) (f : A -> Res B) (e0 : JsError) (xs : list A) :
  (forall x, f x <> OutOfFuel) ->
  (forall x e, f x = Throw e -> e = e0) ->
  Exists (fun x => f x = Throw e0) xs ->
  mapM f xs = Throw e0.
Proof.
  intros Hs He. induction 1 as [x xs Hx | x xs Hex IH]; simpl.
  - rewrite Hx. reflexivity.
  - destruct (f x) as [y|e|] eqn:E; simpl.
    + rewrite IH. reflexivity.
    + rewrite (He x e E). reflexivity.
    + exfalso. exact (Hs x E).
Qed.

(** Property X7.  When [getAllBlocksByBlockId] returns, its blocks stand one
    for one and in order for the listed objects: same id, same has-children
    flag, and the discriminant as type tag (or [unsupported] for a
    [link_to_page] without page id). *)
Theorem getAllBlocksByBlockId_order (fuel : nat) (blockId : string)
        (bs : list Block) :
  getAllBlocksByBlockId src (S fuel) blockId = Ok bs ->
  exists rs,
    listChildren src fuel blockId = Ok rs /\
    Forall2 (fun raw b =>
               Id b = responses.id raw /\
               HasChildren b = responses.has_children raw /\
               (BlockType b = responses.type raw \/
                (responses.type raw = "link_to_page"%string /\
                 BlockType b = "unsupported"%string)))
            rs bs.
Proof.
  cbn [getAllBlocksByBlockId]. intros H.
  apply bind_Ok_inv in H as (rs & Hrs & H).
  apply bind_Ok_inv in H as (built & Hbuilt & H).
  exists rs. split; [exact Hrs|].
  apply mapM_Ok_Forall2 in Hbuilt. apply mapM_Ok_Forall2 in H.
  clear Hrs. revert bs H.
  induction Hbuilt as [|raw b0 rs built Hb _ IH]; intros bs H;
    inversion H as [|? b ? bs' Hfill Hrest]; subst; constructor; auto.
  pose proof (buildBlock_freshlyBuilt _ Hb) as (_ & _ & Hfresh).
  destruct (buildBlock_header _ Hb) as (Hid & Hhc & Hty).
  destruct (fillChildren_assembled _ _ Hfresh Hfill) as (E1 & E2 & E3 & _).
  rewrite E1, E2, E3. repeat split; auto.
  destruct Hty as [|(? & ? & _)]; auto.
Qed.

(** Property X8.  One listed object that the normalizer rejects makes the
    whole assembly of that listing throw a [TypeError], whatever the other
    objects are. *)
Theorem getAllBlocksByBlockId_malformed (fuel : nat) (blockId : string)
        (rs : list responses.BlockObject) :
  listChildren src fuel blockId = Ok rs ->
  Exists (fun raw => _buildBlock raw = Throw TypeError) rs ->
  getAllBlocksByBlockId src (S fuel) blockId = Throw TypeError.
Proof.
  intros Hrs Hex. cbn [getAllBlocksByBlockId]. rewrite Hrs. cbn [bind].
  rewrite (@mapM_throws _ _ _buildBlock TypeError rs); auto.
  - intros x. apply buildBlock_failure.
  - intros x. apply buildBlock_failure.
Qed.

End ListingFacts.

Lemma getAllBlocksByBlockId_order_witness :
  exists rs,
    listChildren sampleSource 2 "root" = Ok rs /\
    Forall2 (fun raw b =>
               Id b = responses.id raw /\
               HasChildren b = responses.has_children raw /\
               (BlockType b = responses.type raw \/
                (responses.type raw = "link_to_page"%string /\
                 BlockType b = "unsupported"%string)))
            rs
            [ mkBlock "t1" false "toggle"
                      (PToggle [] "default" [builtParagraph "c1"]);
              mkBlock "s1" false "synced_block"
                      (PSyncedBlock (Some "orig") (Some [builtParagraph "o1"]));
              mkBlock "s2" false "synced_block"
                      (PSyncedBlock (Some "gone") (Some []));
              builtParagraph "p1";
              mkBlock "d1" false "divider" PNone ].
Proof.
  exact (@getAllBlocksByBlockId_order sampleSource 2 "root" _ eq_refl).
Defined.

Lemma getAllBlocksByBlockId_malformed_witness :
  getAllBlocksByBlockId malformedSource 2 "root" = Throw TypeError.
Proof.
  apply (@getAllBlocksByBlockId_malformed malformedSource 1 "root"
           [sampleParagraph "p1"; rawBlock "bad" "paragraph" false None;
            sampleDivider]).
  - reflexivity.
  - apply Exists_cons_tl. apply Exists_cons_hd. reflexivity.
Defined.

(** ** Slices and pages *)

Lemma js_slice_window (A : Type) (a b : nat) (l : list A) :
  (a <= b)%nat ->
  js_slice (Z.of_nat a) (Z.of_nat b) l = firstn (b - a) (skipn a l).
Proof.
  intros Hab. unfold js_slice.
  destruct (Z.ltb_spec (Z.of_nat a) 0) as [|_]; [lia|].
  destruct (Z.ltb_spec (Z.of_nat b) 0) as [|_]; [lia|].
  set (len := List.length l).
  destruct (Nat.le_gt_cases a len) as [Ha|Ha].
  - rewrite (Z.min_l (Z.of_nat a)) by lia. rewrite Nat2Z.id.
    destruct (Nat.le_gt_cases b len) as [Hb|Hb].
    + rewrite Z.min_l by lia. f_equal. lia.
    + rewrite Z.min_r by lia.
      rewrite !firstn_all2; auto; rewrite length_skipn; fold len; lia.
  - rewrite !Z.min_r by lia. rewrite Nat2Z.id.
    rewrite !skipn_all2 by (fold len; lia).
    rewrite !firstn_nil. reflexivity.
Qed.

Lemma chunks_concat (A : Type) (n : nat) :
  forall (k : nat) (l : list A),
    (List.length l <= k * n)%nat ->
    List.concat (map (fun i => firstn n (skipn (i * n) l)) (seq 0 k)) = l.
Proof.
  induction k as [|k IH]; intros l Hl.
  - destruct l; [reflexivity | simpl in Hl; lia].
  - cbn [seq map List.concat]. rewrite <- seq_shift, map_map.
    transitivity (firstn n l ++ skipn n l); [|apply firstn_skipn].
    f_equal.
    rewrite <- (IH (skipn n l)) by (rewrite length_skipn; lia).
    f_equal. apply map_ext. intros i.
    rewrite skipn_skipn. do 2 f_equal. simpl. lia.
Qed.

Section PageFacts.

Variable N : Z.
Hypothesis Npos : 0 < N.

(** A page with a number from 1 on is a window of the list. *)
Lemma pageOf_window (page : nat) (ps : list Post) :
  pageOf N (Z.of_nat (S page)) ps
  = firstn (Z.to_nat N) (skipn (page * Z.to_nat N) ps).
Proof.
  unfold pageOf.
  replace ((Z.of_nat (S page) - 1) * N) with (Z.of_nat (page * Z.to_nat N))
    by nia.
  replace (Z.of_nat (page * Z.to_nat N) + N)
    with (Z.of_nat (page * Z.to_nat N + Z.to_nat N)) by nia.
  rewrite js_slice_window by lia. f_equal. lia.
Qed.

(** The number of pages of a list, as a natural number. *)
Lemma numberOfPagesOf_nat (ps : list Post) :
  exists n : nat,
    numberOfPagesOf N ps = Finite (Z.of_nat n) /\
    (List.length ps <= n * Z.to_nat N)%nat /\
    (forall m, (m < n)%nat -> (m * Z.to_nat N < List.length ps)%nat).
Proof.
  set (len := Z.of_nat (List.length ps)).
  assert (Hlen : 0 <= len) by (unfold len; lia).
  pose proof (Z.div_mod len N ltac:(lia)) as Hdm.
  pose proof (Z.mod_pos_bound len N Npos) as Hb.
  assert (Hq : 0 <= len / N) by (apply Z.div_pos; lia).
  exists (Z.to_nat (len / N + (if len mod N =? 0 then 0 else 1))).
  split; [|split].
  - unfold numberOfPagesOf, floor_div, remainder_positive. fold len.
    destruct (Z.eqb_spec N 0) as [|_]; [lia|]. simpl. f_equal.
    rewrite Z.rem_mod_nonneg by lia.
    destruct (Z.eqb_spec (len mod N) 0), (Z.gtb_spec (len mod N) 0); lia.
  - destruct (Z.eqb_spec (len mod N) 0); unfold len in *; nia.
  - intros m Hm.
    destruct (Z.eqb_spec (len mod N) 0); unfold len in *; nia.
Qed.

Lemma numberOfPagesOf_bound (ps : list Post) (n : nat) :
  numberOfPagesOf N ps = Finite (Z.of_nat n) -> (n <= List.length ps)%nat.
Proof.
  intros H. destruct (numberOfPagesOf_nat ps) as (n' & Hn & _ & Hlt).
  rewrite Hn in H. injection H as H. apply Nat2Z.inj in H. subst n'.
  destruct n as [|m]; [lia|].
  specialize (Hlt m ltac:(lia)). nia.
Qed.

(** The pages of a list: together they are the list, each page up to the
    last holds at least one and at most [N] elements, and there is
    nothing behind the last. *)
Lemma pages_cover (ps : list Post) :
  exists n : nat,
    numberOfPagesOf N ps = Finite (Z.of_nat n) /\
    List.concat (map (fun i => pageOf N (Z.of_nat i) ps) (seq 1 n)) = ps /\
    (forall page, 1 <= page <= Z.of_nat n ->
       pageOf N page ps <> [] /\
       Z.of_nat (List.length (pageOf N page ps)) <= N) /\
    (forall page, Z.of_nat n < page -> pageOf N page ps = []).
Proof.
  destruct (numberOfPagesOf_nat ps) as (n & Hn & Hle & Hlt).
  exists n. split; [exact Hn|]. split; [|split].
  - rewrite <- seq_shift, map_map.
    transitivity
      (List.concat
         (map (fun i => firstn (Z.to_nat N) (skipn (i * Z.to_nat N) ps))
              (seq 0 n)));
      [|apply chunks_concat; exact Hle].
    f_equal. apply map_ext. intros i. apply pageOf_window.
  - intros page Hp.
    replace page with (Z.of_nat (S (Z.to_nat (page - 1)))) by lia.
    rewrite pageOf_window. split.
    + intros E. apply (f_equal (@List.length Post)) in E.
      rewrite length_firstn, length_skipn in E. simpl in E.
      specialize (Hlt (Z.to_nat (page - 1)) ltac:(lia)). lia.
    + rewrite length_firstn. lia.
  - intros page Hp.
    replace page with (Z.of_nat (S (Z.to_nat (page - 1)))) by lia.
    rewrite pageOf_window. rewrite skipn_all2; [apply firstn_nil|].
    assert (n * Z.to_nat N <= Z.to_nat (page - 1) * Z.to_nat N)%nat
      by (apply Nat.mul_le_mono_r; lia).
    lia.
Qed.

End PageFacts.

Section AccessorFacts.

Variable Remote : Type.
Variable databases_query :
  Remote -> QueryDatabase -> (JsError + QueryDatabaseResponse) * Remote.
Variable SLUG_META_TITLE : string.
Variable NUMBER_OF_POSTS_PER_PAGE : Z.
Variable localeCompare : string -> string -> Z.

#[local] Abbreviation getAllPosts :=
  (getAllPosts databases_query SLUG_META_TITLE).
#[local] Abbreviation getPostsByPage :=
  (getPostsByPage databases_query SLUG_META_TITLE NUMBER_OF_POSTS_PER_PAGE).
#[local] Abbreviation getNumberOfPages :=
  (getNumberOfPages databases_query SLUG_META_TITLE NUMBER_OF_POSTS_PER_PAGE).
#[local] Abbreviation getPostsByTagAndPage :=
  (getPostsByTagAndPage databases_query SLUG_META_TITLE
                        NUMBER_OF_POSTS_PER_PAGE).
#[local] Abbreviation getNumberOfPagesByTag :=
  (getNumberOfPagesByTag databases_query SLUG_META_TITLE
                         NUMBER_OF_POSTS_PER_PAGE).
#[local] Abbreviation getPostsByTag :=
  (getPostsByTag databases_query SLUG_META_TITLE).
#[local] Abbreviation getPostBySlug :=
  (getPostBySlug databases_query SLUG_META_TITLE).
#[local] Abbreviation getAllTags :=
  (getAllTags databases_query SLUG_META_TITLE localeCompare).
#[local] Abbreviation getTitleMeta :=
  (getTitleMeta databases_query SLUG_META_TITLE).
#[local] Abbreviation pageOf := (pageOf NUMBER_OF_POSTS_PER_PAGE).

(** Property X9.  With a positive page size, the pages 1 to
    [getNumberOfPages] that [getPostsByPage] returns are, put one after the
    other, the whole post list; each of them holds at least one and at most
    [NUMBER_OF_POSTS_PER_PAGE] posts; a page number beyond gives the empty
    list, a page number below 1 gives the empty list without reading the
    posts; and page 1 is what [getPosts] returns for the page size. *)
Theorem getPostsByPage_partition (lock : LockOutcome) (fuel : nat)
        (lang : LanguageKey) (w w1 : World Remote) (ps : list Post) :
  0 < NUMBER_OF_POSTS_PER_PAGE ->
  getAllPosts lock fuel lang w = (Ok ps, w1) ->
  exists n : nat,
    getNumberOfPages lock fuel lang w = (Ok (Finite (Z.of_nat n)), w1) /\
    (forall page, 1 <= page ->
       getPostsByPage lock fuel lang page w = (Ok (pageOf page ps), w1)) /\
    (forall page, page < 1 ->
       getPostsByPage lock fuel lang page w = (Ok [], w)) /\
    List.concat (map (fun i => pageOf (Z.of_nat i) ps) (seq 1 n)) = ps /\
    (forall page, 1 <= page <= Z.of_nat n ->
       pageOf page ps <> [] /\
       Z.of_nat (List.length (pageOf page ps))
       <= NUMBER_OF_POSTS_PER_PAGE) /\
    (forall page, Z.of_nat n < page -> pageOf page ps = []) /\
    getPosts databases_query SLUG_META_TITLE lock fuel lang
             NUMBER_OF_POSTS_PER_PAGE w
    = getPostsByPage lock fuel lang 1 w.
Proof.
  intros HN H.
  destruct (pages_cover HN ps) as (n & Hn & Hcat & Hin & Hout).
  exists n. repeat split; try apply Hin; auto.
  - unfold getNumberOfPages.
    rewrite (derived_result _ _ _ _ _ _ _ H), Hn. reflexivity.
  - intros page Hp. unfold getPostsByPage.
    destruct (Z.ltb_spec page 1); [lia|].
    apply (derived_result _ _ (fun a => pageOf page a) _ _ _ _ H).
  - intros page Hp. unfold getPostsByPage.
    destruct (Z.ltb_spec page 1); [reflexivity|lia].
Qed.

(** Property X10.  With a positive page size, the pages 1 to
    [getNumberOfPagesByTag] that [getPostsByTagAndPage] returns for a tag
    are, put one after the other, the posts that carry the tag, in the order
    of the post list; none of these pages is empty, and a page number beyond
    gives the empty list. *)
Theorem getPostsByTagAndPage_partition (lock : LockOutcome) (fuel : nat)
        (lang : LanguageKey) (tagName : string) (w w1 : World Remote)
        (ps : list Post) :
  0 < NUMBER_OF_POSTS_PER_PAGE ->
  getAllPosts lock fuel lang w = (Ok ps, w1) ->
  exists n : nat,
    getNumberOfPagesByTag lock fuel lang tagName w
      = (Ok (Finite (Z.of_nat n)), w1) /\
    (forall page, 1 <= page ->
       getPostsByTagAndPage lock fuel lang tagName page w
       = (Ok (pageOf page (filter (hasTag tagName) ps)), w1)) /\
    List.concat
      (map (fun i => pageOf (Z.of_nat i) (filter (hasTag tagName) ps))
           (seq 1 n))
    = filter (hasTag tagName) ps /\
    (forall page, 1 <= page <= Z.of_nat n ->
       pageOf page (filter (hasTag tagName) ps) <> []) /\
    (forall page, Z.of_nat n < page ->
       pageOf page (filter (hasTag tagName) ps) = []).
Proof.
  intros HN H.
  destruct (pages_cover HN (filter (hasTag tagName) ps))
    as (n & Hn & Hcat & Hin & Hout).
  exists n. repeat split; try apply Hin; auto.
  - unfold getNumberOfPagesByTag.
    rewrite (derived_result _ _ _ _ _ _ _ H), Hn. reflexivity.
  - intros page Hp. unfold getPostsByTagAndPage.
    destruct (Z.ltb_spec page 1); [lia|].
    apply (derived_result _ _
             (fun a => pageOf page (filter (hasTag tagName) a))
             _ _ _ _ H).
Qed.

End AccessorFacts.

(** ** Previous and next post *)

Lemma findIndex_first (A : Type) (p : A -> bool) (before after : list A)
      (x : A) :
  Forall (fun y => p y = false) before -> p x = true ->
  findIndex p (before ++ x :: after) = Z.of_nat (List.length before).
Proof.
  intros Hb Hx. induction Hb as [|y before Hy _ IH].
  - simpl. rewrite Hx. reflexivity.
  - cbn [app findIndex List.length]. rewrite Hy, IH.
    destruct (Z.ltb_spec (Z.of_nat (List.length before)) 0); lia.
Qed.

Lemma js_index_nat (A : Type) (xs : list A) (n : nat) :
  js_index xs (Z.of_nat n) = nth_error xs n.
Proof.
  unfold js_index. destruct (Z.ltb_spec (Z.of_nat n) 0); [lia|].
  rewrite Nat2Z.id. reflexivity.
Qed.

Lemma other_slugs (slug : string) (l : list Post) :
  ~ In slug (map Slug l) ->
  Forall (fun q => (Slug q =? slug)%string = false) l.
Proof.
  intros H. apply Forall_forall. intros q Hq.
  destruct (String.eqb_spec (Slug q) slug) as [E|]; auto.
  exfalso. apply H. rewrite <- E. apply in_map. exact Hq.
Qed.

Lemma neighbours_at (before after : list Post) (p : Post) :
  ~ In (Slug p) (map Slug before) ->
  prevPost (before ++ p :: after) (Slug p) = hd_error after /\
  nextPost (before ++ p :: after) (Slug p) = hd_error (rev before).
Proof.
  intros Hb. unfold prevPost, nextPost, currentPostIndex.
  rewrite (@findIndex_first _ _ before after p (@other_slugs _ _ Hb)
             (String.eqb_refl _)).
  split.
  - replace (Z.of_nat (List.length before) + 1)
      with (Z.of_nat (S (List.length before))) by lia.
    rewrite js_index_nat, nth_error_app2 by lia.
    replace (S (List.length before) - List.length before)%nat with 1%nat
      by lia.
    destruct after; reflexivity.
  - destruct (GroupingFacts.snoc_cases before) as [->|(init & q & ->)].
    + reflexivity.
    + rewrite rev_app_distr, length_app. simpl.
      replace (Z.of_nat (List.length init + 1) - 1)
        with (Z.of_nat (List.length init)) by lia.
      rewrite js_index_nat, <- app_assoc, nth_error_app2 by lia.
      rewrite Nat.sub_diag. reflexivity.
Qed.

(** Property X11.  On the page of a post, [prevPost] is the entry that
    follows the first post of that slug in the post list and [nextPost] the
    entry in front of it, and each is undefined at the respective end of the
    list; when no two posts share a slug, one post is the previous post of
    another exactly when that one is its next post. *)
Theorem prevPost_nextPost (allPosts : list Post) :
  (forall before p after,
     allPosts = before ++ p :: after ->
     ~ In (Slug p) (map Slug before) ->
     currentPostIndex allPosts (Slug p) = Z.of_nat (List.length before) /\
     prevPost allPosts (Slug p) = hd_error after /\
     nextPost allPosts (Slug p) = hd_error (rev before)) /\
  (NoDup (map Slug allPosts) ->
   forall a b, In a allPosts -> In b allPosts ->
     (prevPost allPosts (Slug a) = Some b <->
      nextPost allPosts (Slug b) = Some a)).
Proof.
  split.
  - intros before p after -> Hb. split; [|apply neighbours_at; auto].
    unfold currentPostIndex.
    apply findIndex_first; [apply other_slugs; auto | apply String.eqb_refl].
  - intros Hnd a b Ha Hb. split; intros H.
    + apply in_split in Ha as (l1 & l2 & ->).
      assert (H1 : ~ In (Slug a) (map Slug l1)).
      { rewrite map_app in Hnd. simpl in Hnd.
        apply NoDup_remove_2 in Hnd. intros K. apply Hnd.
        apply in_or_app. auto. }
      rewrite (proj1 (@neighbours_at _ l2 _ H1)) in H.
      destruct l2 as [|b' l2]; simpl in H; [discriminate|].
      injection H as ->.
      change (l1 ++ a :: b :: l2) with (l1 ++ [a] ++ b :: l2) in *.
      rewrite app_assoc in *.
      assert (H2 : ~ In (Slug b) (map Slug (l1 ++ [a]))).
      { rewrite map_app in Hnd. simpl in Hnd.
        apply NoDup_remove_2 in Hnd. intros K. apply Hnd.
        apply in_or_app. auto. }
      rewrite (proj2 (@neighbours_at _ l2 _ H2)), rev_app_distr. reflexivity.
    + apply in_split in Hb as (m1 & m2 & ->).
      assert (H1 : ~ In (Slug b) (map Slug m1)).
      { rewrite map_app in Hnd. simpl in Hnd.
        apply NoDup_remove_2 in Hnd. intros K. apply Hnd.
        apply in_or_app. auto. }
      rewrite (proj2 (@neighbours_at _ m2 _ H1)) in H.
      destruct (GroupingFacts.snoc_cases m1) as [->|(init & q & ->)];
        [discriminate H|].
      rewrite rev_app_distr in H. simpl in H. injection H as ->.
      rewrite <- app_assoc in *. simpl in *.
      assert (H2 : ~ In (Slug a) (map Slug init)).
      { rewrite map_app in Hnd. simpl in Hnd.
        apply NoDup_remove_2 in Hnd. intros K. apply Hnd.
        apply in_or_app. auto. }
      rewrite (proj1 (@neighbours_at _ (b :: m2) _ H2)). reflexivity.
Qed.

(** ** The pages built from the accessors *)

Lemma find_first (A : Type) (p : A -> bool) (l : list A) (x : A) :
  find p l = Some x ->
  exists before after,
    l = before ++ x :: after /\ p x = true /\
    Forall (fun y => p y = false) before.
Proof.
  induction l as [|y l IH]; simpl; [discriminate|].
  destruct (p y) eqn:Hy.
  - intros H; injection H as <-. exists [], l. auto.
  - intros H. destruct (IH H) as (b & a & -> & Hx & Hb).
    exists (y :: b), a. auto.
Qed.

Lemma find_slug (slug : string) (ps : list Post) :
  (In slug (map Slug ps) ->
   exists q before after,
     find (fun post => (Slug post =? slug)%string) ps = Some q /\
     ps = before ++ q :: after /\ Slug q = slug /\
     ~ In slug (map Slug before)) /\
  (~ In slug (map Slug ps) ->
   find (fun post => (Slug post =? slug)%string) ps = None).
Proof.
  destruct (find (fun post => (Slug post =? slug)%string) ps) as [q|] eqn:F.
  - destruct (find_first _ _ F) as (b & a & -> & Hq & Hb).
    apply String.eqb_eq in Hq. split.
    + intros _. exists q, b, a. repeat split; auto.
      intros K. apply in_map_iff in K as (y & Ey & Hy).
      rewrite Forall_forall in Hb. specialize (Hb y Hy).
      apply String.eqb_neq in Hb. auto.
    + intros K. exfalso. apply K. rewrite map_app. apply in_or_app.
      right. left. exact Hq.
  - split; auto. intros K. exfalso.
    apply in_map_iff in K as (y & Ey & Hy).
    apply (find_none _ _ F) in Hy. apply String.eqb_neq in Hy. auto.
Qed.

Section FrontmatterFacts.

Variable Remote : Type.
Variable databases_query :
  Remote -> QueryDatabase -> (JsError + QueryDatabaseResponse) * Remote.
Variable SLUG_META_TITLE : string.
Variable NUMBER_OF_POSTS_PER_PAGE : Z.
Variable localeCompare : string -> string -> Z.

Lemma promiseAll2_Ok (A B : Type) (first : M Remote A) (second : M Remote B)
      (w w1 w2 : World Remote) (a : A) (b : B) :
  first w = (Ok a, w1) -> second w1 = (Ok b, w2) ->
  promiseAll2 first second w = (Ok (a, b), w2).
Proof. intros H1 H2. unfold promiseAll2. rewrite H1, H2. reflexivity. Qed.

(** The frontmatter of a tag page, once its first accessor has returned
    and the posts are read: the other three accessors return what they
    make of the post list. *)
Lemma tag_frontmatter (B : Type) (firstAccessor : M Remote (list Post))
      (k : list Post * (list Post * (list SelectProperty * JsNumber))
           -> M Remote B)
      (fuel : nat) (lang : LanguageKey) (tag : string)
      (w w' w1 : World Remote) (posts ps : list Post) :
  firstAccessor w = (Ok posts, w') ->
  getAllPosts databases_query SLUG_META_TITLE Granted fuel lang w'
  = (Ok ps, w1) ->
  bindM
    (promiseAll2 firstAccessor
       (promiseAll2
          (getRankedPosts databases_query SLUG_META_TITLE Granted fuel lang 10)
          (promiseAll2
             (getAllTags databases_query SLUG_META_TITLE localeCompare
                         Granted fuel lang)
             (getNumberOfPagesByTag databases_query SLUG_META_TITLE
                NUMBER_OF_POSTS_PER_PAGE Granted fuel lang tag))))
    k w
  = k (posts,
       (rankedOf ps 10,
        (tagsOf localeCompare ps,
         numberOfPagesOf NUMBER_OF_POSTS_PER_PAGE
                         (filter (hasTag tag) ps)))) w1.
Proof.
  intros Hfirst H.
  assert (H' : getAllPosts databases_query SLUG_META_TITLE Granted fuel lang w1
               = (Ok ps, w1)).
  { pose proof H as K. apply getAllPostsCore_Ok in K as [(e & He & <-) _].
    apply getAllPostsCore_cached. exact He. }
  assert (Hall :
            promiseAll2 firstAccessor
              (promiseAll2
                 (getRankedPosts databases_query SLUG_META_TITLE
                                 Granted fuel lang 10)
                 (promiseAll2
                    (getAllTags databases_query SLUG_META_TITLE localeCompare
                                Granted fuel lang)
                    (getNumberOfPagesByTag databases_query SLUG_META_TITLE
                       NUMBER_OF_POSTS_PER_PAGE Granted fuel lang tag))) w
            = (Ok (posts,
                   (rankedOf ps 10,
                    (tagsOf localeCompare ps,
                     numberOfPagesOf NUMBER_OF_POSTS_PER_PAGE
                                     (filter (hasTag tag) ps)))), w1)).
  { eapply promiseAll2_Ok; [exact Hfirst|].
    eapply promiseAll2_Ok;
      [exact (derived_granted _ _ (fun a => rankedOf a 10) _ _ _ H)|].
    eapply promiseAll2_Ok;
      [exact (derived_granted _ _ (tagsOf localeCompare) _ _ _ H')|].
    exact (derived_granted _ _
             (fun a => numberOfPagesOf NUMBER_OF_POSTS_PER_PAGE
                         (filter (hasTag tag) a)) _ _ _ H'). }
  unfold bindM. rewrite Hall. reflexivity.
Qed.

End FrontmatterFacts.

Section SiteFacts.

Variable Remote : Type.
Variable databases_query :
  Remote -> QueryDatabase -> (JsError + QueryDatabaseResponse) * Remote.
Variable SLUG_META_TITLE : string.
Variable NUMBER_OF_POSTS_PER_PAGE : Z.
Variable localeCompare : string -> string -> Z.

#[local] Abbreviation getAllPosts :=
  (getAllPosts databases_query SLUG_META_TITLE).
#[local] Abbreviation getPostsByPage :=
  (getPostsByPage databases_query SLUG_META_TITLE NUMBER_OF_POSTS_PER_PAGE).
#[local] Abbreviation slugPagePost :=
  (slugPagePost databases_query SLUG_META_TITLE).
#[local] Abbreviation slugPaths := (slugPaths databases_query SLUG_META_TITLE).
#[local] Abbreviation tagPageData :=
  (tagPageData databases_query SLUG_META_TITLE NUMBER_OF_POSTS_PER_PAGE
               localeCompare).
#[local] Abbreviation tagPaths :=
  (tagPaths databases_query SLUG_META_TITLE localeCompare).
#[local] Abbreviation pagePaths :=
  (pagePaths databases_query SLUG_META_TITLE NUMBER_OF_POSTS_PER_PAGE).

Lemma getAllPosts_again (lock : LockOutcome) (fuel fuel' : nat)
      (lang : LanguageKey) (w w1 : World Remote) (ps : list Post) :
  getAllPosts lock fuel lang w = (Ok ps, w1) ->
  getAllPosts Granted fuel' lang w1 = (Ok ps, w1).
Proof.
  intros H. apply acquire_Ok in H.
  apply getAllPostsCore_Ok in H as [(e & He & <-) _].
  apply getAllPostsCore_cached. exact He.
Qed.

(** What two calls in a row leave behind: both lists are served from
    the state after the second. *)
Lemma getAllPosts_both (lock lock' : LockOutcome) (fuel fuel' : nat)
      (lang lang' : LanguageKey)
      (w w1 w2 : World Remote) (ps ps' : list Post) :
  getAllPosts lock fuel lang w = (Ok ps, w1) ->
  getAllPosts lock' fuel lang' w1 = (Ok ps', w2) ->
  getAllPosts Granted fuel' lang w2 = (Ok ps, w2) /\
  getAllPosts Granted fuel' lang' w2 = (Ok ps', w2).
Proof.
  intros H1 H2. split; [|eapply getAllPosts_again; exact H2].
  apply getAllPosts_granted in H1, H2.
  apply getAllPostsCore_Ok in H1 as [(e & He & <-) _].
  pose proof (getAllPostsCore_keeps databases_query SLUG_META_TITLE
                fuel lang lang' w1 He) as [Hk _].
  change (getAllPostsCore databases_query SLUG_META_TITLE fuel lang' w1)
    with (getAllPosts Granted fuel lang' w1) in Hk.
  rewrite H2 in Hk. simpl in Hk.
  apply getAllPostsCore_cached. exact Hk.
Qed.

(** The frontmatter of the post page, on a filled cache or not: what
    [find] makes of the list decides. *)
Lemma slugPagePost_find (lock : LockOutcome) (fuel : nat)
      (lang : LanguageKey) (slug : string)
      (w w1 : World Remote) (ps : list Post) :
  getAllPosts lock fuel lang w = (Ok ps, w1) ->
  slugPagePost lock fuel lang slug w
  = match find (fun post => (Slug post =? slug)%string) ps with
    | Some p => (Ok p, w1)
    | None => (Throw (OtherError "Post not found. slug: ${slug}"), w1)
    end.
Proof.
  intros H. unfold slugPagePost, getPostBySlug. unfold bindM at 1.
  rewrite (derived_result _ _
             (find (fun post => (Slug post =? slug)%string)) _ _ _ _ H).
  destruct (find _ ps); reflexivity.
Qed.

(** Property X12.  The page of a slug shows the first post of the list that
    has the slug, read through the cache; when no post has it, the page
    throws the error of its own, with the cache filled all the same. *)
Theorem slugPagePost_first (lock : LockOutcome) (fuel : nat)
        (lang : LanguageKey) (slug : string)
        (w w1 : World Remote) (ps : list Post) :
  getAllPosts lock fuel lang w = (Ok ps, w1) ->
  (In slug (map Slug ps) ->
   exists q before after,
     slugPagePost lock fuel lang slug w = (Ok q, w1) /\
     ps = before ++ q :: after /\ Slug q = slug /\
     ~ In slug (map Slug before)) /\
  (~ In slug (map Slug ps) ->
   slugPagePost lock fuel lang slug w
   = (Throw (OtherError "Post not found. slug: ${slug}"), w1)).
Proof.
  intros H. rewrite (slugPagePost_find _ _ _ slug _ H).
  destruct (find_slug slug ps) as [Hin Hout]. split.
  - intros K. destruct (Hin K) as (q & b & a & -> & Hq). exists q, b, a.
    split; [reflexivity | exact Hq].
  - intros K. rewrite (Hout K). reflexivity.
Qed.

(** Property X13.  [getStaticPaths] of the post page lists the slugs of the
    posts of [ja], then those of [en]; and the frontmatter of the page finds
    a post of that slug for every path it lists, when the lock lets its call
    in. *)
Theorem slugPaths_resolve (locks : LanguageKey -> LockOutcome) (fuel : nat)
        (w w2 : World Remote) (paths : list (string * LanguageKey)) :
  slugPaths locks fuel w = (Ok paths, w2) ->
  exists pj pe,
    (forall fuel', getAllPosts Granted fuel' ja w2 = (Ok pj, w2)) /\
    (forall fuel', getAllPosts Granted fuel' en w2 = (Ok pe, w2)) /\
    paths = map (fun post => (Slug post, ja)) pj
            ++ map (fun post => (Slug post, en)) pe /\
    (forall slug lang fuel',
       In (slug, lang) paths ->
       exists q, slugPagePost Granted fuel' lang slug w2 = (Ok q, w2) /\
                 Slug q = slug).
Proof.
  unfold slugPaths, LANGUAGE_KEYS.
  cbn [slugPathsLoop]. unfold bindM.
  destruct (getAllPosts (locks ja) fuel ja w) as [[pj| |] wa] eqn:Ha;
    try discriminate.
  destruct (getAllPosts (locks en) fuel en wa) as [[pe| |] wb] eqn:Hb;
    try discriminate.
  unfold ret. intros H; injection H as <- <-.
  assert (Hboth : forall fuel',
             getAllPosts Granted fuel' ja wb = (Ok pj, wb) /\
             getAllPosts Granted fuel' en wb = (Ok pe, wb)).
  { intros fuel'. eapply getAllPosts_both; eassumption. }
  exists pj, pe. split; [apply Hboth|]. split; [apply Hboth|].
  split; [reflexivity|].
  intros slug lang fuel' Hin. simpl in Hin.
  apply in_app_or in Hin as [Hin|Hin];
    apply in_map_iff in Hin as (p & E & Hp); injection E as <- <-.
  - rewrite (slugPagePost_find _ _ _ (Slug p) _ (proj1 (Hboth fuel'))).
    destruct (proj1 (find_slug (Slug p) pj) (in_map Slug _ _ Hp))
      as (q & _ & _ & -> & _ & E & _).
    eauto.
  - rewrite (slugPagePost_find _ _ _ (Slug p) _ (proj2 (Hboth fuel'))).
    destruct (proj1 (find_slug (Slug p) pe) (in_map Slug _ _ Hp))
      as (q & _ & _ & -> & _ & E & _).
    eauto.
Qed.

(** An accessor derived from the cached list, followed by the rest of a
    frontmatter. *)
Lemma derived_then (A B : Type) (f : list Post -> A) (k : A -> M Remote B)
      (lock : LockOutcome) (fuel : nat) (lang : LanguageKey)
      (w w1 : World Remote) (ps : list Post) :
  getAllPosts lock fuel lang w = (Ok ps, w1) ->
  bindM (bindM (getAllPosts lock fuel lang)
               (fun allPosts => ret (f allPosts))) k w
  = k (f ps) w1.
Proof.
  intros H. unfold bindM at 1.
  rewrite (derived_result _ _ f _ _ _ _ H). reflexivity.
Qed.

Lemma existsb_find (A : Type) (p : A -> bool) (l : list A) :
  existsb p l = true -> exists x, find p l = Some x /\ p x = true /\ In x l.
Proof.
  induction l as [|y l IH]; simpl; [discriminate|].
  destruct (p y) eqn:Hy; simpl.
  - intros _. exists y. auto.
  - intros H. destruct (IH H) as (x & F & Hx & Hin). exists x. auto.
Qed.

Lemma tagsOf_occurs (ps : list Post) (t : SelectProperty) :
  In t (tagsOf localeCompare ps) ->
  exists p, In p ps /\ hasTag (name t) p = true.
Proof.
  intros Ht. unfold tagsOf in Ht.
  apply (Permutation_in _ (js_sort_perm _ _)) in Ht.
  destruct (collectTag_fold (flat_map Tags ps) [] (NoDup_nil _))
    as (_ & _ & _ & H4).
  destruct (H4 t Ht) as [[]|(b & a & E & _)].
  assert (Hin : In t (flat_map Tags ps)).
  { rewrite E. apply in_or_app. right. left. reflexivity. }
  apply in_flat_map in Hin as (p & Hp & Htp). exists p. split; auto.
  unfold hasTag. apply existsb_exists. exists t. split; auto.
  apply String.eqb_refl.
Qed.

Lemma filter_nonempty (A : Type) (p : A -> bool) (l : list A) :
  (exists x, In x l /\ p x = true) ->
  exists first rest, filter p l = first :: rest /\ p first = true.
Proof.
  intros (x & Hx & Hp).
  destruct (filter p l) as [|first rest] eqn:F.
  - exfalso. assert (K : In x (filter p l)) by (apply filter_In; auto).
    rewrite F in K. exact K.
  - exists first, rest. split; auto.
    assert (K : In first (filter p l)) by (rewrite F; left; reflexivity).
    apply filter_In in K. apply K.
Qed.

Lemma filter_empty (A : Type) (p : A -> bool) (l : list A) :
  (forall x, In x l -> p x = false) -> filter p l = [].
Proof.
  intros H. induction l as [|y l IH]; simpl; auto.
  rewrite (H y) by (left; reflexivity). apply IH.
  intros x Hx. apply H. right. exact Hx.
Qed.

(** The tag page of a name some post carries. *)
Lemma tagPageData_found (fuel : nat) (lang : LanguageKey) (tag : string)
      (w w1 : World Remote) (ps : list Post) :
  0 < NUMBER_OF_POSTS_PER_PAGE ->
  getAllPosts Granted fuel lang w = (Ok ps, w1) ->
  tag <> ""%string ->
  (exists p, In p ps /\ hasTag tag p = true) ->
  exists d first rest t,
    tagPageData allGranted fuel lang tag w = (Ok d, w1) /\
    tp_posts d = js_slice 0 NUMBER_OF_POSTS_PER_PAGE
                          (filter (hasTag tag) ps) /\
    tp_posts d = first :: rest /\
    tp_currentTag d = Some t /\ name t = tag /\ In t (Tags first).
Proof.
  intros HN H Htag Hex.
  pose proof (@getAllPosts_again _ fuel fuel lang w w1 ps H) as H'.
  destruct (filter_nonempty (hasTag tag) ps Hex)
    as (first & rest & F & Hfirst).
  destruct (existsb_find _ _ Hfirst) as (t & Ft & Ht & Hin).
  apply String.eqb_eq in Ht.
  assert (Hposts : getPostsByTag databases_query SLUG_META_TITLE Granted
                                 fuel lang tag NUMBER_OF_POSTS_PER_PAGE w
                   = (Ok (js_slice 0 NUMBER_OF_POSTS_PER_PAGE
                                   (filter (hasTag tag) ps)), w1)).
  { unfold getPostsByTag, truthy_string.
    destruct (String.eqb_spec tag "") as [|_]; [contradiction|].
    apply (derived_granted _ _
             (fun a => js_slice 0 NUMBER_OF_POSTS_PER_PAGE
                                (filter (hasTag tag) a)) _ _ _ H). }
  unfold tagPageData. erewrite tag_frontmatter; [|exact Hposts|exact H'].
  rewrite js_slice_prefix, F by lia.
  destruct (Z.to_nat NUMBER_OF_POSTS_PER_PAGE) as [|k] eqn:Hk; [lia|].
  cbn [firstn]. unfold ret.
  eexists _, first, (firstn k rest), t. split; [reflexivity|].
  cbn [tp_posts tp_currentTag]. rewrite ?Hk. cbn [firstn].
  repeat split; auto.
Qed.

(** Property X14.  The tag page of a name that is not empty and that some
    post carries shows the first posts carrying it, at least one, and finds
    the tag of that name on the first of them; for the empty name, or a name
    no post carries, the page throws a [TypeError], after the posts were
    read. Every tag [getAllTags] returns is carried by some post.  The page
    is the one whose four calls the lock lets in. *)
Theorem tagPageData_cases (lock : LockOutcome) (fuel : nat)
        (lang : LanguageKey) (tag : string)
        (w w1 : World Remote) (ps : list Post) :
  0 < NUMBER_OF_POSTS_PER_PAGE ->
  getAllPosts lock fuel lang w = (Ok ps, w1) ->
  (tag <> ""%string ->
   (exists p, In p ps /\ hasTag tag p = true) ->
   exists d first rest t,
     tagPageData allGranted fuel lang tag w = (Ok d, w1) /\
     tp_posts d = js_slice 0 NUMBER_OF_POSTS_PER_PAGE
                           (filter (hasTag tag) ps) /\
     tp_posts d = first :: rest /\
     tp_currentTag d = Some t /\ name t = tag /\ In t (Tags first)) /\
  (tag = ""%string \/ (forall p, In p ps -> hasTag tag p = false) ->
   tagPageData allGranted fuel lang tag w = (Throw TypeError, w1)) /\
  (forall t, In t (tagsOf localeCompare ps) ->
     exists p, In p ps /\ hasTag (name t) p = true).
Proof.
  intros HN H. apply getAllPosts_granted in H.
  pose proof (@getAllPosts_again _ fuel fuel lang w w1 ps H) as H'.
  split; [|split; [|apply tagsOf_occurs]].
  - apply tagPageData_found; assumption.
  - intros Hcase.
    assert (Hposts : exists w',
               getPostsByTag databases_query SLUG_META_TITLE Granted
                             fuel lang tag
                             NUMBER_OF_POSTS_PER_PAGE w = (Ok [], w') /\
               getAllPosts Granted fuel lang w' = (Ok ps, w1)).
    { unfold getPostsByTag, truthy_string.
      destruct (String.eqb_spec tag "") as [E|NE]; cbn [negb].
      - exists w. split; [reflexivity | exact H].
      - destruct Hcase as [|Hnone]; [contradiction|].
        exists w1. split; [|exact H'].
        rewrite (derived_granted _ _
                   (fun a => js_slice 0 NUMBER_OF_POSTS_PER_PAGE
                                      (filter (hasTag tag) a)) _ _ _ H).
        rewrite (filter_empty _ _ Hnone).
        rewrite js_slice_prefix, firstn_nil by lia. reflexivity. }
    destruct Hposts as (w' & Hposts & Hw').
    unfold tagPageData. erewrite tag_frontmatter; [|exact Hposts|exact Hw'].
    reflexivity.
Qed.

(** Property X15.  [getStaticPaths] of the tag page lists the names of the
    tags of [ja], then those of [en]; and for every path it lists whose name
    is not empty, the frontmatter of the page finds at least one post and the
    tag of that name, when the lock lets its four calls in. *)
Theorem tagPaths_render (locks : LanguageKey -> LockOutcome) (fuel : nat)
        (w w2 : World Remote) (paths : list (string * LanguageKey)) :
  0 < NUMBER_OF_POSTS_PER_PAGE ->
  tagPaths locks fuel w = (Ok paths, w2) ->
  exists pj pe,
    (forall fuel', getAllPosts Granted fuel' ja w2 = (Ok pj, w2)) /\
    (forall fuel', getAllPosts Granted fuel' en w2 = (Ok pe, w2)) /\
    paths = map (fun t => (name t, ja)) (tagsOf localeCompare pj)
            ++ map (fun t => (name t, en)) (tagsOf localeCompare pe) /\
    (forall tag lang fuel',
       In (tag, lang) paths -> tag <> ""%string ->
       exists d first rest t,
         tagPageData allGranted fuel' lang tag w2 = (Ok d, w2) /\
         tp_posts d = first :: rest /\
         tp_currentTag d = Some t /\ name t = tag).
Proof.
  intros HN.
  unfold tagPaths, LANGUAGE_KEYS. cbn [tagPathsLoop]. unfold getAllTags.
  destruct (getAllPosts (locks ja) fuel ja w) as [[pj| |] wa] eqn:Ha;
    [ rewrite (derived_then _ _ _ _ _ _ Ha)
    | unfold bindM; rewrite Ha; discriminate
    | unfold bindM; rewrite Ha; discriminate ].
  destruct (getAllPosts (locks en) fuel en wa) as [[pe| |] wb] eqn:Hb;
    [ rewrite (derived_then _ _ _ _ _ _ Hb)
    | unfold bindM; rewrite Hb; discriminate
    | unfold bindM; rewrite Hb; discriminate ].
  unfold ret. intros H; injection H as <- <-.
  assert (Hboth : forall fuel',
             getAllPosts Granted fuel' ja wb = (Ok pj, wb) /\
             getAllPosts Granted fuel' en wb = (Ok pe, wb)).
  { intros fuel'. eapply getAllPosts_both; eassumption. }
  exists pj, pe. split; [apply Hboth|]. split; [apply Hboth|].
  split; [reflexivity|].
  intros tag lang fuel' Hin Htag. simpl in Hin.
  apply in_app_or in Hin as [Hin|Hin];
    apply in_map_iff in Hin as (t0 & E & Ht0); injection E as <- <-.
  - destruct (@tagPageData_found fuel' ja (name t0) wb wb pj HN
                (proj1 (Hboth fuel')) Htag (tagsOf_occurs _ _ Ht0))
      as (d & first & rest & t & Hd & _ & Hp & Hc & Hn & _).
    exists d, first, rest, t. auto.
  - destruct (@tagPageData_found fuel' en (name t0) wb wb pe HN
                (proj2 (Hboth fuel')) Htag (tagsOf_occurs _ _ Ht0))
      as (d & first & rest & t & Hd & _ & Hp & Hc & Hn & _).
    exists d, first, rest, t. auto.
Qed.

Lemma pageNumbersLoop_finite (lang : LanguageKey) :
  forall (k fuel : nat) (page : Z) (paths : list (Z * LanguageKey)),
    (k < fuel)%nat ->
    pageNumbersLoop fuel page (Finite (page + Z.of_nat k - 1)) lang paths
    = Ok (paths ++ map (fun i => (page + Z.of_nat i, lang)) (seq 0 k)).
Proof.
  induction k as [|k IH]; intros fuel page paths Hk;
    (destruct fuel as [|f]; [lia|]); cbn [pageNumbersLoop js_le].
  - destruct (Z.leb_spec page (page + Z.of_nat 0 - 1)); [lia|].
    simpl. rewrite app_nil_r. reflexivity.
  - destruct (Z.leb_spec page (page + Z.of_nat (S k) - 1)); [|lia].
    replace (page + Z.of_nat (S k) - 1) with (page + 1 + Z.of_nat k - 1)
      by lia.
    rewrite IH by lia. rewrite <- app_assoc. do 2 f_equal.
    cbn [seq map app]. rewrite Z.add_0_r. f_equal.
    rewrite <- seq_shift, map_map. apply map_ext. intros i.
    f_equal. lia.
Qed.

(** The page numbers listed for a page count [n]: 2 to [n]. *)
Lemma pageNumbersLoop_from_2 (lang : LanguageKey) (n fuel : nat)
      (paths : list (Z * LanguageKey)) :
  (n <= fuel)%nat -> (0 < fuel)%nat ->
  pageNumbersLoop fuel 2 (Finite (Z.of_nat n)) lang paths
  = Ok (paths ++ map (fun i => (Z.of_nat i, lang)) (seq 2 (n - 1))).
Proof.
  intros Hn Hf. destruct n as [|n].
  - destruct fuel as [|f]; [lia|]. simpl. rewrite app_nil_r. reflexivity.
  - replace (Z.of_nat (S n)) with (2 + Z.of_nat n - 1) by lia.
    rewrite pageNumbersLoop_finite by lia.
    replace (S n - 1)%nat with n by lia.
    rewrite <- (seq_shift n 1), <- (seq_shift n 0), !map_map.
    do 2 f_equal. apply map_ext. intros i. f_equal. lia.
Qed.

(** Property X16.  With a positive page size, [getStaticPaths] of the
    paginated index lists, for [ja] and then for [en], the page numbers from
    2 to the number of pages of the language, and [getPostsByPage] returns at
    least one post for every path listed, when the lock lets its call in. *)
Theorem pagePaths_render (locks : LanguageKey -> LockOutcome) (fuel : nat)
        (w w1 w2 : World Remote) (pj pe : list Post) :
  0 < NUMBER_OF_POSTS_PER_PAGE ->
  getAllPosts (locks ja) fuel ja w = (Ok pj, w1) ->
  getAllPosts (locks en) fuel en w1 = (Ok pe, w2) ->
  (List.length pj < fuel)%nat -> (List.length pe < fuel)%nat ->
  exists nj ne paths,
    numberOfPagesOf NUMBER_OF_POSTS_PER_PAGE pj = Finite (Z.of_nat nj) /\
    numberOfPagesOf NUMBER_OF_POSTS_PER_PAGE pe = Finite (Z.of_nat ne) /\
    pagePaths locks fuel w = (Ok paths, w2) /\
    paths = map (fun i => (Z.of_nat i, ja)) (seq 2 (nj - 1))
            ++ map (fun i => (Z.of_nat i, en)) (seq 2 (ne - 1)) /\
    (forall page lang fuel',
       In (page, lang) paths ->
       exists q rest,
         getPostsByPage Granted fuel' lang page w2 = (Ok (q :: rest), w2)).
Proof.
  intros HN Hj He Lj Le.
  destruct (pages_cover HN pj) as (nj & Hnj & _ & Hinj & _).
  destruct (pages_cover HN pe) as (ne & Hne & _ & Hine & _).
  pose proof (@numberOfPagesOf_bound _ HN _ _ Hnj) as Bj.
  pose proof (@numberOfPagesOf_bound _ HN _ _ Hne) as Be.
  exists nj, ne. eexists. split; [exact Hnj|]. split; [exact Hne|].
  split; [|split; [reflexivity|]].
  - unfold pagePaths, LANGUAGE_KEYS. cbn [pagePathsLoop].
    unfold getNumberOfPages.
    rewrite (derived_then _ _ _ _ _ _ Hj), Hnj.
    unfold bindM at 1, lift at 1.
    rewrite pageNumbersLoop_from_2 by lia.
    rewrite (derived_then _ _ _ _ _ _ He), Hne.
    unfold bindM at 1, lift at 1.
    rewrite pageNumbersLoop_from_2 by lia.
    reflexivity.
  - intros page lang fuel' Hin.
    assert (Hboth : getAllPosts Granted fuel' ja w2 = (Ok pj, w2) /\
                    getAllPosts Granted fuel' en w2 = (Ok pe, w2))
      by (eapply getAllPosts_both; eassumption).
    apply in_app_or in Hin as [Hin|Hin];
      apply in_map_iff in Hin as (i & E & Hi); injection E as <- <-;
      apply in_seq in Hi; unfold getPostsByPage;
      (destruct (Z.ltb_spec (Z.of_nat i) 1); [lia|]).
    + rewrite (derived_granted _ _
                 (pageOf NUMBER_OF_POSTS_PER_PAGE (Z.of_nat i)) _ _ _
                 (proj1 Hboth)).
      destruct (Hinj (Z.of_nat i) ltac:(lia)) as [Hne0 _].
      destruct (pageOf NUMBER_OF_POSTS_PER_PAGE (Z.of_nat i) pj)
        as [|q rest]; [contradiction|]. eauto.
    + rewrite (derived_granted _ _
                 (pageOf NUMBER_OF_POSTS_PER_PAGE (Z.of_nat i)) _ _ _
                 (proj2 Hboth)).
      destruct (Hine (Z.of_nat i) ltac:(lia)) as [Hne0 _].
      destruct (pageOf NUMBER_OF_POSTS_PER_PAGE (Z.of_nat i) pe)
        as [|q rest]; [contradiction|]. eauto.
Qed.

(** Property X17.  With a page size of zero the number of pages is not a
    number of pages: with at least one post it is [Infinity], and the test
    of the loop over the page numbers holds for every page number; with no
    post it is [NaN], the test fails at once and the loop lists no
    page. *)
Theorem pagePaths_zero_size (lock : LockOutcome) (fuel : nat)
        (lang : LanguageKey) (w w1 : World Remote) (ps : list Post) :
  NUMBER_OF_POSTS_PER_PAGE = 0 ->
  getAllPosts lock fuel lang w = (Ok ps, w1) ->
  (ps <> [] ->
   getNumberOfPages databases_query SLUG_META_TITLE NUMBER_OF_POSTS_PER_PAGE
                    lock fuel lang w = (Ok Infinity, w1) /\
   forall page, js_le page Infinity = true) /\
  (ps = [] ->
   getNumberOfPages databases_query SLUG_META_TITLE NUMBER_OF_POSTS_PER_PAGE
                    lock fuel lang w = (Ok NaN, w1) /\
   forall f paths, pageNumbersLoop (S f) 2 NaN lang paths = Ok paths).
Proof.
  intros HN H. unfold getNumberOfPages.
  rewrite (derived_result _ _ _ _ _ _ _ H).
  unfold numberOfPagesOf, floor_div. rewrite HN. cbn [Z.eqb].
  split.
  - intros NE. destruct ps as [|p ps]; [contradiction|].
    split; reflexivity.
  - intros ->. split; reflexivity.
Qed.

(** ** The cache through failures and across languages *)

(** A call that was let in and throws found no cache entry, made one
    fetch and leaves the cache as it was. *)
Lemma getAllPostsCore_Throw (fuel : nat) (lang : LanguageKey)
      (w w1 : World Remote) (e : JsError) :
  getAllPostsCore databases_query SLUG_META_TITLE fuel lang w
  = (Throw e, w1) ->
  postsCacheByLang w lang = None /\
  postsCacheByLang w1 = postsCacheByLang w /\
  fetchCount lang w1 = S (fetchCount lang w).
Proof.
  unfold getAllPostsCore.
  destruct (postsCacheByLang w lang) as [c|] eqn:Hc; [discriminate|].
  unfold bindM at 1.
  pose proof (fetchPostsAndMeta_frame databases_query SLUG_META_TITLE
                fuel lang w) as [F1 F2].
  destruct (fetchPostsAndMeta databases_query SLUG_META_TITLE fuel lang w)
    as [[pm| |] w'] eqn:Hf; try discriminate.
  intros H; injection H as <- <-. simpl in F1, F2.
  repeat split; auto.
  unfold fetchCount. rewrite F2. apply fetchCount_same.
Qed.

(** Property X18.  A call of [getAllPosts] that throws was let in by the
    lock or turned away.  If it was let in, it found no cache entry, made
    one fetch for the language and leaves the cache as it was: the failure
    is not remembered, and a later call that returns has fetched once
    more.  If it was turned away, it throws the rejection of the lock,
    whatever the cache holds.  Turned away at a full queue or after its
    wait in the queue, it leaves the state as it was, and no fetch was
    made.  Turned away for the time that went by while its function ran,
    it leaves the state that function leaves: if the function gets the
    posts, they are in the cache and a later call returns them without a
    fetch. *)
Theorem getAllPosts_failure_not_cached (lock : LockOutcome) (fuel : nat)
        (lang : LanguageKey) (w w1 : World Remote) (e : JsError) :
  getAllPosts lock fuel lang w = (Throw e, w1) ->
  (lock = Granted ->
   postsCacheByLang w lang = None /\
   postsCacheByLang w1 = postsCacheByLang w /\
   fetchCount lang w1 = S (fetchCount lang w) /\
   (forall lock' fuel' ps w2,
      getAllPosts lock' fuel' lang w1 = (Ok ps, w2) ->
      fetchCount lang w2 = S (S (fetchCount lang w)))) /\
  (forall rejection,
     lock = Rejected rejection ->
     e = LockError ASYNC_LOCK_POSTS rejection /\
     (rejection <> OccupationExceeded -> w1 = w) /\
     (rejection = OccupationExceeded ->
      w1 = snd (getAllPosts Granted fuel lang w) /\
      forall ps,
        fst (getAllPosts Granted fuel lang w) = Ok ps ->
        forall lock' fuel',
          getAllPosts lock' fuel' lang w1
          = (match lock' with
             | Granted => Ok ps
             | Rejected rejection' =>
                 Throw (LockError ASYNC_LOCK_POSTS rejection')
             end, w1))).
Proof.
  intros H. split.
  - intros ->.
    destruct (getAllPostsCore_Throw _ _ _ H) as (Hnone & Hsame & Hcount).
    repeat split; auto.
    intros lock' fuel' ps w2 H2. apply acquire_Ok in H2.
    apply getAllPostsCore_Ok in H2 as [_ H2].
    rewrite H2, Hcount; auto. rewrite Hsame. exact Hnone.
  - intros rejection ->. unfold getAllPosts in H.
    rewrite acquire_Rejected in H. injection H as <- <-.
    split; [reflexivity|]. split.
    + intros NE. destruct rejection; try reflexivity. contradiction.
    + intros ->. split; [reflexivity|].
      intros ps Hps lock' fuel'.
      destruct (getAllPosts Granted fuel lang w) as [r w'] eqn:Hg.
      simpl in Hps. subst r.
      change (getAllPostsCore databases_query SLUG_META_TITLE fuel lang w)
        with (getAllPosts Granted fuel lang w).
      rewrite Hg. cbn [snd].
      apply getAllPostsCore_Ok in Hg as [(c & Hc & <-) _].
      apply getAllPosts_cached. exact Hc.
Qed.

(** Property X19.  [getAllPostsOfAllLanguages] returns the posts of [ja]
    followed by those of [en], as two calls of [getAllPosts] in a row return
    them, and both lists are cached afterwards; when the second language
    fails the call throws that error and the first language stays cached;
    when the first fails the second is not tried.  All the calls are calls
    the lock lets in. *)
Theorem getAllPostsOfAllLanguages_cases (fuel : nat) (w w1 : World Remote) :
  (forall pj pe w2,
     getAllPosts Granted fuel ja w = (Ok pj, w1) ->
     getAllPosts Granted fuel en w1 = (Ok pe, w2) ->
     getAllPostsOfAllLanguages databases_query SLUG_META_TITLE Granted fuel w
     = (Ok (pj ++ pe), w2) /\
     forall fuel',
       getAllPosts Granted fuel' ja w2 = (Ok pj, w2) /\
       getAllPosts Granted fuel' en w2 = (Ok pe, w2)) /\
  (forall pj e w2,
     getAllPosts Granted fuel ja w = (Ok pj, w1) ->
     getAllPosts Granted fuel en w1 = (Throw e, w2) ->
     getAllPostsOfAllLanguages databases_query SLUG_META_TITLE Granted fuel w
     = (Throw e, w2) /\
     forall fuel', getAllPosts Granted fuel' ja w2 = (Ok pj, w2)) /\
  (forall e,
     getAllPosts Granted fuel ja w = (Throw e, w1) ->
     getAllPostsOfAllLanguages databases_query SLUG_META_TITLE Granted fuel w
     = (Throw e, w1) /\
     fetchCount en w1 = fetchCount en w).
Proof.
  unfold getAllPostsOfAllLanguages, acquire, LANGUAGE_KEYS.
  cbn [allLanguagesLoop]. unfold bindM, ret.
  change (getAllPostsCore databases_query SLUG_META_TITLE)
    with (getAllPosts Granted).
  split; [|split].
  - intros pj pe w2 Hj He. rewrite Hj, He. split; [reflexivity|].
    intros fuel'. eapply getAllPosts_both; eassumption.
  - intros pj e w2 Hj He. rewrite Hj, He. split; [reflexivity|].
    intros fuel'.
    apply getAllPostsCore_Ok in Hj as [(c & Hc & <-) _].
    pose proof (getAllPostsCore_keeps databases_query SLUG_META_TITLE
                  fuel ja en w1 Hc) as [Hk _].
    change (getAllPostsCore databases_query SLUG_META_TITLE fuel en w1)
      with (getAllPosts Granted fuel en w1) in Hk.
    rewrite He in Hk. simpl in Hk.
    apply getAllPostsCore_cached. exact Hk.
  - intros e Hj. rewrite Hj. split; [reflexivity|].
    revert Hj. unfold getAllPosts, acquire, getAllPostsCore.
    destruct (postsCacheByLang w ja) as [c|] eqn:Hc; [discriminate|].
    unfold bindM at 1.
    pose proof (fetchPostsAndMeta_frame databases_query SLUG_META_TITLE
                  fuel ja w) as [F1 F2].
    destruct (fetchPostsAndMeta databases_query SLUG_META_TITLE fuel ja w)
      as [[pm| |] w'] eqn:Hf; try discriminate.
    intros H; injection H as <- <-. simpl in F2.
    unfold fetchCount. rewrite F2, filter_app. simpl.
    rewrite app_nil_r. reflexivity.
Qed.

(** ** What the cache holds *)

Lemma buildPost_PageId (r : pages.PageObject) (p : Post) :
  _buildPost r = Ok p -> PageId p = pages.id r.
Proof.
  unfold _buildPost. intros H.
  apply bind_Ok_inv in H as (cover & _ & H).
  apply bind_Ok_inv in H as (featured & _ & H).
  injection H as <-. reflexivity.
Qed.

Lemma selectPosts_kept (rs : list pages.PageObject) (pm : PostsAndMeta) :
  selectPosts SLUG_META_TITLE rs = Ok pm ->
  map PageId (posts pm) = map pages.id (filter keptAsPost rs) /\
  Forall (fun p => Meta p = false) (posts pm) /\
  (forall t, titleMeta pm = Some t ->
     Meta t = true /\ Slug t = SLUG_META_TITLE /\ ~ In t (posts pm)).
Proof.
  unfold selectPosts. intros H.
  apply bind_Ok_inv in H as (allPosts & Hall & H). injection H as <-.
  cbn [posts titleMeta]. split; [|split].
  - apply mapM_Ok_Forall2 in Hall. clear - Hall.
    induction rs as [|r rs IH] in allPosts, Hall |- *; simpl in *.
    + inversion Hall. reflexivity.
    + unfold keptAsPost at 1.
      destruct (_validPageObject r); simpl; [|auto].
      inversion Hall as [|? p ? ps Hp Hrest]; subst. simpl.
      rewrite (buildPost_Meta _ Hp).
      destruct (metaFlag r); simpl; [auto|].
      rewrite (buildPost_PageId _ Hp). f_equal. auto.
  - apply Forall_forall. intros p Hp. apply filter_In in Hp as [_ Hp].
    destruct (Meta p); [discriminate | reflexivity].
  - intros t Ht. apply find_some in Ht as [_ Ht].
    apply andb_true_iff in Ht as [Hm Hs]. apply String.eqb_eq in Hs.
    repeat split; auto. intros K. apply filter_In in K as [_ K].
    rewrite Hm in K. discriminate.
Qed.

Lemma fetchPostsAndMeta_selects (fuel : nat) (lang : LanguageKey)
      (w w' : World Remote) (pm : PostsAndMeta) :
  fetchPostsAndMeta databases_query SLUG_META_TITLE fuel lang w
  = (Ok pm, w') ->
  exists rs, selectPosts SLUG_META_TITLE rs = Ok pm.
Proof.
  unfold fetchPostsAndMeta, bindM, record_fetch, lift.
  destruct (queryPages _ _ _ _ _) as [[rs| |] w0]; try discriminate.
  intros H. exists rs. injection H as H _. exact H.
Qed.

Lemma soundCache_same (w w' : World Remote) :
  postsCacheByLang w' = postsCacheByLang w ->
  soundCache SLUG_META_TITLE w -> soundCache SLUG_META_TITLE w'.
Proof. intros E Hw l e. rewrite E. apply Hw. Qed.

Lemma getAllPostsCore_sound (fuel : nat) (lang : LanguageKey)
      (w : World Remote) :
  soundCache SLUG_META_TITLE w ->
  soundCache SLUG_META_TITLE
    (snd (getAllPostsCore databases_query SLUG_META_TITLE fuel lang w)).
Proof.
  intros Hw. unfold getAllPostsCore.
  destruct (postsCacheByLang w lang) as [c|]; [exact Hw|].
  unfold bindM at 1.
  pose proof (fetchPostsAndMeta_frame databases_query SLUG_META_TITLE
                fuel lang w) as [F1 _].
  destruct (fetchPostsAndMeta databases_query SLUG_META_TITLE fuel lang w)
    as [[pm| |] w'] eqn:Hf; simpl in F1;
    try (eapply soundCache_same; eassumption).
  unfold bindM, cache_set, ret. intros l e. simpl.
  destruct (LanguageKey_eqb l lang).
  - intros H; injection H as <-.
    eapply fetchPostsAndMeta_selects; eassumption.
  - rewrite F1. apply Hw.
Qed.

Lemma getTitleMetaCore_sound (fuel : nat) (lang : LanguageKey)
      (w : World Remote) :
  soundCache SLUG_META_TITLE w ->
  soundCache SLUG_META_TITLE
    (snd (getTitleMetaCore databases_query SLUG_META_TITLE fuel lang w)).
Proof.
  intros Hw. unfold getTitleMetaCore.
  destruct (postsCacheByLang w lang) as [c|]; [exact Hw|].
  unfold bindM at 1.
  pose proof (fetchPostsAndMeta_frame databases_query SLUG_META_TITLE
                fuel lang w) as [F1 _].
  destruct (fetchPostsAndMeta databases_query SLUG_META_TITLE fuel lang w)
    as [[pm| |] w'] eqn:Hf; simpl in F1;
    try (eapply soundCache_same; eassumption).
  unfold bindM, cache_set, ret. intros l e. simpl.
  destruct (LanguageKey_eqb l lang).
  - intros H; injection H as <-.
    eapply fetchPostsAndMeta_selects; eassumption.
  - rewrite F1. apply Hw.
Qed.

Lemma allLanguagesLoop_sound (fuel : nat) (langs : list LanguageKey) :
  forall acc w,
    soundCache SLUG_META_TITLE w ->
    soundCache SLUG_META_TITLE
      (snd (allLanguagesLoop databases_query SLUG_META_TITLE fuel langs
                             acc w)).
Proof.
  induction langs as [|l langs IH]; intros acc w Hw; simpl; auto.
  unfold bindM.
  pose proof (@getAllPostsCore_sound fuel l w Hw) as Hs.
  destruct (getAllPostsCore databases_query SLUG_META_TITLE fuel l w)
    as [[ps| |] w']; simpl in *; auto.
Qed.

Lemma acquire_sound (A : Type) (lock : LockOutcome) (fn : M Remote A)
      (w : World Remote) :
  soundCache SLUG_META_TITLE w ->
  soundCache SLUG_META_TITLE (snd (fn w)) ->
  soundCache SLUG_META_TITLE (snd (acquire ASYNC_LOCK_POSTS lock fn w)).
Proof. destruct lock as [|[]]; simpl; auto. Qed.

Lemma after_sound (lock : LockOutcome) (fuel : nat) (c : Call)
      (w : World Remote) :
  soundCache SLUG_META_TITLE w ->
  soundCache SLUG_META_TITLE
    (after databases_query SLUG_META_TITLE NUMBER_OF_POSTS_PER_PAGE
           localeCompare lock fuel c w).
Proof.
  intros Hw. destruct c; simpl;
    unfold getPosts, getRankedPosts, getPostBySlug, getPostByPageId,
           getPostsByTag, getPostsByPage, getPostsByTagAndPage,
           getNumberOfPages, getNumberOfPagesByTag, getAllTags;
    try match goal with
        | |- context [if ?c then _ else _] => destruct c
        end;
    rewrite ?derived_state;
    first [ exact Hw
          | apply acquire_sound; [exact Hw|];
            first [ apply getAllPostsCore_sound; exact Hw
                  | apply getTitleMetaCore_sound; exact Hw
                  | apply allLanguagesLoop_sound; exact Hw ] ].
Qed.

Lemma afterAll_sound (calls : list (LockOutcome * nat * Call)) :
  forall w : World Remote,
    soundCache SLUG_META_TITLE w ->
    soundCache SLUG_META_TITLE
      (afterAll databases_query SLUG_META_TITLE NUMBER_OF_POSTS_PER_PAGE
                localeCompare calls w).
Proof.
  induction calls as [|[[lock fuel] c] calls IH]; intros w Hw; simpl; auto.
  apply IH. apply after_sound. exact Hw.
Qed.

(** Property X20.  From a start with an empty cache, whatever calls were made
    since and whatever the lock did with them: the list [getAllPosts] returns
    and the title record [getTitleMeta] returns next, when the lock lets it
    in, come from one and the same list of records; the posts stand
    one for one and in order for the records of it that are valid and not
    flagged as meta, none of them is flagged as meta, and the title record,
    if there is one, is flagged, has the slug of the title record and is not
    among the posts. *)
Theorem cache_one_fetch (w0 : World Remote)
        (calls : list (LockOutcome * nat * Call)) (lock : LockOutcome)
        (fuel : nat) (lang : LanguageKey) (ps : list Post)
        (w1 : World Remote) :
  (forall l, postsCacheByLang w0 l = None) ->
  getAllPosts lock fuel lang
              (afterAll databases_query SLUG_META_TITLE
                        NUMBER_OF_POSTS_PER_PAGE localeCompare calls w0)
  = (Ok ps, w1) ->
  exists rs m,
    selectPosts SLUG_META_TITLE rs = Ok (mkPostsAndMeta ps m) /\
    (forall fuel',
       getTitleMeta databases_query SLUG_META_TITLE Granted fuel' lang w1
       = (Ok m, w1)) /\
    map PageId ps = map pages.id (filter keptAsPost rs) /\
    Forall (fun p => Meta p = false) ps /\
    (forall t, m = Some t ->
       Meta t = true /\ Slug t = SLUG_META_TITLE /\ ~ In t ps).
Proof.
  intros Hempty H. apply getAllPosts_granted in H.
  assert (Hs0 : soundCache SLUG_META_TITLE w0).
  { intros l e He. rewrite Hempty in He. discriminate. }
  pose proof (@getAllPostsCore_sound fuel lang _
                (afterAll_sound calls Hs0)) as Hs1.
  change (getAllPostsCore databases_query SLUG_META_TITLE fuel lang)
    with (getAllPosts Granted fuel lang) in Hs1.
  rewrite H in Hs1. simpl in Hs1.
  apply getAllPostsCore_Ok in H as [(e & He & <-) _].
  destruct (Hs1 lang e He) as (rs & Hrs).
  exists rs, (titleMeta e).
  destruct (selectPosts_kept _ Hrs) as (Hids & Hmeta & Htitle).
  destruct e as [eposts etitle]. simpl in *.
  repeat split; auto; try apply Htitle; auto.
  intros fuel'. unfold getTitleMeta, acquire, getTitleMetaCore.
  rewrite He. reflexivity.
Qed.

End SiteFacts.

(** ** The sample database *)

Lemma getPostsByPage_partition_witness :
  exists n : nat,
    getNumberOfPages sampleDatabase "site-title" 2 Granted 1 ja
                     (initialWorld tt)
      = (Ok (Finite (Z.of_nat n)), sampleWorld) /\
    (forall page, 1 <= page ->
       getPostsByPage sampleDatabase "site-title" 2 Granted 1 ja page
                      (initialWorld tt)
       = (Ok (pageOf 2 page samplePosts), sampleWorld)) /\
    (forall page, page < 1 ->
       getPostsByPage sampleDatabase "site-title" 2 Granted 1 ja page
                      (initialWorld tt)
       = (Ok [], initialWorld tt)) /\
    List.concat (map (fun i => pageOf 2 (Z.of_nat i) samplePosts) (seq 1 n))
      = samplePosts /\
    (forall page, 1 <= page <= Z.of_nat n ->
       pageOf 2 page samplePosts <> [] /\
       Z.of_nat (List.length (pageOf 2 page samplePosts)) <= 2) /\
    (forall page, Z.of_nat n < page -> pageOf 2 page samplePosts = []) /\
    getPosts sampleDatabase "site-title" Granted 1 ja 2 (initialWorld tt)
      = getPostsByPage sampleDatabase "site-title" 2 Granted 1 ja 1
                       (initialWorld tt).
Proof.
  exact (@getPostsByPage_partition unit sampleDatabase "site-title" 2
           Granted 1 ja
           (initialWorld tt) sampleWorld samplePosts eq_refl eq_refl).
Defined.

Lemma getPostsByTagAndPage_partition_witness :
  exists n : nat,
    getNumberOfPagesByTag sampleDatabase "site-title" 1 Granted 1 ja "rocq"
                          (initialWorld tt)
      = (Ok (Finite (Z.of_nat n)), sampleWorld) /\
    (forall page, 1 <= page ->
       getPostsByTagAndPage sampleDatabase "site-title" 1 Granted 1 ja
                            "rocq" page
                            (initialWorld tt)
       = (Ok (pageOf 1 page (filter (hasTag "rocq") samplePosts)),
          sampleWorld)) /\
    List.concat
      (map (fun i => pageOf 1 (Z.of_nat i)
                            (filter (hasTag "rocq") samplePosts))
           (seq 1 n))
      = filter (hasTag "rocq") samplePosts /\
    (forall page, 1 <= page <= Z.of_nat n ->
       pageOf 1 page (filter (hasTag "rocq") samplePosts) <> []) /\
    (forall page, Z.of_nat n < page ->
       pageOf 1 page (filter (hasTag "rocq") samplePosts) = []).
Proof.
  exact (@getPostsByTagAndPage_partition unit sampleDatabase "site-title" 1
           Granted 1 ja "rocq" (initialWorld tt) sampleWorld samplePosts
           eq_refl eq_refl).
Defined.

Lemma slugPagePost_first_witness :
  (In "c"%string (map Slug samplePosts) ->
   exists q before after,
     slugPagePost sampleDatabase "site-title" Granted 1 ja "c" (initialWorld tt)
       = (Ok q, sampleWorld) /\
     samplePosts = before ++ q :: after /\ Slug q = "c"%string /\
     ~ In "c"%string (map Slug before)) /\
  (~ In "c"%string (map Slug samplePosts) ->
   slugPagePost sampleDatabase "site-title" Granted 1 ja "c" (initialWorld tt)
   = (Throw (OtherError "Post not found. slug: ${slug}"), sampleWorld)).
Proof.
  exact (@slugPagePost_first unit sampleDatabase "site-title" Granted 1 ja "c"
           (initialWorld tt) sampleWorld samplePosts eq_refl).
Defined.

Lemma slugPaths_resolve_witness :
  exists pj pe,
    (forall fuel',
       getAllPosts sampleDatabase "site-title" Granted fuel' ja sampleWorldBoth
       = (Ok pj, sampleWorldBoth)) /\
    (forall fuel',
       getAllPosts sampleDatabase "site-title" Granted fuel' en sampleWorldBoth
       = (Ok pe, sampleWorldBoth)) /\
    [("a", ja); ("b", ja); ("c", ja); ("d", ja); ("e", ja)]%string
      = map (fun post => (Slug post, ja)) pj
        ++ map (fun post => (Slug post, en)) pe /\
    (forall slug lang fuel',
       In (slug, lang)
          [("a", ja); ("b", ja); ("c", ja); ("d", ja); ("e", ja)]%string ->
       exists q,
         slugPagePost sampleDatabase "site-title" Granted fuel' lang slug
                      sampleWorldBoth
           = (Ok q, sampleWorldBoth) /\
         Slug q = slug).
Proof.
  exact (@slugPaths_resolve unit sampleDatabase "site-title" allGranted 1
           (initialWorld tt) sampleWorldBoth _ eq_refl).
Defined.

Lemma tagPageData_cases_witness :
  ("rocq"%string <> ""%string ->
   (exists p, In p samplePosts /\ hasTag "rocq" p = true) ->
   exists d first rest t,
     tagPageData sampleDatabase "site-title" 2 codeUnitCompare allGranted
                 1 ja "rocq"
                 (initialWorld tt)
       = (Ok d, sampleWorld) /\
     tp_posts d = js_slice 0 2 (filter (hasTag "rocq") samplePosts) /\
     tp_posts d = first :: rest /\
     tp_currentTag d = Some t /\ name t = "rocq"%string /\
     In t (Tags first)) /\
  ("rocq"%string = ""%string \/
   (forall p, In p samplePosts -> hasTag "rocq" p = false) ->
   tagPageData sampleDatabase "site-title" 2 codeUnitCompare allGranted
                 1 ja "rocq"
               (initialWorld tt)
   = (Throw TypeError, sampleWorld)) /\
  (forall t, In t (tagsOf codeUnitCompare samplePosts) ->
     exists p, In p samplePosts /\ hasTag (name t) p = true).
Proof.
  exact (@tagPageData_cases unit sampleDatabase "site-title" 2
           codeUnitCompare Granted 1 ja "rocq" (initialWorld tt) sampleWorld
           samplePosts eq_refl eq_refl).
Defined.

Lemma tagPaths_render_witness :
  exists pj pe,
    (forall fuel',
       getAllPosts sampleDatabase "site-title" Granted fuel' ja sampleWorldBoth
       = (Ok pj, sampleWorldBoth)) /\
    (forall fuel',
       getAllPosts sampleDatabase "site-title" Granted fuel' en sampleWorldBoth
       = (Ok pe, sampleWorldBoth)) /\
    [("astro", ja); ("notion", ja); ("rocq", ja)]%string
      = map (fun t => (name t, ja)) (tagsOf codeUnitCompare pj)
        ++ map (fun t => (name t, en)) (tagsOf codeUnitCompare pe) /\
    (forall tag lang fuel',
       In (tag, lang) [("astro", ja); ("notion", ja); ("rocq", ja)]%string ->
       tag <> ""%string ->
       exists d first rest t,
         tagPageData sampleDatabase "site-title" 2 codeUnitCompare
                     allGranted fuel' lang tag sampleWorldBoth
           = (Ok d, sampleWorldBoth) /\
         tp_posts d = first :: rest /\
         tp_currentTag d = Some t /\ name t = tag).
Proof.
  exact (@tagPaths_render unit sampleDatabase "site-title" 2 codeUnitCompare
           allGranted 1 (initialWorld tt) sampleWorldBoth _ eq_refl eq_refl).
Defined.

Lemma pagePaths_render_witness :
  exists nj ne paths,
    numberOfPagesOf 2 samplePosts = Finite (Z.of_nat nj) /\
    numberOfPagesOf 2 [] = Finite (Z.of_nat ne) /\
    pagePaths sampleDatabase "site-title" 2 allGranted 6 (initialWorld tt)
      = (Ok paths, sampleWorldBoth) /\
    paths = map (fun i => (Z.of_nat i, ja)) (seq 2 (nj - 1))
            ++ map (fun i => (Z.of_nat i, en)) (seq 2 (ne - 1)) /\
    (forall page lang fuel',
       In (page, lang) paths ->
       exists q rest,
         getPostsByPage sampleDatabase "site-title" 2 Granted fuel' lang page
                        sampleWorldBoth
         = (Ok (q :: rest), sampleWorldBoth)).
Proof.
  apply (@pagePaths_render unit sampleDatabase "site-title" 2 allGranted 6
           (initialWorld tt) sampleWorld sampleWorldBoth samplePosts []);
    try reflexivity; simpl; lia.
Defined.

Lemma pagePaths_zero_size_witness :
  (samplePosts <> [] ->
   getNumberOfPages sampleDatabase "site-title" 0 Granted 1 ja
                    (initialWorld tt)
   = (Ok Infinity, sampleWorld) /\
   forall page, js_le page Infinity = true) /\
  (samplePosts = [] ->
   getNumberOfPages sampleDatabase "site-title" 0 Granted 1 ja
                    (initialWorld tt)
   = (Ok NaN, sampleWorld) /\
   forall f paths, pageNumbersLoop (S f) 2 NaN ja paths = Ok paths).
Proof.
  exact (@pagePaths_zero_size unit sampleDatabase "site-title" 0 Granted 1
           ja (initialWorld tt) sampleWorld samplePosts eq_refl eq_refl).
Defined.

Lemma getAllPosts_failure_not_cached_witness :
  ((Granted = Granted ->
    postsCacheByLang (initialWorld tt) ja = None /\
    postsCacheByLang
      (snd (getAllPosts refusingDatabase "site-title" Granted 1 ja
                        (initialWorld tt)))
      = postsCacheByLang (initialWorld tt) /\
    fetchCount ja
      (snd (getAllPosts refusingDatabase "site-title" Granted 1 ja
                        (initialWorld tt)))
      = S (fetchCount ja (initialWorld tt)) /\
    (forall lock' fuel' ps w2,
       getAllPosts refusingDatabase "site-title" lock' fuel' ja
         (snd (getAllPosts refusingDatabase "site-title" Granted 1 ja
                           (initialWorld tt)))
       = (Ok ps, w2) ->
       fetchCount ja w2 = S (S (fetchCount ja (initialWorld tt))))) /\
   (forall rejection,
      Granted = Rejected rejection ->
      APIResponseError (Some 401) "Unauthorized"
      = LockError ASYNC_LOCK_POSTS rejection /\
      (rejection <> OccupationExceeded ->
       snd (getAllPosts refusingDatabase "site-title" Granted 1 ja
                        (initialWorld tt))
       = initialWorld tt) /\
      (rejection = OccupationExceeded ->
       snd (getAllPosts refusingDatabase "site-title" Granted 1 ja
                        (initialWorld tt))
       = snd (getAllPosts refusingDatabase "site-title" Granted 1 ja
                          (initialWorld tt)) /\
       forall ps,
         fst (getAllPosts refusingDatabase "site-title" Granted 1 ja
                          (initialWorld tt)) = Ok ps ->
         forall lock' fuel',
           getAllPosts refusingDatabase "site-title" lock' fuel' ja
             (snd (getAllPosts refusingDatabase "site-title" Granted 1 ja
                               (initialWorld tt)))
           = (match lock' with
              | Granted => Ok ps
              | Rejected rejection' =>
                  Throw (LockError ASYNC_LOCK_POSTS rejection')
              end,
              snd (getAllPosts refusingDatabase "site-title" Granted 1 ja
                               (initialWorld tt)))))) /\
  ((Rejected OccupationExceeded = Granted ->
    postsCacheByLang (initialWorld tt) ja = None /\
    postsCacheByLang sampleWorld = postsCacheByLang (initialWorld tt) /\
    fetchCount ja sampleWorld = S (fetchCount ja (initialWorld tt)) /\
    (forall lock' fuel' ps w2,
       getAllPosts sampleDatabase "site-title" lock' fuel' ja sampleWorld
       = (Ok ps, w2) ->
       fetchCount ja w2 = S (S (fetchCount ja (initialWorld tt))))) /\
   (forall rejection,
      Rejected OccupationExceeded = Rejected rejection ->
      LockError "posts" OccupationExceeded
      = LockError ASYNC_LOCK_POSTS rejection /\
      (rejection <> OccupationExceeded -> sampleWorld = initialWorld tt) /\
      (rejection = OccupationExceeded ->
       sampleWorld
       = snd (getAllPosts sampleDatabase "site-title" Granted 1 ja
                          (initialWorld tt)) /\
       forall ps,
         fst (getAllPosts sampleDatabase "site-title" Granted 1 ja
                          (initialWorld tt)) = Ok ps ->
         forall lock' fuel',
           getAllPosts sampleDatabase "site-title" lock' fuel' ja
                       sampleWorld
           = (match lock' with
              | Granted => Ok ps
              | Rejected rejection' =>
                  Throw (LockError ASYNC_LOCK_POSTS rejection')
              end, sampleWorld)))).
Proof.
  split.
  - exact (@getAllPosts_failure_not_cached unit refusingDatabase
             "site-title" Granted 1 ja (initialWorld tt) _
             (APIResponseError (Some 401) "Unauthorized") eq_refl).
  - exact (@getAllPosts_failure_not_cached unit sampleDatabase
             "site-title" (Rejected OccupationExceeded) 1 ja
             (initialWorld tt) sampleWorld
             (LockError "posts" OccupationExceeded) eq_refl).
Defined.

Lemma cache_one_fetch_witness :
  exists rs m,
    selectPosts "site-title" rs = Ok (mkPostsAndMeta samplePosts m) /\
    (forall fuel',
       getTitleMeta sampleDatabase "site-title" Granted fuel' ja sampleWorldBoth
       = (Ok m, sampleWorldBoth)) /\
    map PageId samplePosts = map pages.id (filter keptAsPost rs) /\
    Forall (fun p => Meta p = false) samplePosts /\
    (forall t, m = Some t ->
       Meta t = true /\ Slug t = "site-title"%string /\
       ~ In t samplePosts).
Proof.
  exact (@cache_one_fetch unit sampleDatabase "site-title" 10
           codeUnitCompare (initialWorld tt)
           [(Granted, 1%nat, CallGetTitleMeta ja);
            (Rejected TimedOut, 1%nat, CallGetAllPosts en);
            (Granted, 1%nat, CallGetAllTags en)]
           Granted 1 ja samplePosts sampleWorldBoth
           (fun _ => eq_refl) eq_refl).
Defined.

(** ** Headings and numbered lists *)

Section HeadingFacts.
Import NotionBlocks GroupingSpec.

Lemma item_not_heading (b : Block) (k : ListKind) :
  itemKind b = Some k -> isHeading (NBlock b) = false.
Proof.
  unfold itemKind, isHeading. simpl.
  destruct (String.eqb_spec (BlockType b) "bulleted_list_item") as [->|_];
    [reflexivity|].
  destruct (String.eqb_spec (BlockType b) "numbered_list_item") as [->|_];
    [reflexivity|].
  destruct (String.eqb_spec (BlockType b) "to_do") as [->|_];
    [reflexivity|discriminate].
Qed.

Lemma headings_of_grouped (out : list Node) :
  Forall wellGrouped out ->
  filter isHeading out
  = map NBlock (filter (fun b => isHeading (NBlock b))
                       (flat_map blocksOf out)).
Proof.
  induction 1 as [|n out Hn _ IH]; [reflexivity|].
  cbn [filter flat_map]. rewrite filter_app, map_app, IH.
  destruct n as [b|l]; simpl.
  - destruct (isHeading (NBlock b)); reflexivity.
  - destruct Hn as [_ Hitems].
    replace (filter (fun b => isHeading (NBlock b)) (ListItems l))
      with (@nil Block).
    + destruct l as [[] items]; reflexivity.
    + symmetry. clear - Hitems.
      induction Hitems as [|b items Hb _ IH]; [reflexivity|].
      simpl. rewrite (item_not_heading _ Hb). exact IH.
Qed.

(** Property X21.  At the root, on blocks none of which poses as a List, the
    headings the component hands to its children are the blocks of type
    [heading_1], [heading_2] and [heading_3] among the input, in the order of
    the input: grouping neither drops nor adds one. *)
Theorem headings_top_level (bs : list Block) (rawHeadings : list Node) :
  Forall (fun b => ~ In (BlockType b) list_tags) bs ->
  exists out,
    blocks (map NBlock bs) = Ok out /\
    headings true rawHeadings out
    = map NBlock (filter (fun b => isHeading (NBlock b)) bs) /\
    headings false rawHeadings out = rawHeadings.
Proof.
  intros Hbs.
  destruct (@GroupingFacts.reduceFrom_grouped bs [] 0%nat)
    as (out & Hout & Hflat & Hg); auto.
  { repeat split; constructor. }
  exists out. split; [exact Hout|]. split; [|reflexivity].
  unfold headings. destruct Hg as (Hwf & _).
  rewrite (headings_of_grouped Hwf), Hflat. reflexivity.
Qed.

(** Property X22.  Every numbered list the grouping pass makes is rendered
    with all its items: the filter of the list component drops none; and the
    marker of a level that is not negative is one of the three styles, the
    same again three levels further down. *)
Theorem numbered_list_complete (bs : list Block) :
  Forall (fun b => ~ In (BlockType b) list_tags) bs ->
  exists out,
    blocks (map NBlock bs) = Ok out /\
    (forall l, In (NList l) out -> ListType l = numbered_list ->
       NumberedListItems.items l = ListItems l) /\
    (forall level, 0 <= level ->
       exists m, NumberedListItems.olType level = Some m /\
                 In m NumberedListItems.listTypes /\
                 NumberedListItems.olType (level + 3) = Some m).
Proof.
  intros Hbs.
  destruct (@GroupingFacts.reduceFrom_grouped bs [] 0%nat)
    as (out & Hout & Hflat & Hg); auto.
  { repeat split; constructor. }
  exists out. split; [exact Hout|]. split.
  - intros l Hl Hk. destruct Hg as (Hwf & _).
    rewrite Forall_forall in Hwf. destruct (Hwf _ Hl) as [_ Hitems].
    unfold NumberedListItems.items. rewrite Hk in Hitems. clear - Hitems.
    induction Hitems as [|b items Hb _ IH]; [reflexivity|].
    simpl. rewrite IH.
    unfold itemKind in Hb.
    destruct (String.eqb_spec (BlockType b) "bulleted_list_item");
      [discriminate|].
    destruct (String.eqb_spec (BlockType b) "numbered_list_item");
      [reflexivity|].
    destruct (String.eqb_spec (BlockType b) "to_do"); discriminate.
  - intros level Hlevel. unfold NumberedListItems.olType.
    assert (Hr : Z.rem (level + 3) 3 = Z.rem level 3).
    { rewrite !Z.rem_mod_nonneg by lia.
      replace (level + 3) with (level + 1 * 3) by lia.
      apply Z.mod_add. lia. }
    rewrite Hr.
    pose proof (Z.rem_bound_pos level 3 Hlevel ltac:(lia)) as Hb.
    assert (Hcases : Z.rem level 3 = 0 \/ Z.rem level 3 = 1 \/
                     Z.rem level 3 = 2) by lia.
    destruct Hcases as [-> | [-> | ->]]; simpl; eexists;
      (split; [reflexivity|]); split; simpl; auto.
Qed.

End HeadingFacts.

Lemma headings_top_level_witness :
  exists out,
    NotionBlocks.blocks (map NotionBlocks.NBlock sampleSequence) = Ok out /\
    headings true [] out
    = map NotionBlocks.NBlock
          (filter (fun b => isHeading (NotionBlocks.NBlock b))
                  sampleSequence) /\
    headings false [] out = [].
Proof.
  apply (@headings_top_level sampleSequence []).
  repeat constructor; simpl; intuition discriminate.
Defined.

Lemma numbered_list_complete_witness :
  exists out,
    NotionBlocks.blocks (map NotionBlocks.NBlock sampleSequence) = Ok out /\
    (forall l, In (NotionBlocks.NList l) out ->
       NotionBlocks.ListType l = NotionBlocks.numbered_list ->
       NumberedListItems.items l = NotionBlocks.ListItems l) /\
    (forall level, 0 <= level ->
       exists m, NumberedListItems.olType level = Some m /\
                 In m NumberedListItems.listTypes /\
                 NumberedListItems.olType (level + 3) = Some m).
Proof.
  apply (@numbered_list_complete sampleSequence).
  repeat constructor; simpl; intuition discriminate.
Defined.

(** ** The database record and the site metadata *)

Section SiteMetadataFacts.

Variable DbRemote : Type.
Variable databases_retrieve :
  DbRemote -> (JsError + database.RetrieveDatabaseResponse) * DbRemote.
Variable Remote : Type.
Variable databases_query :
  Remote -> QueryDatabase -> (JsError + QueryDatabaseResponse) * Remote.
Variable SLUG_META_TITLE : string.

#[local] Abbreviation retrieveDatabase := (retrieveDatabase databases_retrieve).
#[local] Abbreviation getDatabase := (getDatabase databases_retrieve).
#[local] Abbreviation getSiteMeta :=
  (getSiteMeta databases_retrieve databases_query SLUG_META_TITLE).

Lemma retryFrom_settles (St A : Type) (fn : St -> (JsError + A) * St)
      (retries : nat) :
  forall errors rejected s,
    fst (retryFrom retries fn errors rejected s) <> OutOfFuel.
Proof.
  induction retries as [|n IH]; intros errors rejected s; cbn [retryFrom];
    destruct (fn s) as [[e|a] s']; try apply IH;
    destruct rejected; cbn [fst]; try discriminate;
    destruct (bails e); try discriminate;
    destruct (mainError (errors ++ [e])); discriminate.
Qed.

Lemma retryS_settles (St A : Type) (fn : St -> (JsError + A) * St)
      (retries : nat) :
  forall s, fst (retryS retries fn s) <> OutOfFuel.
Proof. intros s. apply retryFrom_settles. Qed.

Lemma retrieveDatabaseCore_Ok (dw dw1 : DbWorld DbRemote) (db : Database) :
  retrieveDatabaseCore databases_retrieve dw = (Ok db, dw1) ->
  dbCache dw1 = Some db /\
  (forall cached, dbCache dw = Some cached -> cached = db /\ dw1 = dw) /\
  (dbCache dw = None ->
     exists res,
       retryS numberOfRetry databases_retrieve (dbRemote dw)
       = (Ok res, dbRemote dw1) /\
       buildDatabase res = Ok db).
Proof.
  unfold retrieveDatabaseCore.
  destruct (dbCache dw) as [c|] eqn:Hc.
  - intros H; injection H as <- <-.
    split; [exact Hc|]. split; [|discriminate].
    intros cached K; injection K as <-. split; reflexivity.
  - destruct (retryS numberOfRetry databases_retrieve (dbRemote dw))
      as [[res| |] r'] eqn:Hr; try discriminate.
    destruct (buildDatabase res) as [d| |] eqn:Hb; try discriminate.
    intros H; injection H as <- <-. simpl.
    split; [reflexivity|]. split; [discriminate|].
    intros _. exists res. split; [reflexivity | exact Hb].
Qed.

Lemma retrieveDatabase_Ok (lock : LockOutcome) (dw dw1 : DbWorld DbRemote)
      (db : Database) :
  retrieveDatabase lock dw = (Ok db, dw1) ->
  dbCache dw1 = Some db /\
  (forall cached, dbCache dw = Some cached -> cached = db /\ dw1 = dw) /\
  (dbCache dw = None ->
     exists res,
       retryS numberOfRetry databases_retrieve (dbRemote dw)
       = (Ok res, dbRemote dw1) /\
       buildDatabase res = Ok db).
Proof.
  intros H. apply acquire_Ok in H. apply retrieveDatabaseCore_Ok. exact H.
Qed.

(** A call that finds the record in the cache. *)
Lemma retrieveDatabase_cached (lock : LockOutcome) (dw : DbWorld DbRemote)
      (db : Database) :
  dbCache dw = Some db ->
  retrieveDatabase lock dw
  = (match lock with
     | Granted => Ok db
     | Rejected rejection => Throw (LockError ASYNC_LOCK_DB rejection)
     end, dw).
Proof.
  intros Hc. unfold retrieveDatabase.
  destruct lock as [|[]]; cbn [acquire]; unfold retrieveDatabaseCore;
    rewrite ?Hc; reflexivity.
Qed.

(** Property X23.  When [retrieveDatabase] returns, the record is cached:
    [getDatabase] then returns it again without a call of the endpoint if
    the lock lets it in, and throws the rejection of the lock if not, the
    state unchanged in either case; a call that found the cache empty
    built the record from the answer the retried retrieval gave.  When it
    throws after the lock let it in, the cache was empty and stays empty.
    When the lock turned it away, it throws the rejection of the lock,
    whatever the cache holds: at a full queue or after its wait in the
    queue the state is left as it was; for the time that went by while
    its function ran, the state is the one that function leaves, with the
    record in the cache if the function gets it. *)
Theorem retrieveDatabase_memoized (lock : LockOutcome)
        (dw : DbWorld DbRemote) :
  (forall db dw1,
     retrieveDatabase lock dw = (Ok db, dw1) ->
     (forall lock',
        getDatabase lock' dw1
        = (match lock' with
           | Granted => Ok db
           | Rejected rejection => Throw (LockError ASYNC_LOCK_DB rejection)
           end, dw1)) /\
     (dbCache dw = None ->
        exists res,
          retryS numberOfRetry databases_retrieve (dbRemote dw)
          = (Ok res, dbRemote dw1) /\
          buildDatabase res = Ok db)) /\
  (forall e dw1,
     retrieveDatabase lock dw = (Throw e, dw1) ->
     (lock = Granted -> dbCache dw = None /\ dbCache dw1 = None) /\
     (forall rejection,
        lock = Rejected rejection ->
        e = LockError ASYNC_LOCK_DB rejection /\
        (rejection <> OccupationExceeded -> dw1 = dw) /\
        (rejection = OccupationExceeded ->
         dw1 = snd (retrieveDatabase Granted dw) /\
         forall db,
           fst (retrieveDatabase Granted dw) = Ok db ->
           dbCache dw1 = Some db))).
Proof.
  split.
  - intros db dw1 H.
    destruct (retrieveDatabase_Ok _ _ H) as (Hc & _ & Hnew). split; auto.
    intros lock'. unfold getDatabase.
    apply retrieveDatabase_cached. exact Hc.
  - intros e dw1 H. split.
    + intros ->. revert H.
      unfold retrieveDatabase, acquire, retrieveDatabaseCore.
      destruct (dbCache dw); [discriminate|].
      destruct (retryS numberOfRetry databases_retrieve (dbRemote dw))
        as [[res| |] r']; try discriminate.
      * destruct (buildDatabase res); try discriminate.
        intros H; injection H as _ <-. auto.
      * intros H; injection H as _ <-. auto.
    + intros rejection ->. unfold retrieveDatabase in H.
      rewrite acquire_Rejected in H. injection H as <- <-.
      split; [reflexivity|]. split.
      * intros NE. destruct rejection; try reflexivity. contradiction.
      * intros ->. split; [reflexivity|].
        intros db Hdb. unfold retrieveDatabase, acquire in *.
        destruct (retrieveDatabaseCore databases_retrieve dw)
          as [r dw'] eqn:Hg.
        simpl in *. subst r.
        apply retrieveDatabaseCore_Ok in Hg. apply Hg.
Qed.

(** Property X24.  When the database record and the title record are both
    obtained, [getSiteMeta] returns the icon and the cover of the database;
    the title and the description are those of the database when there is no
    title record, and otherwise the title and the excerpt of the title
    record, the excerpt also when it is empty. A second call that the lock
    lets in returns the same from the two caches, and the posts of the
    language are then cached as well. When the database record cannot be
    obtained, the posts are not asked for. *)
Theorem getSiteMeta_cases (dbLock postsLock : LockOutcome) (fuel : nat)
        (lang : LanguageKey) (dw : DbWorld DbRemote) (w : World Remote) :
  (forall db dw1 m w1,
     retrieveDatabase dbLock dw = (Ok db, dw1) ->
     getTitleMeta databases_query SLUG_META_TITLE postsLock fuel lang w
     = (Ok m, w1) ->
     exists sm,
       getSiteMeta dbLock postsLock fuel lang (dw, w)
       = (Ok sm, (dw1, w1)) /\
       DbIcon sm = DbIcon db /\ DbCover sm = DbCover db /\
       (m = None ->
          DbTitle sm = DbTitle db /\ DbDescription sm = DbDescription db) /\
       (forall t, m = Some t ->
          DbTitle sm = Title t /\ DbDescription sm = Excerpt t) /\
       (forall fuel',
          getSiteMeta Granted Granted fuel' lang (dw1, w1)
          = (Ok sm, (dw1, w1))) /\
       (forall fuel',
          exists ps,
            getAllPosts databases_query SLUG_META_TITLE Granted fuel' lang w1
            = (Ok ps, w1))) /\
  (forall e dw1,
     retrieveDatabase dbLock dw = (Throw e, dw1) ->
     getSiteMeta dbLock postsLock fuel lang (dw, w) = (Throw e, (dw1, w))).
Proof.
  split.
  - intros db dw1 m w1 Hdb Hm.
    destruct (retrieveDatabase_Ok _ _ Hdb) as (Hc & _ & _).
    assert (Hdb' : retrieveDatabase Granted dw1 = (Ok db, dw1)).
    { apply (retrieveDatabase_cached Granted _ Hc). }
    assert (Hcache : exists c, postsCacheByLang w1 lang = Some c /\
                               titleMeta c = m).
    { pose proof (acquire_Ok _ _ _ _ Hm) as Hm'. revert Hm'.
      unfold getTitleMetaCore.
      destruct (postsCacheByLang w lang) as [c|] eqn:Hw.
      - intros H; injection H as <- <-. eauto.
      - unfold bindM at 1.
        destruct (fetchPostsAndMeta databases_query SLUG_META_TITLE
                                    fuel lang w)
          as [[pm| |] w'] eqn:Hf; try discriminate.
        unfold bindM, cache_set, ret. intros H; injection H as <- <-.
        simpl. exists pm. destruct lang; auto. }
    destruct Hcache as (c & Hcache & Htitle).
    eexists. split.
    { unfold getSiteMeta. rewrite Hdb, Hm. reflexivity. }
    cbn [DbIcon DbCover DbTitle DbDescription].
    split; [reflexivity|]. split; [reflexivity|].
    split; [intros ->; split; reflexivity|].
    split; [intros t ->; split; reflexivity|].
    split.
    + intros fuel'. unfold getSiteMeta. rewrite Hdb'.
      unfold getTitleMeta, acquire, getTitleMetaCore. rewrite Hcache.
      unfold ret. rewrite Htitle. reflexivity.
    + intros fuel'. exists (posts c).
      apply getAllPostsCore_cached. exact Hcache.
  - intros e dw1 H. unfold getSiteMeta. rewrite H. reflexivity.
Qed.

End SiteMetadataFacts.

(** The sample record is obtained at the third attempt; the settings
    record of the sample posts gives the title, and blanks the
    description. *)
Example getSiteMeta_sample :
  getSiteMeta flakyRetrieve sampleDatabase "site-title" Granted Granted 1 ja
              ({| dbCache := None; dbRemote := 2%nat |}, initialWorld tt)
  = (Ok {| DbTitle := "Site"; DbDescription := "";
           DbIcon := Some (IconUrl "file" "https://host/icon.png");
           DbCover := Some ("external", "https://host/cover.png")%string |},
     ({| dbCache :=
           Some {| DbTitle := "Blog"; DbDescription := "About things";
                   DbIcon := Some (IconUrl "file" "https://host/icon.png");
                   DbCover :=
                     Some ("external", "https://host/cover.png")%string |};
         dbRemote := 0%nat |},
      sampleWorld)).
Proof. reflexivity. Qed.

(** A client error is thrown, the endpoint being called three times all
    the same, and the posts are not asked for. *)
Example getSiteMeta_refused :
  getSiteMeta refusingRetrieve sampleDatabase "site-title" Granted Granted
              1 ja
              ({| dbCache := None; dbRemote := 0%nat |}, initialWorld tt)
  = (Throw (APIResponseError (Some 404) "Not found"),
     ({| dbCache := None; dbRemote := 3%nat |}, initialWorld tt)).
Proof. reflexivity. Qed.

(** ** The paginated tag page *)

Section TagPagesFacts.

Variable Remote : Type.
Variable databases_query :
  Remote -> QueryDatabase -> (JsError + QueryDatabaseResponse) * Remote.
Variable SLUG_META_TITLE : string.
Variable NUMBER_OF_POSTS_PER_PAGE : Z.
Variable localeCompare : string -> string -> Z.

#[local] Abbreviation getAllPosts :=
  (getAllPosts databases_query SLUG_META_TITLE).
#[local] Abbreviation tagPagePathsOf :=
  (tagPagePathsOf databases_query SLUG_META_TITLE NUMBER_OF_POSTS_PER_PAGE).
#[local] Abbreviation tagPagedData :=
  (tagPagedData databases_query SLUG_META_TITLE NUMBER_OF_POSTS_PER_PAGE
                localeCompare).
#[local] Abbreviation tagCallbacks :=
  (tagCallbacks databases_query SLUG_META_TITLE NUMBER_OF_POSTS_PER_PAGE).
#[local] Abbreviation tagPagePathsLoop :=
  (tagPagePathsLoop databases_query SLUG_META_TITLE NUMBER_OF_POSTS_PER_PAGE
                    localeCompare).
#[local] Abbreviation pageOf := (pageOf NUMBER_OF_POSTS_PER_PAGE).

Lemma js_slice_In (A : Type) (a b : Z) (l : list A) (x : A) :
  In x (js_slice a b l) -> In x l.
Proof.
  unfold js_slice. intros H.
  match type of H with
  | In x (firstn ?n (skipn ?k l)) =>
      rewrite <- (firstn_skipn k l); apply in_or_app; right;
      rewrite <- (firstn_skipn n (skipn k l)); apply in_or_app; left;
      exact H
  end.
Qed.

Lemma tagPageNumbersLoop_finite (tagName : string) (lang : LanguageKey) :
  forall (k fuel : nat) (page : Z) (paths : list (string * Z * LanguageKey)),
    (k < fuel)%nat ->
    tagPageNumbersLoop fuel page (Finite (page + Z.of_nat k - 1)) tagName
                       lang paths
    = Ok (paths
          ++ map (fun i => (tagName, page + Z.of_nat i, lang)) (seq 0 k)).
Proof.
  induction k as [|k IH]; intros fuel page paths Hk;
    (destruct fuel as [|f]; [lia|]); cbn [tagPageNumbersLoop js_le].
  - destruct (Z.leb_spec page (page + Z.of_nat 0 - 1)); [lia|].
    simpl. rewrite app_nil_r. reflexivity.
  - destruct (Z.leb_spec page (page + Z.of_nat (S k) - 1)); [|lia].
    replace (page + Z.of_nat (S k) - 1) with (page + 1 + Z.of_nat k - 1)
      by lia.
    rewrite IH by lia. rewrite <- app_assoc. do 2 f_equal.
    cbn [seq map app]. rewrite Z.add_0_r. f_equal.
    rewrite <- seq_shift, map_map. apply map_ext. intros i.
    do 2 f_equal. lia.
Qed.

Lemma tagPageNumbersLoop_from_2 (tagName : string) (lang : LanguageKey)
      (n fuel : nat) (paths : list (string * Z * LanguageKey)) :
  (n <= fuel)%nat -> (0 < fuel)%nat ->
  tagPageNumbersLoop fuel 2 (Finite (Z.of_nat n)) tagName lang paths
  = Ok (paths ++ map (fun i => (tagName, Z.of_nat i, lang)) (seq 2 (n - 1))).
Proof.
  intros Hn Hf. destruct n as [|n].
  - destruct fuel as [|f]; [lia|]. simpl. rewrite app_nil_r. reflexivity.
  - replace (Z.of_nat (S n)) with (2 + Z.of_nat n - 1) by lia.
    rewrite tagPageNumbersLoop_finite by lia.
    replace (S n - 1)%nat with n by lia.
    rewrite <- (seq_shift n 1), <- (seq_shift n 0), !map_map.
    do 2 f_equal. apply map_ext. intros i. do 2 f_equal. lia.
Qed.

(** The callback of a tag on a filled cache: the lock decides. *)
Lemma tagPagePathsOf_filled (lock : LockOutcome) (fuel : nat)
      (lang : LanguageKey) (tag : SelectProperty)
      (paths : list (string * Z * LanguageKey)) (u : World Remote)
      (c : PostsAndMeta) :
  0 < NUMBER_OF_POSTS_PER_PAGE ->
  postsCacheByLang u lang = Some c ->
  (List.length (posts c) < fuel)%nat ->
  tagPagePathsOf lock fuel lang tag paths u
  = (match lock with
     | Granted =>
         Ok (paths ++ tagPagePathsFor NUMBER_OF_POSTS_PER_PAGE (posts c)
                                      lang [tag])
     | Rejected rejection => Throw (LockError ASYNC_LOCK_POSTS rejection)
     end, u).
Proof.
  intros HN Hc Hlen.
  set (tagged := filter (hasTag (name tag)) (posts c)).
  destruct (pages_cover HN tagged) as (n & Hn & _).
  pose proof (@numberOfPagesOf_bound _ HN _ _ Hn) as Bn.
  assert (Htl : (List.length tagged <= List.length (posts c))%nat)
    by apply filter_length_le.
  unfold tagPagePathsOf, getNumberOfPagesByTag. unfold bindM.
  rewrite (getAllPosts_cached databases_query SLUG_META_TITLE
             lock fuel lang u Hc).
  destruct lock as [|rejection]; [|reflexivity].
  unfold ret, lift. fold tagged. rewrite Hn.
  rewrite tagPageNumbersLoop_from_2 by lia.
  unfold tagPagePathsFor, pagesOfTag. cbn [flat_map]. fold tagged.
  rewrite Hn, Nat2Z.id, app_nil_r. reflexivity.
Qed.

(** The callbacks of [Promise.all] on a filled cache: the state stays
    as it is; the paths of all tags if every callback is let in; the
    rejection of a full queue if one of them meets it. *)
Lemma tagCallbacks_filled (fuel : nat) (lang : LanguageKey)
      (u : World Remote) (c : PostsAndMeta) :
  0 < NUMBER_OF_POSTS_PER_PAGE ->
  postsCacheByLang u lang = Some c ->
  (List.length (posts c) < fuel)%nat ->
  forall (tags : list SelectProperty) (locks : nat -> LockOutcome)
         (index : nat) (paths : list (string * Z * LanguageKey)),
  exists r,
    tagCallbacks locks fuel lang index tags paths u = (r, u) /\
    r <> OutOfFuel /\
    ((forall j, (j < List.length tags)%nat ->
                queued (index + j) (locks (index + j)%nat) = Granted) ->
     r = Ok (paths ++ tagPagePathsFor NUMBER_OF_POSTS_PER_PAGE (posts c)
                                      lang tags)) /\
    ((exists j, (j < List.length tags)%nat /\
                queued (index + j) (locks (index + j)%nat)
                = Rejected TooManyPending) ->
     r = Throw (LockError ASYNC_LOCK_POSTS TooManyPending)).
Proof.
  intros HN Hc Hlen.
  induction tags as [|tag rest IH]; intros locks index paths.
  - exists (Ok paths). cbn [tagCallbacks List.length]. unfold ret.
    split; [reflexivity|]. split; [discriminate|]. split.
    + intros _. unfold tagPagePathsFor. cbn [flat_map].
      rewrite app_nil_r. reflexivity.
    + intros (j & Hj & _). lia.
  - cbn [tagCallbacks List.length].
    rewrite (@tagPagePathsOf_filled _ fuel lang tag paths u c HN Hc Hlen).
    destruct (queued index (locks index)) as [|rejection] eqn:Hq.
    + destruct (IH locks (S index)
                   (paths ++ tagPagePathsFor NUMBER_OF_POSTS_PER_PAGE
                                             (posts c) lang [tag]))
        as (r & Hr & Hs & Hall & Hfull).
      exists r. split; [exact Hr|]. split; [exact Hs|]. split.
      * intros Hg. rewrite Hall.
        { rewrite <- app_assoc. unfold tagPagePathsFor. cbn [flat_map].
          rewrite app_nil_r. reflexivity. }
        intros j Hj. specialize (Hg (S j) ltac:(lia)).
        rewrite Nat.add_succ_r in Hg. exact Hg.
      * intros (j & Hj & Hrej). apply Hfull.
        destruct j as [|j].
        { rewrite Nat.add_0_r in Hrej. congruence. }
        exists j. split; [lia|].
        rewrite Nat.add_succ_r in Hrej. exact Hrej.
    + destruct (IH locks (S index) paths) as (r & Hr & Hs & _ & Hfull).
      rewrite Hr.
      assert (Hcase :
                (rejection = TooManyPending /\
                 forall e', earlier (LockError ASYNC_LOCK_POSTS rejection) e'
                            = LockError ASYNC_LOCK_POSTS TooManyPending) \/
                (rejection <> TooManyPending /\
                 earlier (LockError ASYNC_LOCK_POSTS rejection)
                         (LockError ASYNC_LOCK_POSTS TooManyPending)
                 = LockError ASYNC_LOCK_POSTS TooManyPending)).
      { destruct rejection; [left|right|right]; split;
          try discriminate; try reflexivity.
        intros e'. unfold earlier. cbn [rejectedAtOnce negb].
        rewrite andb_false_r. reflexivity. }
      destruct r as [paths'|e'|]; [| |contradiction].
      * eexists. split; [reflexivity|]. split; [discriminate|]. split.
        { intros Hg. specialize (Hg 0%nat ltac:(lia)).
          rewrite Nat.add_0_r in Hg. congruence. }
        intros (j & Hj & Hrej).
        destruct Hcase as [[-> _]|[NE _]]; [reflexivity|].
        destruct j as [|j].
        { rewrite Nat.add_0_r in Hrej. congruence. }
        assert (K : exists j0,
                      (j0 < List.length rest)%nat /\
                      queued (S index + j0) (locks (S index + j0)%nat)
                      = Rejected TooManyPending).
        { exists j. split; [lia|].
          rewrite Nat.add_succ_r in Hrej. exact Hrej. }
        apply Hfull in K. discriminate K.
      * eexists. split; [reflexivity|]. split; [discriminate|]. split.
        { intros Hg. specialize (Hg 0%nat ltac:(lia)).
          rewrite Nat.add_0_r in Hg. congruence. }
        intros (j & Hj & Hrej).
        destruct Hcase as [[-> He]|[NE He]]; [rewrite He; reflexivity|].
        destruct j as [|j].
        { rewrite Nat.add_0_r in Hrej. congruence. }
        assert (K : exists j0,
                      (j0 < List.length rest)%nat /\
                      queued (S index + j0) (locks (S index + j0)%nat)
                      = Rejected TooManyPending).
        { exists j. split; [lia|].
          rewrite Nat.add_succ_r in Hrej. exact Hrej. }
        apply Hfull in K. injection K as ->. rewrite He. reflexivity.
Qed.

(** Property X25.  With a positive page size: the callback of
    [getStaticPaths] of the paginated tag page adds, for a tag, the page
    numbers from 2 to the number of pages of the tag.  For a language
    with at most 101 tags, when the lock lets the callbacks in,
    [getStaticPaths] lists these paths for the tags in turn; with 102 tags
    or more it throws the rejection of the lock for a full queue, whatever
    becomes of the callbacks that were let into the queue.  For every page
    number from 1 to the number of pages of a tag the frontmatter finds
    at least one post, and on the first of them the tag of that name; for
    a page number beyond, it throws a [TypeError]. *)
Theorem tagPagePaths_render (lock : LockOutcome) (fuel : nat)
        (lang : LanguageKey)
        (tag : SelectProperty) (paths : list (string * Z * LanguageKey))
        (w w1 : World Remote) (ps : list Post) :
  0 < NUMBER_OF_POSTS_PER_PAGE ->
  getAllPosts lock fuel lang w = (Ok ps, w1) ->
  (List.length ps < fuel)%nat ->
  exists n : nat,
    numberOfPagesOf NUMBER_OF_POSTS_PER_PAGE (filter (hasTag (name tag)) ps)
      = Finite (Z.of_nat n) /\
    tagPagePathsOf lock fuel lang tag paths w
      = (Ok (paths ++ map (fun i => (name tag, Z.of_nat i, lang))
                          (seq 2 (n - 1))), w1) /\
    (forall locks : nat -> LockOutcome,
       (List.length (tagsOf localeCompare ps) <= 101)%nat ->
       (forall index,
          (index < List.length (tagsOf localeCompare ps))%nat ->
          locks index = Granted) ->
       tagPagePathsLoop (fun _ => lock) (fun _ => locks) fuel [lang] paths w
       = (Ok (paths ++ tagPagePathsFor NUMBER_OF_POSTS_PER_PAGE ps lang
                                       (tagsOf localeCompare ps)), w1)) /\
    (forall locks : nat -> LockOutcome,
       (102 <= List.length (tagsOf localeCompare ps))%nat ->
       tagPagePathsLoop (fun _ => lock) (fun _ => locks) fuel [lang] paths w
       = (Throw (LockError ASYNC_LOCK_POSTS TooManyPending), w1)) /\
    (forall page fuel', 1 <= page <= Z.of_nat n ->
       exists d first rest t,
         tagPagedData allGranted fuel' lang (name tag) page w1
         = (Ok d, w1) /\
         tp_posts d = pageOf page (filter (hasTag (name tag)) ps) /\
         tp_posts d = first :: rest /\
         tp_currentTag d = Some t /\ name t = name tag) /\
    (forall page fuel', Z.of_nat n < page ->
       tagPagedData allGranted fuel' lang (name tag) page w1
       = (Throw TypeError, w1)).
Proof.
  intros HN H Hlen.
  set (tagged := filter (hasTag (name tag)) ps).
  destruct (pages_cover HN tagged) as (n & Hn & _ & Hin & Hout).
  pose proof (@numberOfPagesOf_bound _ HN _ _ Hn) as Bn.
  assert (Htl : (List.length tagged <= List.length ps)%nat)
    by apply filter_length_le.
  assert (H' : forall fuel', getAllPosts Granted fuel' lang w1 = (Ok ps, w1)).
  { intros fuel'. eapply getAllPosts_again. exact H. }
  assert (Hfilled : exists c, postsCacheByLang w1 lang = Some c /\
                              posts c = ps).
  { pose proof (acquire_Ok _ _ _ _ H) as K.
    apply getAllPostsCore_Ok in K. apply K. }
  destruct Hfilled as (c & Hc & Hps).
  assert (Hloop : forall locks,
             tagPagePathsLoop (fun _ => lock) (fun _ => locks) fuel [lang]
                              paths w
             = match tagCallbacks locks fuel lang 0
                                  (tagsOf localeCompare ps) paths w1 with
               | (Ok paths', w') => (Ok paths', w')
               | (Throw e, w') => (Throw e, w')
               | (OutOfFuel, w') => (OutOfFuel, w')
               end).
  { intros locks. cbn [tagPagePathsLoop]. unfold getAllTags.
    rewrite (derived_then _ _ _ _ _ _ _ _ H). unfold bindM, ret.
    destruct (tagCallbacks locks fuel lang 0 (tagsOf localeCompare ps)
                           paths w1) as [[p| |] w']; reflexivity. }
  exists n. split; [exact Hn|]. split; [|split; [|split; [|split]]].
  - unfold tagPagePathsOf, getNumberOfPagesByTag.
    rewrite (derived_then _ _ _ _ _ _ _ _ H). fold tagged. rewrite Hn.
    unfold lift. rewrite tagPageNumbersLoop_from_2 by lia. reflexivity.
  - intros locks Hfew Hgranted. rewrite Hloop.
    rewrite <- Hps in Hlen.
    destruct (@tagCallbacks_filled fuel lang w1 c HN Hc Hlen
                (tagsOf localeCompare ps) locks 0%nat paths)
      as (r & Hr & _ & Hall & _).
    rewrite Hr, Hall, Hps; [reflexivity|].
    intros j Hj. cbn [Nat.add]. rewrite (Hgranted j Hj).
    unfold queued, maxPending.
    destruct (Nat.ltb_spec 100 j); [lia|reflexivity].
  - intros locks Hmany. rewrite Hloop.
    rewrite <- Hps in Hlen.
    destruct (@tagCallbacks_filled fuel lang w1 c HN Hc Hlen
                (tagsOf localeCompare ps) locks 0%nat paths)
      as (r & Hr & _ & _ & Hfull).
    rewrite Hr, Hfull; [reflexivity|].
    exists 101%nat. split; [lia|]. reflexivity.
  - intros page fuel' Hp.
    destruct (Hin page Hp) as [Hne _].
    destruct (pageOf page tagged) as [|first rest] eqn:Hpage;
      [contradiction|].
    assert (Hfirst : hasTag (name tag) first = true).
    { assert (K : In first (pageOf page tagged))
        by (rewrite Hpage; left; reflexivity).
      unfold pageOf in K. apply js_slice_In in K.
      apply filter_In in K. apply K. }
    destruct (existsb_find _ _ Hfirst) as (t & Ft & Ht & _).
    apply String.eqb_eq in Ht.
    assert (Hposts : getPostsByTagAndPage databases_query SLUG_META_TITLE
                       NUMBER_OF_POSTS_PER_PAGE Granted fuel' lang
                       (name tag) page w1
                     = (Ok (first :: rest), w1)).
    { unfold getPostsByTagAndPage.
      destruct (Z.ltb_spec page 1); [lia|].
      rewrite (derived_granted _ _
                 (fun a => pageOf page (filter (hasTag (name tag)) a))
                 _ _ _ (H' fuel')).
      fold tagged. rewrite Hpage. reflexivity. }
    unfold tagPagedData, allGranted.
    erewrite tag_frontmatter; [|exact Hposts|exact (H' fuel')].
    unfold ret.
    eexists _, first, rest, t. split; [reflexivity|].
    cbn [tp_posts tp_currentTag]. auto.
  - intros page fuel' Hp.
    assert (Hposts : getPostsByTagAndPage databases_query SLUG_META_TITLE
                       NUMBER_OF_POSTS_PER_PAGE Granted fuel' lang
                       (name tag) page w1
                     = (Ok [], w1)).
    { unfold getPostsByTagAndPage.
      destruct (Z.ltb_spec page 1); [lia|].
      rewrite (derived_granted _ _
                 (fun a => pageOf page (filter (hasTag (name tag)) a))
                 _ _ _ (H' fuel')).
      fold tagged. rewrite (Hout page Hp). reflexivity. }
    unfold tagPagedData, allGranted.
    erewrite tag_frontmatter; [|exact Hposts|exact (H' fuel')].
    reflexivity.
Qed.

End TagPagesFacts.

Lemma tagPagePaths_render_witness :
  exists n : nat,
    numberOfPagesOf 1 (filter (hasTag "rocq") samplePosts)
      = Finite (Z.of_nat n) /\
    tagPagePathsOf sampleDatabase "site-title" 1 Granted 6 ja (tag "rocq") []
                   (initialWorld tt)
      = (Ok ([] ++ map (fun i => ("rocq"%string, Z.of_nat i, ja))
                       (seq 2 (n - 1))), sampleWorld) /\
    (forall locks : nat -> LockOutcome,
       (List.length (tagsOf codeUnitCompare samplePosts) <= 101)%nat ->
       (forall index,
          (index < List.length (tagsOf codeUnitCompare samplePosts))%nat ->
          locks index = Granted) ->
       tagPagePathsLoop sampleDatabase "site-title" 1 codeUnitCompare
                        (fun _ => Granted) (fun _ => locks) 6 [ja] []
                        (initialWorld tt)
       = (Ok ([] ++ tagPagePathsFor 1 samplePosts ja
                                    (tagsOf codeUnitCompare samplePosts)),
          sampleWorld)) /\
    (forall locks : nat -> LockOutcome,
       (102 <= List.length (tagsOf codeUnitCompare samplePosts))%nat ->
       tagPagePathsLoop sampleDatabase "site-title" 1 codeUnitCompare
                        (fun _ => Granted) (fun _ => locks) 6 [ja] []
                        (initialWorld tt)
       = (Throw (LockError ASYNC_LOCK_POSTS TooManyPending), sampleWorld)) /\
    (forall page fuel', 1 <= page <= Z.of_nat n ->
       exists d first rest t,
         tagPagedData sampleDatabase "site-title" 1 codeUnitCompare
                      allGranted fuel' ja "rocq" page sampleWorld
           = (Ok d, sampleWorld) /\
         tp_posts d = pageOf 1 page (filter (hasTag "rocq") samplePosts) /\
         tp_posts d = first :: rest /\
         tp_currentTag d = Some t /\ name t = "rocq"%string) /\
    (forall page fuel', Z.of_nat n < page ->
       tagPagedData sampleDatabase "site-title" 1 codeUnitCompare
                    allGranted fuel' ja "rocq" page sampleWorld
       = (Throw TypeError, sampleWorld)).
Proof.
  apply (@tagPagePaths_render unit sampleDatabase "site-title" 1
           codeUnitCompare Granted 6 ja (tag "rocq") [] (initialWorld tt)
           sampleWorld samplePosts); try reflexivity. simpl. lia.
Defined.

(** With 101 tags [getStaticPaths] of the paginated tag page lists a
    second page for each of them; with 102 tags it throws. *)
Example tagPagePaths_at_the_limit :
  (exists paths w,
     tagPagePaths (taggedDatabase 101) "site-title" 1 codeUnitCompare
                  allGranted (fun _ => allGranted) 3 (initialWorld tt)
     = (Ok paths, w) /\
     map (fun path => snd (fst path)) paths = repeat 2 101) /\
  fst (tagPagePaths (taggedDatabase 102) "site-title" 1 codeUnitCompare
                    allGranted (fun _ => allGranted) 3 (initialWorld tt))
  = Throw (LockError "posts" TooManyPending).
Proof.
  split.
  - eexists _, _. split.
    + vm_compute. reflexivity.
    + vm_compute. reflexivity.
  - vm_compute. reflexivity.
Qed.

(** ** Normalized blocks and their components *)

Section ComponentFacts.
Import NotionBlocks GroupingSpec.

Lemma component_of_type (n : Node) :
  (component n = None <-> ~ In (nodeType n) (map fst component_cases)).
Proof.
  unfold component.
  destruct (find (fun c => (fst c =? nodeType n)%string) component_cases)
    as [c|] eqn:F; cbn [option_map].
  - split; [discriminate|]. intros H. exfalso. apply H.
    apply find_some in F as [Hin E]. apply String.eqb_eq in E.
    rewrite <- E. apply in_map. exact Hin.
  - split; auto. intros _ Hin.
    apply in_map_iff in Hin as (c & E & Hc).
    apply (find_none _ _ F) in Hc. rewrite E, String.eqb_refl in Hc.
    discriminate.
Qed.

(** Property X26.  On blocks none of which poses as a List, every node the
    grouping pass returns is rendered by a component, unless it is a block
    whose type is neither [divider] nor one of the kinds the normalizer
    handles, such as [unsupported]: those, and only those, are rendered as
    nothing. *)
Theorem component_handled (bs : list Block) :
  Forall (fun b => ~ In (BlockType b) list_tags) bs ->
  exists out,
    blocks (map NBlock bs) = Ok out /\
    forall n, In n out ->
      (component n = None <->
       exists b, n = NBlock b /\ In b bs /\
                 ~ In (BlockType b) ("divider"%string :: handled_kinds)).
Proof.
  intros Hbs.
  destruct (@GroupingFacts.reduceFrom_grouped bs [] 0%nat)
    as (out & Hout & Hflat & Hwf & _ & Hplain); auto.
  { repeat split; constructor. }
  exists out. split; [exact Hout|]. simpl in Hflat.
  intros n Hn. rewrite Forall_forall in Hwf, Hplain.
  specialize (Hwf n Hn). specialize (Hplain n Hn).
  destruct n as [b|l].
  - assert (Hb : In b bs).
    { rewrite <- Hflat. apply in_flat_map. exists (NBlock b).
      split; [exact Hn | left; reflexivity]. }
    simpl in Hwf, Hplain. rewrite component_of_type. simpl nodeType.
    split.
    + intros H. exists b. repeat split; auto. intros K. apply H.
      unfold itemKind in Hwf.
      simpl in K.
      repeat (destruct K as [K|K];
              [rewrite <- K in *; simpl in *;
               first [discriminate Hwf | tauto]|]).
      destruct K.
    + intros (b' & E & _ & H). injection E as <-. intros K. apply H.
      simpl in K.
      repeat (destruct K as [K|K];
              [rewrite <- K in *; simpl in *; tauto|]).
      destruct K.
  - split.
    + intros H. exfalso. revert H. destruct l as [[] items]; discriminate.
    + intros (b & E & _). discriminate E.
Qed.

End ComponentFacts.

Lemma component_handled_witness :
  exists out,
    NotionBlocks.blocks (map NotionBlocks.NBlock sampleSequence) = Ok out /\
    forall n, In n out ->
      (component n = None <->
       exists b, n = NotionBlocks.NBlock b /\ In b sampleSequence /\
                 ~ In (BlockType b) ("divider"%string :: handled_kinds)).
Proof.
  apply (@component_handled sampleSequence).
  repeat constructor; simpl; intuition discriminate.
Defined.
